(** * Antigravity gateway: account pool, credential broker, SSE translator,
      dispatcher and persisted configuration.

    A shallow embedding of the request-routing core.  Every definition is a
    transcription of the TypeScript/JavaScript function of the same name; the
    mutable account array becomes an explicit list that is threaded through,
    [Date.now()] becomes an explicit [now], and callbacks that only request a
    save are counted. *)

From stdpp Require Import base option list gmap strings pretty.
From Stdlib Require Import ZArith Lia Ascii.

Local Open Scope string_scope.
Local Open Scope list_scope.
Local Open Scope Z_scope.

(* ===================================================================== *)
(** * Part I.  The model                                                  *)
(* ===================================================================== *)

(** ** Constants ([constants.js]).

    The constants file is configuration: its values are parameters of the
    development. *)
Class Constants := {
  MAX_WAIT_BEFORE_ERROR_MS : Z;
  DEFAULT_COOLDOWN_MS : Z;
  MAX_RETRIES : nat;
  MIN_SIGNATURE_LENGTH : nat;
  TOKEN_REFRESH_INTERVAL_MS : Z;
  ANTIGRAVITY_DB_PATH : string;
  ANTIGRAVITY_ENDPOINT_FALLBACKS : list string
}.

(** ** JavaScript conventions *)
Module JS.

(** [if (s)] for a value of type [string | null]: [null] and the empty
    string are falsy.  The result is the string when it is truthy. *)
Definition truthy (s : option string) : option string :=
  match s with
  | Some x => if String.eqb x "" then None else Some x
  | None => None
  end.

Definition isTruthy (s : option string) : bool :=
  match truthy s with Some _ => true | None => false end.

End JS.

(** ** Account types ([account-manager/types.ts], as the code uses them) *)
Module Types.

Record ModelRateLimit := {
  isRateLimited : bool;
  resetTime : option Z
}.

(** An account.  [isInvalid] absent reads as [false] and [modelRateLimits]
    absent reads as the empty record, as every read in the code does
    ([acc.isInvalid], [acc.modelRateLimits?.[m]], [?? {}]). *)
Record Account := {
  email : string;
  source : string;
  dbPath : option string;
  refreshToken : option string;
  apiKey : option string;
  projectId : option string;
  isInvalid : bool;
  invalidReason : option string;
  invalidAt : option Z;
  modelRateLimits : gmap string ModelRateLimit;
  lastUsed : option Z
}.

Record AccountSettings := {
  cooldownDurationMs : option Z
}.

Definition set_lastUsed (a : Account) (t : option Z) : Account :=
  {| email := email a; source := source a; dbPath := dbPath a;
     refreshToken := refreshToken a; apiKey := apiKey a;
     projectId := projectId a; isInvalid := isInvalid a;
     invalidReason := invalidReason a; invalidAt := invalidAt a;
     modelRateLimits := modelRateLimits a; lastUsed := t |}.

Definition set_modelRateLimits (a : Account)
    (m : gmap string ModelRateLimit) : Account :=
  {| email := email a; source := source a; dbPath := dbPath a;
     refreshToken := refreshToken a; apiKey := apiKey a;
     projectId := projectId a; isInvalid := isInvalid a;
     invalidReason := invalidReason a; invalidAt := invalidAt a;
     modelRateLimits := m; lastUsed := lastUsed a |}.

Definition set_invalid (a : Account) (flag : bool) (reason : option string)
    (at_ : option Z) : Account :=
  {| email := email a; source := source a; dbPath := dbPath a;
     refreshToken := refreshToken a; apiKey := apiKey a;
     projectId := projectId a; isInvalid := flag;
     invalidReason := reason; invalidAt := at_;
     modelRateLimits := modelRateLimits a; lastUsed := lastUsed a |}.

End Types.
Import Types.

(** ** Rate limit management ([account-manager/rate-limits.ts]) *)
Module RateLimits.

(** [limit.isRateLimited && limit.resetTime !== null &&
     limit.resetTime > Date.now()] *)
Definition limitActive (now : Z) (limit : ModelRateLimit) : bool :=
  isRateLimited limit &&
  match resetTime limit with
  | Some t => now <? t
  | None => false
  end.

(** [limit.isRateLimited && limit.resetTime !== null &&
     limit.resetTime <= now] *)
Definition limitExpired (now : Z) (limit : ModelRateLimit) : bool :=
  isRateLimited limit &&
  match resetTime limit with
  | Some t => t <=? now
  | None => false
  end.

Definition isAllRateLimited (accounts : list Account)
    (modelId : option string) (now : Z) : bool :=
  match accounts with
  | [] => true
  | _ =>
    match JS.truthy modelId with
    | None => false
    | Some m =>
      forallb (fun acc =>
        if isInvalid acc then true
        else match modelRateLimits acc !! m with
             | Some limit => limitActive now limit
             | None => false
             end) accounts
    end
  end.

(** The predicate of the [filter] in [getAvailableAccounts]. *)
Definition isAvailable (modelId : option string) (now : Z) (acc : Account) : bool :=
  if isInvalid acc then false
  else match JS.truthy modelId with
       | Some m =>
         match modelRateLimits acc !! m with
         | Some limit => negb (limitActive now limit)
         | None => true
         end
       | None => true
       end.

Definition getAvailableAccounts (accounts : list Account)
    (modelId : option string) (now : Z) : list Account :=
  List.filter (isAvailable modelId now) accounts.

Definition getInvalidAccounts (accounts : list Account) : list Account :=
  List.filter isInvalid accounts.

Definition clearLimit (now : Z) (limit : ModelRateLimit) : ModelRateLimit :=
  if limitExpired now limit
  then {| isRateLimited := false; resetTime := None |}
  else limit.

Definition countExpired (now : Z) (m : gmap string ModelRateLimit) : nat :=
  map_fold (fun _ limit n => if limitExpired now limit then S n else n) 0%nat m.

(** The body of the outer loop of [clearExpiredLimits] for one account. *)
Definition sweepAccount (now : Z) (account : Account) : Account :=
  set_modelRateLimits account (clearLimit now <$> modelRateLimits account).

(** Returns the swept accounts (the array is mutated in place in the
    source) and the number of limits cleared. *)
Definition clearExpiredLimits (accounts : list Account) (now : Z)
    : list Account * nat :=
  (sweepAccount now <$> accounts,
   foldr (fun account n => (countExpired now (modelRateLimits account) + n)%nat)
         0%nat accounts).

Definition resetAllRateLimits (accounts : list Account) : list Account :=
  (fun account =>
     set_modelRateLimits account
       ((fun _ => {| isRateLimited := false; resetTime := None |})
          <$> modelRateLimits account))
  <$> accounts.

(** [accounts.find((a) => a.email === email)] as an index, so that the
    in-place mutation of the found object can be written back. *)
Fixpoint findIndexByEmail (accounts : list Account) (e : string) : option nat :=
  match accounts with
  | [] => None
  | a :: rest =>
    if String.eqb (email a) e then Some 0%nat
    else S <$> findIndexByEmail rest e
  end.

Definition markRateLimited {K : Constants} (accounts : list Account) (e : string)
    (resetMs : option Z) (settings : AccountSettings) (modelId : string)
    (now : Z) : list Account * bool :=
  match findIndexByEmail accounts e with
  | None => (accounts, false)
  | Some i =>
    match accounts !! i with
    | None => (accounts, false)
    | Some account =>
      let cooldownMs :=
        match resetMs with
        | Some r => r
        | None => match cooldownDurationMs settings with
                  | Some c => c
                  | None => DEFAULT_COOLDOWN_MS
                  end
        end in
      let newLimit := {| isRateLimited := true;
                         resetTime := Some (now + cooldownMs) |} in
      (<[ i := set_modelRateLimits account
                 (<[ modelId := newLimit ]> (modelRateLimits account)) ]> accounts,
       true)
    end
  end.

Definition markInvalid (accounts : list Account) (e : string)
    (reason : string) (now : Z) : list Account * bool :=
  match findIndexByEmail accounts e with
  | None => (accounts, false)
  | Some i =>
    match accounts !! i with
    | None => (accounts, false)
    | Some account =>
      (<[ i := set_invalid account true (Some reason) (Some now) ]> accounts, true)
    end
  end.

(** One iteration of the loop of [getMinWaitTimeMs]; [None] is [Infinity]. *)
Definition minWaitStep (modelId : option string) (now : Z)
    (minWait : option Z) (account : Account) : option Z :=
  match JS.truthy modelId with
  | None => minWait
  | Some m =>
    match modelRateLimits account !! m with
    | None => minWait
    | Some limit =>
      if isRateLimited limit then
        match resetTime limit with
        | None => minWait
        | Some t =>
          let wait := t - now in
          if (0 <? wait) &&
             match minWait with Some w => wait <? w | None => true end
          then Some wait else minWait
        end
      else minWait
    end
  end.

Definition getMinWaitTimeMs {K : Constants} (accounts : list Account)
    (modelId : option string) (now : Z) : Z :=
  if negb (isAllRateLimited accounts modelId now) then 0
  else
    match fold_left (minWaitStep modelId now) accounts None with
    | None => DEFAULT_COOLDOWN_MS
    | Some w => w
    end.

End RateLimits.

(** ** Account selection ([account-manager/selection.ts]) *)
Module Selection.

Import RateLimits.

Record AccountSelectionResult := {
  sel_accounts : list Account;   (* the array after in-place mutation *)
  sel_account : option Account;
  sel_newIndex : Z;
  sel_saves : nat                (* invocations of [onSave] *)
}.

Record ShouldWaitResult := {
  shouldWait : bool;
  sw_waitMs : Z;
  sw_account : option Account
}.

Record StickyAccountResult := {
  st_accounts : list Account;
  st_account : option Account;
  st_waitMs : Z;
  st_newIndex : Z;
  st_saves : nat
}.

Definition isAccountUsable (account : option Account)
    (modelId : option string) (now : Z) : bool :=
  match account with
  | None => false
  | Some a =>
    if isInvalid a then false
    else
      match JS.truthy modelId with
      | Some m =>
        match modelRateLimits a !! m with
        | Some limit => negb (limitActive now limit)
        | None => true
        end
      | None => true
      end
  end.

(** [accounts[idx]] for an index that is any integer: [undefined] when it
    is negative or past the end. *)
Definition accountAt (accounts : list Account) (idx : Z) : option Account :=
  if idx <? 0 then None else accounts !! Z.to_nat idx.

(** The index clamp shared by the selection functions:
    [if (index >= accounts.length) index = 0].  A negative index is left as
    it is. *)
Definition clampIndex (accounts : list Account) (currentIndex : Z) : Z :=
  if Z.of_nat (length accounts) <=? currentIndex then 0 else currentIndex.

(** The [for (let i = 1; i <= accounts.length; i++)] loop of [pickNext]:
    [remaining] iterations are left and the next one is iteration [i].
    JavaScript's [%] keeps the sign of the dividend ([Z.rem]). *)
Fixpoint pickNextLoop (accounts : list Account) (index : Z)
    (modelId : option string) (now : Z) (i : Z) (remaining : nat) : option Z :=
  match remaining with
  | O => None
  | S r =>
    let idx := Z.rem (index + i) (Z.of_nat (length accounts)) in
    if isAccountUsable (accountAt accounts idx) modelId now then Some idx
    else pickNextLoop accounts index modelId now (i + 1) r
  end.

Definition pickNext (accounts : list Account) (currentIndex : Z)
    (onSave : bool) (modelId : option string) (now : Z)
    : AccountSelectionResult :=
  let accounts := fst (clearExpiredLimits accounts now) in
  let available := getAvailableAccounts accounts modelId now in
  match available with
  | [] => {| sel_accounts := accounts; sel_account := None;
             sel_newIndex := currentIndex; sel_saves := 0 |}
  | _ =>
    let index := clampIndex accounts currentIndex in
    match pickNextLoop accounts index modelId now 1 (length accounts) with
    | Some idx =>
      match accountAt accounts idx with
      | Some account =>
        let account := set_lastUsed account (Some now) in
        {| sel_accounts := <[ Z.to_nat idx := account ]> accounts;
           sel_account := Some account;
           sel_newIndex := idx;
           sel_saves := if onSave then 1 else 0 |}
      | None => {| sel_accounts := accounts; sel_account := None;
                   sel_newIndex := currentIndex; sel_saves := 0 |}
      end
    | None => {| sel_accounts := accounts; sel_account := None;
                 sel_newIndex := currentIndex; sel_saves := 0 |}
    end
  end.

Definition getCurrentStickyAccount (accounts : list Account)
    (currentIndex : Z) (onSave : bool) (modelId : option string) (now : Z)
    : AccountSelectionResult :=
  let accounts := fst (clearExpiredLimits accounts now) in
  match accounts with
  | [] => {| sel_accounts := accounts; sel_account := None;
             sel_newIndex := currentIndex; sel_saves := 0 |}
  | _ =>
    let index := clampIndex accounts currentIndex in
    match accountAt accounts index with
    | Some account =>
      if isAccountUsable (Some account) modelId now then
        let account := set_lastUsed account (Some now) in
        {| sel_accounts := <[ Z.to_nat index := account ]> accounts;
           sel_account := Some account;
           sel_newIndex := index;
           sel_saves := if onSave then 1 else 0 |}
      else {| sel_accounts := accounts; sel_account := None;
              sel_newIndex := index; sel_saves := 0 |}
    | None => {| sel_accounts := accounts; sel_account := None;
                 sel_newIndex := index; sel_saves := 0 |}
    end
  end.

(** Lines 590-598 of [shouldWaitForCurrentAccount]: the wait that the
    model-specific limit of the current account asks for, 0 without one. *)
Definition currentWaitMs (account : Account) (modelId : option string)
    (now : Z) : Z :=
  match JS.truthy modelId with
  | Some m =>
    match modelRateLimits account !! m with
    | Some limit =>
      if isRateLimited limit then
        match resetTime limit with
        | Some t => t - now
        | None => 0
        end
      else 0
    | None => 0
    end
  | None => 0
  end.

Definition shouldWaitForCurrentAccount {K : Constants} (accounts : list Account)
    (currentIndex : Z) (modelId : option string) (now : Z)
    : ShouldWaitResult :=
  match accounts with
  | [] => {| shouldWait := false; sw_waitMs := 0; sw_account := None |}
  | _ =>
    let index := clampIndex accounts currentIndex in
    match accountAt accounts index with
    | None => {| shouldWait := false; sw_waitMs := 0; sw_account := None |}
    | Some account =>
      if isInvalid account
      then {| shouldWait := false; sw_waitMs := 0; sw_account := None |}
      else
        let waitMs := currentWaitMs account modelId now in
        if (0 <? waitMs) && (waitMs <=? MAX_WAIT_BEFORE_ERROR_MS)
        then {| shouldWait := true; sw_waitMs := waitMs;
                sw_account := Some account |}
        else {| shouldWait := false; sw_waitMs := 0;
                sw_account := Some account |}
    end
  end.

(** Lines 637-649 of [pickStickyAccount]: nobody else is available, so
    either recommend waiting for the current account or call [pickNext]. *)
Definition waitOrAdvance {K : Constants} (accounts : list Account)
    (currentIndex : Z) (onSave : bool) (modelId : option string) (now : Z)
    (saves : nat) : StickyAccountResult :=
  let waitInfo := shouldWaitForCurrentAccount accounts currentIndex modelId now in
  if shouldWait waitInfo then
    {| st_accounts := accounts; st_account := None;
       st_waitMs := sw_waitMs waitInfo; st_newIndex := currentIndex;
       st_saves := saves |}
  else
    let next := pickNext accounts currentIndex onSave modelId now in
    {| st_accounts := sel_accounts next; st_account := sel_account next;
       st_waitMs := 0; st_newIndex := sel_newIndex next;
       st_saves := (saves + sel_saves next)%nat |}.

Definition pickStickyAccount {K : Constants} (accounts : list Account)
    (currentIndex : Z) (onSave : bool) (modelId : option string) (now : Z)
    : StickyAccountResult :=
  (* First try to get the current sticky account *)
  let sticky := getCurrentStickyAccount accounts currentIndex onSave modelId now in
  let accounts := sel_accounts sticky in
  match sel_account sticky with
  | Some stickyAccount =>
    {| st_accounts := accounts; st_account := Some stickyAccount;
       st_waitMs := 0; st_newIndex := sel_newIndex sticky;
       st_saves := sel_saves sticky |}
  | None =>
    (* Current account is rate-limited or invalid: are others available? *)
    match getAvailableAccounts accounts modelId now with
    | [] => waitOrAdvance accounts currentIndex onSave modelId now (sel_saves sticky)
    | _ =>
      let next := pickNext accounts currentIndex onSave modelId now in
      match sel_account next with
      | Some nextAccount =>
        {| st_accounts := sel_accounts next; st_account := Some nextAccount;
           st_waitMs := 0; st_newIndex := sel_newIndex next;
           st_saves := (sel_saves sticky + sel_saves next)%nat |}
      | None =>
        waitOrAdvance (sel_accounts next) currentIndex onSave modelId now
          (sel_saves sticky + sel_saves next)%nat
      end
    end
  end.

End Selection.

(** ** The outside world.

    Calls that leave the process (the OAuth token endpoint, the local
    Antigravity database, the upstream HTTP endpoints) and helpers of the
    repository whose source is not part of the development
    ([utils/helpers.js], [errors.js], [fallback-config.js]) are operations of
    an environment over an abstract world state [World]. *)
Definition Error := string.   (* the [message] of a JavaScript [Error] *)

Inductive Outcome (A : Type) :=
  | Returns (a : A)
  | Throws (err : Error).
Arguments Returns {A} a.
Arguments Throws {A} err.

Record RefreshedToken := {
  accessToken : string;
  expiresIn : Z
}.

(** What the dispatcher reads off one [fetch]: the reply with
    [response.ok], [response.status], [await response.text()],
    [parseResetTime(response, errorText)] and [response.body]; or the error
    thrown by [fetch] or by the reading of the reply. *)
Inductive FetchReply (Body : Type) :=
  | Reply (ok : bool) (status : Z) (errorText : string) (resetMs : option Z)
          (body : option Body)
  | FetchThrows (err : Error).
Arguments Reply {Body} ok status errorText resetMs body.
Arguments FetchThrows {Body} err.

Record FetchCall := {
  fc_url : string;
  fc_token : string;
  fc_model : string;
  fc_accept : string;
  fc_request : string;      (* the client's request, opaque *)
  fc_project : string
}.

Class Environment (World Body Resp : Type) := {
  (* [utils/helpers.js], [errors.js], [fallback-config.js], [constants.js] *)
  isNetworkError : Error -> bool;
  isRateLimitError : Error -> bool;
  isAuthError : Error -> bool;
  formatDuration : Z -> string;
  getFallbackModel : string -> option string;
  isThinkingModel : string -> bool;
  (* [new Date(ms).toISOString()] *)
  toISOString : Z -> string;
  (* [auth/oauth.ts], [auth/database.ts], [discoverProject] *)
  refreshAccessToken : string -> World -> Outcome RefreshedToken * World;
  getAuthStatus : string -> World -> Outcome string * World;
  discoverProject : string -> World -> string * World;
  (* the upstream *)
  fetch : FetchCall -> World -> FetchReply Body * World;
  (* [parseThinkingSSEResponse(body, model)] *)
  parseThinkingSSEResponse : Body -> string -> Outcome Resp;
  (* [convertGoogleToAnthropic(await response.json(), model)] *)
  convertJsonResponse : option Body -> string -> Outcome Resp;
  (* the chunks a streamed body delivers, and the error that ends it early *)
  readBody : Body -> list string * option Error
}.

(** ** Credentials ([account-manager/credentials.ts]) *)
Module Credentials.

Record TokenCacheEntry := {
  token : string;
  extractedAt : Z
}.

(** The value produced together with what the call mutated: the account
    object, the token cache, the state [S] the callbacks act on, and the
    world. *)
Record TokenResult (S World : Type) := {
  tr_outcome : Outcome string;
  tr_account : Account;
  tr_tokenCache : gmap string TokenCacheEntry;
  tr_state : S;
  tr_world : World
}.
Arguments tr_outcome {S World} _.
Arguments tr_account {S World} _.
Arguments tr_tokenCache {S World} _.
Arguments tr_state {S World} _.
Arguments tr_world {S World} _.

Definition callOnSave {S} (onSave : option (S -> S)) (s : S) : S :=
  match onSave with Some f => f s | None => s end.

Definition callOnInvalid {S} (onInvalid : option (string -> string -> S -> S))
    (e reason : string) (s : S) : S :=
  match onInvalid with Some f => f e reason s | None => s end.

Definition getTokenForAccount {K : Constants} {S World Body Resp}
    {E : Environment World Body Resp}
    (account : Account) (tokenCache : gmap string TokenCacheEntry)
    (onInvalid : option (string -> string -> S -> S))
    (onSave : option (S -> S)) (now : Z) (s : S) (w : World)
    : TokenResult S World :=
  let cacheHit :=
    match tokenCache !! email account with
    | Some cached =>
      if now - extractedAt cached <? TOKEN_REFRESH_INTERVAL_MS
      then Some (token cached) else None
    | None => None
    end in
  match cacheHit with
  | Some t =>
    {| tr_outcome := Returns t; tr_account := account;
       tr_tokenCache := tokenCache; tr_state := s; tr_world := w |}
  | None =>
    let store (t : string) (account : Account) (s : S) (w : World) :=
      {| tr_outcome := Returns t; tr_account := account;
         tr_tokenCache :=
           <[ email account := {| token := t; extractedAt := now |} ]> tokenCache;
         tr_state := s; tr_world := w |} in
    match String.eqb (source account) "oauth", JS.truthy (refreshToken account) with
    | true, Some rt =>
      (* OAuth account - use refresh token to get new access token *)
      match refreshAccessToken rt w with
      | (Returns tokens, w) =>
        if isInvalid account then
          store (accessToken tokens) (set_invalid account false None (invalidAt account))
                (callOnSave onSave s) w
        else store (accessToken tokens) account s w
      | (Throws err, w) =>
        if isNetworkError err then
          (* Do NOT mark as invalid, just throw so caller knows it failed *)
          {| tr_outcome := Throws ("AUTH_NETWORK_ERROR: " +:+ err);
             tr_account := account; tr_tokenCache := tokenCache;
             tr_state := s; tr_world := w |}
        else
          (* Mark account as invalid (credentials need re-auth) *)
          {| tr_outcome :=
               Throws ("AUTH_INVALID: " +:+ email account +:+ ": " +:+ err);
             tr_account := account; tr_tokenCache := tokenCache;
             tr_state := callOnInvalid onInvalid (email account) err s;
             tr_world := w |}
      end
    | _, _ =>
      match String.eqb (source account) "manual", JS.truthy (apiKey account) with
      | true, Some key => store key account s w
      | _, _ =>
        (* Extract from database *)
        let path := match dbPath account with
                    | Some p => p
                    | None => ANTIGRAVITY_DB_PATH
                    end in
        match getAuthStatus path w with
        | (Returns key, w) => store key account s w
        | (Throws err, w) =>
          {| tr_outcome := Throws err; tr_account := account;
             tr_tokenCache := tokenCache; tr_state := s; tr_world := w |}
        end
      end
    end
  end.

Definition getProjectForAccount {World Body Resp} {E : Environment World Body Resp}
    (account : Account) (tok : string) (projectCache : gmap string string)
    (w : World) : string * gmap string string * World :=
  match JS.truthy (projectCache !! email account) with
  | Some cached => (cached, projectCache, w)
  | None =>
    match JS.truthy (projectId account) with
    | Some p => (p, <[ email account := p ]> projectCache, w)
    | None =>
      let '(project, w) := discoverProject tok w in
      (project, <[ email account := project ]> projectCache, w)
    end
  end.

Definition clearProjectCache (projectCache : gmap string string)
    (e : option string) : gmap string string :=
  match JS.truthy e with
  | Some x => delete x projectCache
  | None => ∅
  end.

Definition clearTokenCache (tokenCache : gmap string TokenCacheEntry)
    (e : option string) : gmap string TokenCacheEntry :=
  match JS.truthy e with
  | Some x => delete x tokenCache
  | None => ∅
  end.

End Credentials.

(** ** The account manager (class [AccountManager]) *)
Module AccountManager.

Import Credentials.

(** The private fields of the class, and the number of times [saveToDisk]
    has been called. *)
Record State := {
  accounts : list Account;
  currentIndex : Z;
  settings : AccountSettings;
  tokenCache : gmap string TokenCacheEntry;
  projectCache : gmap string string;
  saves : nat
}.

Definition with_accounts (st : State) (accs : list Account) : State :=
  {| accounts := accs; currentIndex := currentIndex st;
     settings := settings st; tokenCache := tokenCache st;
     projectCache := projectCache st; saves := saves st |}.

Definition with_index (st : State) (i : Z) : State :=
  {| accounts := accounts st; currentIndex := i;
     settings := settings st; tokenCache := tokenCache st;
     projectCache := projectCache st; saves := saves st |}.

Definition with_tokenCache (st : State) (c : gmap string TokenCacheEntry) : State :=
  {| accounts := accounts st; currentIndex := currentIndex st;
     settings := settings st; tokenCache := c;
     projectCache := projectCache st; saves := saves st |}.

Definition with_projectCache (st : State) (c : gmap string string) : State :=
  {| accounts := accounts st; currentIndex := currentIndex st;
     settings := settings st; tokenCache := tokenCache st;
     projectCache := c; saves := saves st |}.

Definition add_saves (st : State) (n : nat) : State :=
  {| accounts := accounts st; currentIndex := currentIndex st;
     settings := settings st; tokenCache := tokenCache st;
     projectCache := projectCache st; saves := (saves st + n)%nat |}.

Definition saveToDisk (st : State) : State := add_saves st 1.

Definition getAccountCount (st : State) : nat := length (accounts st).

Definition isAllRateLimited (modelId : option string) (now : Z) (st : State) : bool :=
  RateLimits.isAllRateLimited (accounts st) modelId now.

Definition getAvailableAccounts (modelId : option string) (now : Z) (st : State)
    : list Account :=
  RateLimits.getAvailableAccounts (accounts st) modelId now.

Definition clearExpiredLimits (now : Z) (st : State) : nat * State :=
  let '(accs, cleared) := RateLimits.clearExpiredLimits (accounts st) now in
  let st := with_accounts st accs in
  (cleared, if (0 <? cleared)%nat then saveToDisk st else st).

Definition pickNext (modelId : option string) (now : Z) (st : State)
    : option Account * State :=
  let r := Selection.pickNext (accounts st) (currentIndex st) true modelId now in
  (Selection.sel_account r,
   add_saves (with_index (with_accounts st (Selection.sel_accounts r))
                         (Selection.sel_newIndex r))
             (Selection.sel_saves r)).

Definition getCurrentStickyAccount (modelId : option string) (now : Z) (st : State)
    : option Account * State :=
  let r := Selection.getCurrentStickyAccount (accounts st) (currentIndex st)
             true modelId now in
  (Selection.sel_account r,
   add_saves (with_index (with_accounts st (Selection.sel_accounts r))
                         (Selection.sel_newIndex r))
             (Selection.sel_saves r)).

Definition shouldWaitForCurrentAccount {K : Constants} (modelId : option string)
    (now : Z) (st : State) : Selection.ShouldWaitResult :=
  Selection.shouldWaitForCurrentAccount (accounts st) (currentIndex st) modelId now.

Definition pickStickyAccount {K : Constants} (modelId : option string) (now : Z)
    (st : State) : (option Account * Z) * State :=
  let r := Selection.pickStickyAccount (accounts st) (currentIndex st)
             true modelId now in
  ((Selection.st_account r, Selection.st_waitMs r),
   add_saves (with_index (with_accounts st (Selection.st_accounts r))
                         (Selection.st_newIndex r))
             (Selection.st_saves r)).

Definition markRateLimited {K : Constants} (e : string) (resetMs : option Z)
    (modelId : option string) (now : Z) (st : State) : State :=
  match JS.truthy modelId with
  | Some m =>
    let '(accs, _) :=
      RateLimits.markRateLimited (accounts st) e resetMs (settings st) m now in
    saveToDisk (with_accounts st accs)
  | None => st
  end.

Definition markInvalid (e : string) (reason : string) (now : Z) (st : State)
    : State :=
  let '(accs, _) := RateLimits.markInvalid (accounts st) e reason now in
  saveToDisk (with_accounts st accs).

Definition getMinWaitTimeMs {K : Constants} (modelId : option string) (now : Z)
    (st : State) : Z :=
  RateLimits.getMinWaitTimeMs (accounts st) modelId now.

(** The account object handed to [getTokenForAccount] is an element of the
    pool, and the pool is keyed by email: when the call clears the invalid
    flag of the object, the first pool entry with that email is the one that
    changes. *)
Definition clearInvalidFlag (accs : list Account) (e : string) : list Account :=
  match RateLimits.findIndexByEmail accs e with
  | Some i =>
    match accs !! i with
    | Some a => <[ i := set_invalid a false None (invalidAt a) ]> accs
    | None => accs
    end
  | None => accs
  end.

Definition getTokenForAccount {K : Constants} {World Body Resp}
    {E : Environment World Body Resp}
    (account : Account) (now : Z) (st : State) (w : World)
    : Outcome string * State * World :=
  let r := Credentials.getTokenForAccount account (tokenCache st)
             (Some (fun e reason st => markInvalid e reason now st))
             (Some saveToDisk) now st w in
  let st := tr_state r in
  let st :=
    if isInvalid account && negb (isInvalid (tr_account r))
    then with_accounts st (clearInvalidFlag (accounts st) (email account))
    else st in
  (tr_outcome r, with_tokenCache st (tr_tokenCache r), tr_world r).

Definition getProjectForAccount {World Body Resp} {E : Environment World Body Resp}
    (account : Account) (tok : string) (st : State) (w : World)
    : string * State * World :=
  let '(p, cache, w) :=
    Credentials.getProjectForAccount account tok (projectCache st) w in
  (p, with_projectCache st cache, w).

Definition clearProjectCache (e : option string) (st : State) : State :=
  with_projectCache st (Credentials.clearProjectCache (projectCache st) e).

Definition clearTokenCache (e : option string) (st : State) : State :=
  with_tokenCache st (Credentials.clearTokenCache (tokenCache st) e).

End AccountManager.

(** ** The SSE translator ([cloudcode/sse-streamer.ts]) *)
Module SSE.

(** *** Google payloads ([format/types.ts], as the translator reads them).

    The payload is whatever [JSON.parse] returns: nothing checks it against
    its declared type.  A key that the translator only tests for truthiness
    or reads through [??] is an [option], [None] when it is absent or
    [null].  The two keys it tests with [in] are a [Field]: absent, present
    with [null], or present with a value. *)
Inductive Field (A : Type) :=
  | Absent
  | Null
  | Value (a : A).
Arguments Absent {A}.
Arguments Null {A}.
Arguments Value {A} a.

Record FunctionCall := {
  fc_id : option string;
  fc_name : string;
  fc_args : option string          (* the JSON text of [args] *)
}.

Record GooglePart := {
  thought : option bool;
  text : Field string;
  thoughtSignature : option string;
  functionCall : Field FunctionCall
}.

Record GoogleUsageMetadata := {
  promptTokenCount : option Z;
  candidatesTokenCount : option Z;
  cachedContentTokenCount : option Z
}.

(** An element of [parts] that is not an object ([null], a number, a
    string) is [None]: the [in] operator throws on it. *)
Record GoogleCandidate := {
  parts : option (list (option GooglePart));      (* [content?.parts] *)
  finishReason : option string
}.

Record GoogleInner := {
  usageMetadata : option GoogleUsageMetadata;
  candidates : option (list GoogleCandidate)
}.

(** The parsed payload: its own top-level fields, and the [response]
    wrapper when there is one. *)
Record GoogleResponse := {
  response : option GoogleInner;
  top : GoogleInner
}.

(** What the JavaScript runtime supplies: [JSON.parse] ([None] where it
    throws, or returns [null], on which the first read of the [try] block
    throws), [String.prototype.trim], and
    [crypto.randomBytes(n).toString("hex")], whose [k]-th draw is
    [randomHex n k]. *)
Class Runtime := {
  JSON_parse : string -> option GoogleResponse;
  trim : string -> string;
  randomHex : nat -> nat -> string
}.

(** *** Anthropic events *)
Inductive BlockType := Thinking | Text | ToolUse.

Inductive ContentBlock :=
  | ThinkingBlock (thinking : string)
  | TextBlock (txt : string)
  | ToolUseBlock (id name input : string) (signature : option string).

Inductive Delta :=
  | ThinkingDelta (thinking : string)
  | SignatureDelta (signature : string)
  | TextDelta (txt : string)
  | InputJsonDelta (partial_json : string).

Inductive AnthropicSSEEvent :=
  | MessageStart (id model : string)
      (input_tokens output_tokens cache_read_input_tokens
       cache_creation_input_tokens : Z)
  | ContentBlockStart (index : nat) (content_block : ContentBlock)
  | ContentBlockDelta (index : nat) (delta : Delta)
  | ContentBlockStop (index : nat)
  | MessageDelta (stop_reason : string)
      (output_tokens cache_read_input_tokens cache_creation_input_tokens : Z)
  | MessageStop.

(** Writes to the signature caches ([format/signature-cache.js]). *)
Inductive CacheWrite :=
  | CacheThinkingSignature (signature model : string)
  | CacheSignature (toolId signature : string).

(** *** String helpers of the runtime *)
Definition newline : ascii := "010"%char.

(** [s.split("\n")] *)
Fixpoint splitNewline (s : string) : list string :=
  match s with
  | EmptyString => [EmptyString]
  | String c rest =>
    let pieces := splitNewline rest in
    if Ascii.eqb c newline then EmptyString :: pieces
    else match pieces with
         | [] => [String c EmptyString]
         | p :: ps => String c p :: ps
         end
  end.

(** [s.slice(n)] *)
Fixpoint slice (n : nat) (s : string) : string :=
  match n, s with
  | O, _ => s
  | S n, String _ rest => slice n rest
  | S _, EmptyString => EmptyString
  end.

Definition isEmpty (s : string) : bool :=
  match s with EmptyString => true | _ => false end.

(** *** The translator's local variables

    All of them but [buffer], which only the chunk loop touches and which
    is threaded through that loop by itself. *)
Record State := {
  hasEmittedStart : bool;
  blockIndex : nat;
  currentBlockType : option BlockType;
  currentThinkingSignature : string;
  inputTokens : Z;
  outputTokens : Z;
  cacheReadTokens : Z;
  stopReason : string;
  draws : nat;                       (* random draws made so far *)
  cacheWrites : list CacheWrite      (* in order *)
}.

Definition initialState : State :=
  {| hasEmittedStart := false; blockIndex := 0; currentBlockType := None;
     currentThinkingSignature := ""; inputTokens := 0; outputTokens := 0;
     cacheReadTokens := 0; stopReason := "end_turn";
     draws := 1; cacheWrites := [] |}.

Definition withStart (st : State) : State :=
  {| hasEmittedStart := true; blockIndex := blockIndex st;
     currentBlockType := currentBlockType st;
     currentThinkingSignature := currentThinkingSignature st;
     inputTokens := inputTokens st; outputTokens := outputTokens st;
     cacheReadTokens := cacheReadTokens st; stopReason := stopReason st;
     draws := draws st; cacheWrites := cacheWrites st |}.

Definition withBlock (st : State) (i : nat) (ty : option BlockType)
    (sig : string) : State :=
  {| hasEmittedStart := hasEmittedStart st; blockIndex := i;
     currentBlockType := ty; currentThinkingSignature := sig;
     inputTokens := inputTokens st; outputTokens := outputTokens st;
     cacheReadTokens := cacheReadTokens st; stopReason := stopReason st;
     draws := draws st; cacheWrites := cacheWrites st |}.

Definition withUsage (st : State) (i o c : Z) : State :=
  {| hasEmittedStart := hasEmittedStart st; blockIndex := blockIndex st;
     currentBlockType := currentBlockType st;
     currentThinkingSignature := currentThinkingSignature st;
     inputTokens := i; outputTokens := o; cacheReadTokens := c;
     stopReason := stopReason st; draws := draws st;
     cacheWrites := cacheWrites st |}.

Definition withStopReason (st : State) (r : string) : State :=
  {| hasEmittedStart := hasEmittedStart st; blockIndex := blockIndex st;
     currentBlockType := currentBlockType st;
     currentThinkingSignature := currentThinkingSignature st;
     inputTokens := inputTokens st; outputTokens := outputTokens st;
     cacheReadTokens := cacheReadTokens st; stopReason := r;
     draws := draws st; cacheWrites := cacheWrites st |}.

Definition withDraw (st : State) : State :=
  {| hasEmittedStart := hasEmittedStart st; blockIndex := blockIndex st;
     currentBlockType := currentBlockType st;
     currentThinkingSignature := currentThinkingSignature st;
     inputTokens := inputTokens st; outputTokens := outputTokens st;
     cacheReadTokens := cacheReadTokens st; stopReason := stopReason st;
     draws := S (draws st); cacheWrites := cacheWrites st |}.

Definition withCacheWrite (st : State) (w : CacheWrite) : State :=
  {| hasEmittedStart := hasEmittedStart st; blockIndex := blockIndex st;
     currentBlockType := currentBlockType st;
     currentThinkingSignature := currentThinkingSignature st;
     inputTokens := inputTokens st; outputTokens := outputTokens st;
     cacheReadTokens := cacheReadTokens st; stopReason := stopReason st;
     draws := draws st;
     cacheWrites := cacheWrites st ++ [w] |}.

Definition BlockType_eqb (a b : BlockType) : bool :=
  match a, b with
  | Thinking, Thinking | Text, Text | ToolUse, ToolUse => true
  | _, _ => false
  end.

Definition isBlockType (st : State) (ty : BlockType) : bool :=
  match currentBlockType st with
  | Some t => BlockType_eqb t ty
  | None => false
  end.

(** [yield { type: "message_start", ... }] *)
Definition messageStart (messageId originalModel : string) (st : State)
    : AnthropicSSEEvent :=
  MessageStart messageId originalModel
    (inputTokens st - cacheReadTokens st) 0 (cacheReadTokens st) 0.

(** [if (currentBlockType === "thinking" && currentThinkingSignature)
     { yield signature_delta; currentThinkingSignature = "" }] *)
Definition flushSignature (st : State) : State * list AnthropicSSEEvent :=
  if isBlockType st Thinking && negb (isEmpty (currentThinkingSignature st))
  then (withBlock st (blockIndex st) (currentBlockType st) "",
        [ContentBlockDelta (blockIndex st)
           (SignatureDelta (currentThinkingSignature st))])
  else (st, []).

(** [if (currentBlockType !== null)
     { yield content_block_stop; blockIndex++ }] *)
Definition closeBlock (st : State) : State * list AnthropicSSEEvent :=
  match currentBlockType st with
  | Some _ =>
    (withBlock st (S (blockIndex st)) (currentBlockType st)
       (currentThinkingSignature st),
     [ContentBlockStop (blockIndex st)])
  | None => (st, [])
  end.

(** ["thoughtSignature" in part && part.thoughtSignature ?
     part.thoughtSignature : ""] *)
Definition signatureOf (part : GooglePart) : string :=
  match JS.truthy (thoughtSignature part) with
  | Some s => s
  | None => ""
  end.

Definition longEnough {K : Constants} (signature : string) : bool :=
  negb (isEmpty signature) &&
  (MIN_SIGNATURE_LENGTH <=? String.length signature)%nat.

Definition isThought (part : GooglePart) : bool :=
  match thought part with Some true => true | _ => false end.

(** The body of [for (const part of parts)], for a part that is an
    object.  The third component tells whether the body threw:
    [part.functionCall.id] throws when the key holds [null], after the open
    block has been closed and the block type and the stop reason have been
    set, and before the new block is started. *)
Definition processPart {K : Constants} {R : Runtime} (originalModel : string)
    (st : State) (part : GooglePart)
    : State * list AnthropicSSEEvent * bool :=
  match isThought part, text part with
  | true, (Null | Value _) as txt =>
    (* Handle thinking block *)
    let txt := match txt with Value t => t | _ => "" end in
    let signature := signatureOf part in
    let '(st, opened) :=
      if isBlockType st Thinking then (st, [])
      else
        let '(st, stop) := closeBlock st in
        let st := withBlock st (blockIndex st) (Some Thinking) "" in
        (st, stop ++ [ContentBlockStart (blockIndex st) (ThinkingBlock "")]) in
    let st :=
      if longEnough signature
      then withCacheWrite
             (withBlock st (blockIndex st) (currentBlockType st) signature)
             (CacheThinkingSignature signature originalModel)
      else st in
    (st, opened ++ [ContentBlockDelta (blockIndex st) (ThinkingDelta txt)],
     false)
  | false, Null => (st, [], false)     (* [!part.text]: skipped *)
  | false, Value txt =>
    (* Skip empty text parts *)
    if isEmpty txt || (String.length (trim txt) =? 0)%nat then (st, [], false)
    else
      (* Handle regular text *)
      let '(st, opened) :=
        if isBlockType st Text then (st, [])
        else
          let '(st, sig) := flushSignature st in
          let '(st, stop) := closeBlock st in
          let st := withBlock st (blockIndex st) (Some Text)
                      (currentThinkingSignature st) in
          (st, sig ++ stop ++ [ContentBlockStart (blockIndex st) (TextBlock "")]) in
      (st, opened ++ [ContentBlockDelta (blockIndex st) (TextDelta txt)], false)
  | _, Absent =>
    match functionCall part with
    | Absent => (st, [], false)
    | call =>
      (* Handle tool use *)
      let functionCallSignature := signatureOf part in
      let '(st, sig) := flushSignature st in
      let '(st, stop) := closeBlock st in
      let st := withStopReason
                  (withBlock st (blockIndex st) (Some ToolUse)
                     (currentThinkingSignature st))
                  "tool_use" in
      match call with
      | Value fc =>
        let '(toolId, st) :=
          match fc_id fc with
          | Some i => (i, st)
          | None => ("toolu_" +:+ randomHex 12 (draws st), withDraw st)
          end in
        let keep := longEnough functionCallSignature in
        let st := if keep
                  then withCacheWrite st
                         (CacheSignature toolId functionCallSignature)
                  else st in
        (st,
         sig ++ stop ++
         [ContentBlockStart (blockIndex st)
            (ToolUseBlock toolId (fc_name fc) "{}"
               (if keep then Some functionCallSignature else None));
          ContentBlockDelta (blockIndex st)
            (InputJsonDelta
               (match fc_args fc with Some a => a | None => "{}" end))],
         false)
      | _ => (st, sig ++ stop, true)   (* [part.functionCall.id] throws *)
      end
    end
  end.

(** The loop over the parts.  It ends where a part throws: on a part that
    is not an object (["thought" in part] throws) or inside the body. *)
Fixpoint processParts {K : Constants} {R : Runtime} (originalModel : string)
    (st : State) (ps : list (option GooglePart))
    : State * list AnthropicSSEEvent * bool :=
  match ps with
  | [] => (st, [], false)
  | None :: _ => (st, [], true)
  | Some part :: rest =>
    let '(st, evs, threw) := processPart originalModel st part in
    if threw then (st, evs, true)
    else
      let '(st, evs', threw) := processParts originalModel st rest in
      (st, evs ++ evs', threw)
  end.

Definition innerResponse (data : GoogleResponse) : GoogleInner :=
  match response data with Some r => r | None => top data end.

Definition firstCandidate (data : GoogleResponse) : option GoogleCandidate :=
  match candidates (innerResponse data) with
  | Some (c :: _) => Some c
  | _ => None
  end.

(** [firstCandidate?.content ?? {}] then [content.parts ?? []] *)
Definition partsOf (data : GoogleResponse) : list (option GooglePart) :=
  match firstCandidate data with
  | Some c => match parts c with Some ps => ps | None => [] end
  | None => []
  end.

Definition orElse (o : option Z) (d : Z) : Z :=
  match o with Some x => x | None => d end.

(** Lines 167-173: the running usage counters. *)
Definition extractUsage (st : State) (data : GoogleResponse) : State :=
  match usageMetadata (innerResponse data) with
  | Some usage =>
    withUsage st
      (orElse (promptTokenCount usage) (inputTokens st))
      (orElse (candidatesTokenCount usage) (outputTokens st))
      (orElse (cachedContentTokenCount usage) (cacheReadTokens st))
  | None => st
  end.

(** Lines 327-334: the finish reason. *)
Definition checkFinishReason (st : State) (data : GoogleResponse) : State :=
  match firstCandidate data with
  | Some c =>
    match JS.truthy (finishReason c) with
    | Some r =>
      if String.eqb r "MAX_TOKENS" then withStopReason st "max_tokens"
      else if String.eqb r "STOP" then withStopReason st "end_turn"
      else st
    | None => st
    end
  | None => st
  end.

(** The body of the [try] for one parsed payload.  When a part throws,
    the [catch] logs the error: the finish reason of the payload is not
    looked at, and what was yielded and assigned before stays. *)
Definition processData {K : Constants} {R : Runtime}
    (messageId originalModel : string) (st : State) (data : GoogleResponse)
    : State * list AnthropicSSEEvent :=
  let st := extractUsage st data in
  let ps := partsOf data in
  let '(st, start) :=
    if negb (hasEmittedStart st) && (0 <? length ps)%nat
    then (withStart st, [messageStart messageId originalModel st])
    else (st, []) in
  let '(st, evs, threw) := processParts originalModel st ps in
  (if threw then st else checkFinishReason st data, start ++ evs).

(** What one line of the stream carries: nothing when it is not a [data:]
    line, when its payload is blank, or when [JSON.parse] throws or returns
    [null]. *)
Definition dataOfLine {R : Runtime} (line : string) : option GoogleResponse :=
  if String.prefix "data:" line then
    let jsonText := trim (slice 5 line) in
    if isEmpty jsonText then None else JSON_parse jsonText
  else None.

(** The body of [for (const line of lines)]. *)
Definition processLine {K : Constants} {R : Runtime}
    (messageId originalModel : string) (st : State) (line : string)
    : State * list AnthropicSSEEvent :=
  match dataOfLine line with
  | Some data => processData messageId originalModel st data
  | None => (st, [])
  end.

Fixpoint processLines {K : Constants} {R : Runtime}
    (messageId originalModel : string) (st : State) (lines : list string)
    : State * list AnthropicSSEEvent :=
  match lines with
  | [] => (st, [])
  | line :: rest =>
    let '(st, evs) := processLine messageId originalModel st line in
    let '(st, evs') := processLines messageId originalModel st rest in
    (st, evs ++ evs')
  end.

(** One turn of the [while] loop: a decoded chunk arrives.  The complete
    lines of [buffer + chunk] are processed; what follows the last newline
    is the new buffer. *)
Definition processChunk {K : Constants} {R : Runtime}
    (messageId originalModel : string) (st : State) (buffer chunk : string)
    : State * string * list AnthropicSSEEvent :=
  let lines := splitNewline (buffer +:+ chunk) in
  let buffer := List.last lines "" in
  let '(st, evs) := processLines messageId originalModel st (removelast lines) in
  (st, buffer, evs).

(** The [while (true)] loop over the chunks the reader delivers. *)
Fixpoint streamLoop {K : Constants} {R : Runtime}
    (messageId originalModel : string) (st : State) (buffer : string)
    (chunks : list string) : State * list AnthropicSSEEvent :=
  match chunks with
  | [] => (st, [])
  | chunk :: rest =>
    let '(st, buffer, evs) :=
      processChunk messageId originalModel st buffer chunk in
    let '(st, evs') := streamLoop messageId originalModel st buffer rest in
    (st, evs ++ evs')
  end.

(** Lines 342-400: what is yielded once the reader is done. *)
Definition finish (messageId originalModel : string) (st : State)
    : list AnthropicSSEEvent :=
  (if negb (hasEmittedStart st) then
     [ messageStart messageId originalModel st;
       ContentBlockStart 0 (TextBlock "");
       ContentBlockDelta 0 (TextDelta "[No response received from API]");
       ContentBlockStop 0 ]
   else
     match currentBlockType st with
     | Some _ =>
       (if isBlockType st Thinking && negb (isEmpty (currentThinkingSignature st))
        then [ContentBlockDelta (blockIndex st)
                (SignatureDelta (currentThinkingSignature st))]
        else [])
       ++ [ContentBlockStop (blockIndex st)]
     | None => []
     end)
  ++ [ MessageDelta (stopReason st) (outputTokens st) (cacheReadTokens st) 0;
       MessageStop ].

(** The events yielded for a body that delivers [chunks] and then ends.
    The message id is the first random draw. *)
Definition streamSSEResponse {K : Constants} {R : Runtime}
    (chunks : list string) (originalModel : string) : list AnthropicSSEEvent :=
  let messageId := "msg_" +:+ randomHex 16 0 in
  let '(st, evs) := streamLoop messageId originalModel initialState "" chunks in
  evs ++ finish messageId originalModel st.

End SSE.

(** ** The OpenAI response converter ([format/openai-response-converter.js]) *)
Module OpenAI.

Inductive AnthropicBlock :=
  | BText (txt : option string)
  | BThinking (thinking : string)
  | BToolUse (id : option string) (name : string) (input : option string)
  | BOther.

Record AnthropicUsage := {
  input_tokens : option Z;
  output_tokens : option Z;
  cache_read_input_tokens : option Z
}.

Record AnthropicResponse := {
  content : option (list AnthropicBlock);
  stop_reason : option string;
  usage : option AnthropicUsage
}.

Record ToolCall := {
  tc_id : string;
  tc_name : string;
  tc_arguments : string
}.

Record OpenAIUsage := {
  prompt_tokens : Z;
  completion_tokens : Z;
  total_tokens : Z
}.

Record ChatCompletion := {
  cc_id : string;
  cc_created : Z;
  cc_model : string;
  cc_content : option string;
  cc_tool_calls : option (list ToolCall);
  cc_finish_reason : string;
  cc_usage : OpenAIUsage
}.

(** [x || 0] for a number that may be absent: absent and 0 both give 0. *)
Definition orZero (o : option Z) : Z :=
  match o with Some x => x | None => 0 end.

(** [anthropicResponse.usage?.field || 0] *)
Definition usageField (r : AnthropicResponse)
    (f : AnthropicUsage -> option Z) : Z :=
  match usage r with Some u => orZero (f u) | None => 0 end.

(** The loop over the content blocks: the text and the tool calls, and the
    number of random draws used for missing ids. *)
Fixpoint collect {R : SSE.Runtime} (blocks : list AnthropicBlock)
    (textContent : string) (toolCalls : list ToolCall) (draws : nat)
    : string * list ToolCall * nat :=
  match blocks with
  | [] => (textContent, toolCalls, draws)
  | BText t :: rest =>
    collect rest (textContent +:+ match JS.truthy t with Some x => x | None => "" end)
            toolCalls draws
  | BThinking _ :: rest => collect rest textContent toolCalls draws
  | BToolUse i name input :: rest =>
    let '(i, draws) :=
      match JS.truthy i with
      | Some x => (x, draws)
      | None => ("call_" +:+ SSE.randomHex 8 draws, S draws)
      end in
    collect rest textContent
      (toolCalls ++
       [{| tc_id := i; tc_name := name;
           tc_arguments := match input with Some a => a | None => "{}" end |}])
      draws
  | BOther :: rest => collect rest textContent toolCalls draws
  end.

Definition convertToOpenAI {R : SSE.Runtime} (anthropicResponse : AnthropicResponse)
    (model : string) (now : Z) : ChatCompletion :=
  let id := "chatcmpl-" +:+ SSE.randomHex 12 0 in
  let created := now / 1000 in
  let blocks := match content anthropicResponse with Some c => c | None => [] end in
  let '(textContent, toolCalls, _) := collect blocks "" [] 1 in
  let hasTools := (0 <? length toolCalls)%nat in
  let finishReason :=
    match stop_reason anthropicResponse with
    | Some r =>
      if String.eqb r "max_tokens" then "length"
      else if String.eqb r "tool_use" || hasTools then "tool_calls"
      else "stop"
    | None => if hasTools then "tool_calls" else "stop"
    end in
  let prompt :=
    usageField anthropicResponse input_tokens +
    usageField anthropicResponse cache_read_input_tokens in
  let completion := usageField anthropicResponse output_tokens in
  {| cc_id := id; cc_created := created; cc_model := model;
     cc_content := JS.truthy (Some textContent);
     cc_tool_calls := if hasTools then Some toolCalls else None;
     cc_finish_reason := finishReason;
     cc_usage := {| prompt_tokens := prompt;
                    completion_tokens := completion;
                    total_tokens := prompt + completion |} |}.

End OpenAI.

(** ** The upstream dispatcher
       ([cloudcode/message-handler.ts], [cloudcode/streaming-handler.ts]) *)
Module Dispatcher.

Record AnthropicRequest := {
  model : string;
  payload : string          (* everything but the model, opaque *)
}.

(** What a run of the dispatcher does that can be observed from outside,
    in order: entries into [sendMessage]/[sendMessageStream] (with the
    model of the request and the [fallbackEnabled] argument), sleeps, the
    attempts (the [try] block entered with an account) and the events a
    streaming run yields. *)
Inductive Event :=
  | EvCall (model : string) (fallbackEnabled : bool)
  | EvSleep (ms : Z)
  | EvAttempt (email : string)
  | EvYield (e : SSE.AnthropicSSEEvent).

(** The account manager, the clock read by [Date.now()] and the world. *)
Record DState (World : Type) := {
  mgr : AccountManager.State;
  clock : Z;
  world : World
}.
Arguments mgr {World} _.
Arguments clock {World} _.
Arguments world {World} _.

Definition withMgr {World} (d : DState World) (m : AccountManager.State)
    : DState World :=
  {| mgr := m; clock := clock d; world := world d |}.

Definition withWorld {World} (d : DState World) (w : World) : DState World :=
  {| mgr := mgr d; clock := clock d; world := w |}.

(** [await sleep(ms)]: the clock moves on by [ms] (a timer never runs
    backwards). *)
Definition sleep {World} (ms : Z) (d : DState World) : DState World :=
  {| mgr := mgr d; clock := clock d + Z.max 0 ms; world := world d |}.

Inductive Result (R : Type) :=
  | Done (out : Outcome R)
  | OutOfFuel.
Arguments Done {R} out.
Arguments OutOfFuel {R}.

(** [s.includes(sub)] *)
Definition includes (sub s : string) : bool :=
  match String.index 0 sub s with Some _ => true | None => false end.

(** [number && ...]: null and 0 are falsy. *)
Definition truthyNumber (n : option Z) : bool :=
  match n with Some x => negb (x =? 0) | None => false end.

(** *** Choosing the account of an attempt (the head of the loop body) *)
Inductive Selected :=
  | SelAccount (account : Account)
  | SelThrow (err : Error)
  | SelFallback (fallbackModel : string).

Definition resourceExhausted {World Body Resp}
    {E : Environment World Body Resp} (model : string) (allWaitMs now : Z)
    : Error :=
  "RESOURCE_EXHAUSTED: Rate limited on " +:+ model +:+
  ". Quota will reset after " +:+ formatDuration allWaitMs +:+
  ". Next available: " +:+ toISOString (now + allWaitMs).

Definition selectAccount {K : Constants} {World Body Resp}
    {E : Environment World Body Resp}
    (model : string) (fallbackEnabled : bool) (d : DState World)
    : Selected * DState World * list Event :=
  (* Use sticky account selection for cache continuity *)
  let '((stickyAccount, waitMs), m) :=
    AccountManager.pickStickyAccount (Some model) (clock d) (mgr d) in
  let d := withMgr d m in
  (* Handle waiting for sticky account *)
  let '(account, d, ev1) :=
    match stickyAccount with
    | None =>
      if 0 <? waitMs then
        let d := sleep waitMs d in
        let '(_, m) := AccountManager.clearExpiredLimits (clock d) (mgr d) in
        let '(account, m) :=
          AccountManager.getCurrentStickyAccount (Some model) (clock d) m in
        (account, withMgr d m, [EvSleep waitMs])
      else (None, d, [])
    | Some a => (Some a, d, [])
    end in
  match account with
  | Some a => (SelAccount a, d, ev1)
  | None =>
    (* Handle all accounts rate-limited *)
    let afterWait :=
      if AccountManager.isAllRateLimited (Some model) (clock d) (mgr d) then
        let allWaitMs :=
          AccountManager.getMinWaitTimeMs (Some model) (clock d) (mgr d) in
        (* If wait time is too long (> 2 minutes), throw error immediately *)
        if MAX_WAIT_BEFORE_ERROR_MS <? allWaitMs then
          inl (resourceExhausted model allWaitMs (clock d))
        else
          (* Wait for reset *)
          let d := sleep allWaitMs d in
          let '(_, m) := AccountManager.clearExpiredLimits (clock d) (mgr d) in
          let '(account, m) := AccountManager.pickNext (Some model) (clock d) m in
          inr (account, withMgr d m, [EvSleep allWaitMs])
      else inr (None, d, []) in
    match afterWait with
    | inl err => (SelThrow err, d, ev1)
    | inr (Some a, d, ev2) => (SelAccount a, d, ev1 ++ ev2)
    | inr (None, d, ev2) =>
      (* Check if fallback is enabled and available *)
      match (if fallbackEnabled then JS.truthy (getFallbackModel model) else None) with
      | Some fallbackModel => (SelFallback fallbackModel, d, ev1 ++ ev2)
      | None => (SelThrow "No accounts available", d, ev1 ++ ev2)
      end
    end
  end.

(** *** Trying the endpoints with the chosen account (the [try] block) *)
Inductive LastError :=
  | NoError
  | PlainError (err : Error)
  | RateLimitInfo (errorText : string) (resetMs : option Z).

Inductive EndpointStep (R : Type) :=
  | NextEndpoint (lastError : LastError)
  | ReturnValue (r : R)
  | Rethrow (err : Error).
Arguments NextEndpoint {R} lastError.
Arguments ReturnValue {R} r.
Arguments Rethrow {R} err.

Inductive Attempt (R : Type) :=
  | AttReturn (r : R)
  | AttThrow (err : Error)
  | AttFallThrough.
Arguments AttReturn {R} r.
Arguments AttThrow {R} err.
Arguments AttFallThrough {R}.

(** [!lastRateLimit?.is429 ||
     (resetMs && (!lastRateLimit.resetMs || resetMs < lastRateLimit.resetMs))] *)
Definition replaces429 (lastError : LastError) (resetMs : option Z) : bool :=
  match lastError with
  | RateLimitInfo _ lastReset =>
    truthyNumber resetMs &&
    (negb (truthyNumber lastReset) ||
     match resetMs, lastReset with
     | Some r, Some l => r <? l
     | _, _ => false
     end)
  | _ => true
  end.

(** The inner [catch (endpointError)]. *)
Definition endpointCatch {R World Body Resp} {E : Environment World Body Resp}
    (err : Error) : EndpointStep R :=
  if isRateLimitError err then Rethrow err
  else NextEndpoint (PlainError err).

Definition apiError (status : Z) (errorText : string) : Error :=
  "API error " +:+ pretty status +:+ ": " +:+ errorText.

(** The handling of [!response.ok] for status 401 and 429, common to both
    handlers; [None] when the status is neither. *)
Definition authOrRateLimit {R World} (account : Account) (lastError : LastError)
    (status : Z) (errorText : string) (resetMs : option Z) (d : DState World)
    : option (EndpointStep R * DState World) :=
  if status =? 401 then
    (* Auth error - clear caches and retry with fresh token *)
    let m := AccountManager.clearTokenCache (Some (email account)) (mgr d) in
    let m := AccountManager.clearProjectCache (Some (email account)) m in
    Some (NextEndpoint lastError, withMgr d m)
  else if status =? 429 then
    (* Rate limited on this endpoint - keep minimum reset time *)
    Some (NextEndpoint
            (if replaces429 lastError resetMs
             then RateLimitInfo errorText resetMs else lastError), d)
  else None.

(** One endpoint of [sendMessage]. *)
Definition messageEndpoint {World Body Resp} {E : Environment World Body Resp}
    (request : AnthropicRequest) (account : Account) (tok project : string)
    (isThinking : bool) (endpoint : string) (lastError : LastError)
    (d : DState World) : EndpointStep Resp * DState World * list Event :=
  let url := if isThinking
             then endpoint +:+ "/v1internal:streamGenerateContent?alt=sse"
             else endpoint +:+ "/v1internal:generateContent" in
  let call := {| fc_url := url; fc_token := tok; fc_model := model request;
                 fc_accept := if isThinking then "text/event-stream"
                              else "application/json";
                 fc_request := payload request; fc_project := project |} in
  let '(reply, w) := fetch call (world d) in
  let d := withWorld d w in
  let success (body : option Body) : EndpointStep Resp :=
    if isThinking then
      match body with
      | None => endpointCatch "Response body is null"
      | Some b =>
        match parseThinkingSSEResponse b (model request) with
        | Returns r => ReturnValue r
        | Throws err => endpointCatch err
        end
      end
    else
      match convertJsonResponse body (model request) with
      | Returns r => ReturnValue r
      | Throws err => endpointCatch err
      end in
  match reply with
  | FetchThrows err => (endpointCatch err, d, [])
  | Reply true _ _ _ body => (success body, d, [])
  | Reply false status errorText resetMs body =>
    match authOrRateLimit account lastError status errorText resetMs d with
    | Some (step, d) => (step, d, [])
    | None =>
      if 400 <=? status then
        if 500 <=? status
        then (NextEndpoint (PlainError (apiError status errorText)),
              sleep 1000 d, [EvSleep 1000])
        else (NextEndpoint (PlainError (apiError status errorText)), d, [])
      else (success body, d, [])
    end
  end.

(** One endpoint of [sendMessageStream]. *)
Definition streamEndpoint {K : Constants} {Rt : SSE.Runtime}
    {World Body Resp} {E : Environment World Body Resp}
    (request : AnthropicRequest) (account : Account) (tok project : string)
    (endpoint : string) (lastError : LastError) (d : DState World)
    : EndpointStep unit * DState World * list Event :=
  let url := endpoint +:+ "/v1internal:streamGenerateContent?alt=sse" in
  let call := {| fc_url := url; fc_token := tok; fc_model := model request;
                 fc_accept := "text/event-stream";
                 fc_request := payload request; fc_project := project |} in
  let '(reply, w) := fetch call (world d) in
  let d := withWorld d w in
  match reply with
  | FetchThrows err => (endpointCatch err, d, [])
  | Reply true _ _ _ None => (endpointCatch "Response body is null", d, [])
  | Reply true _ _ _ (Some b) =>
    (* Stream the response - yield events as they arrive *)
    match readBody b with
    | (chunks, None) =>
      (ReturnValue tt, d,
       EvYield <$> SSE.streamSSEResponse chunks (model request))
    | (chunks, Some err) =>
      (endpointCatch err, d,
       EvYield <$> (SSE.streamLoop ("msg_" +:+ SSE.randomHex 16 0)
                      (model request) SSE.initialState "" chunks).2)
    end
  | Reply false status errorText resetMs _ =>
    match authOrRateLimit account lastError status errorText resetMs d with
    | Some (step, d) => (step, d, [])
    | None =>
      if 500 <=? status
      then (NextEndpoint (PlainError (apiError status errorText)),
            sleep 1000 d, [EvSleep 1000])
      else (NextEndpoint (PlainError (apiError status errorText)), d, [])
    end
  end.

(** [for (const endpoint of ANTIGRAVITY_ENDPOINT_FALLBACKS)], for either
    handler's endpoint body. *)
Fixpoint endpointLoop {R World}
    (body : string -> LastError -> DState World ->
            EndpointStep R * DState World * list Event)
    (endpoints : list string) (lastError : LastError) (d : DState World)
    : EndpointStep R * DState World * list Event :=
  match endpoints with
  | [] => (NextEndpoint lastError, d, [])
  | endpoint :: rest =>
    let '(step, d, ev) := body endpoint lastError d in
    match step with
    | NextEndpoint lastError =>
      let '(step, d, ev') := endpointLoop body rest lastError d in
      (step, d, ev ++ ev')
    | _ => (step, d, ev)
    end
  end.

(** The [try] block: token, project, the endpoints, and what is thrown
    when every endpoint failed. *)
Definition tryAccount {K : Constants} {R World Body Resp}
    {E : Environment World Body Resp}
    (body : string -> string -> string -> LastError -> DState World ->
            EndpointStep R * DState World * list Event)
    (request : AnthropicRequest) (account : Account) (d : DState World)
    : Attempt R * DState World * list Event :=
  let '(tokenOutcome, m, w) :=
    AccountManager.getTokenForAccount account (clock d) (mgr d) (world d) in
  let d := withWorld (withMgr d m) w in
  let '(att, d, ev) :=
    match tokenOutcome with
    | Throws err => (AttThrow err, d, [])
    | Returns tok =>
      let '(project, m, w) :=
        AccountManager.getProjectForAccount account tok (mgr d) (world d) in
      let d := withWorld (withMgr d m) w in
      let '(step, d, ev) :=
        endpointLoop (body tok project) ANTIGRAVITY_ENDPOINT_FALLBACKS NoError d in
      match step with
      | ReturnValue r => (AttReturn r, d, ev)
      | Rethrow err => (AttThrow err, d, ev)
      | NextEndpoint NoError => (AttFallThrough, d, ev)
      | NextEndpoint (RateLimitInfo errorText resetMs) =>
        (* all endpoints returned 429: mark account as rate-limited *)
        let m := AccountManager.markRateLimited (email account) resetMs
                   (Some (model request)) (clock d) (mgr d) in
        (AttThrow ("Rate limited: " +:+ errorText), withMgr d m, ev)
      | NextEndpoint (PlainError err) => (AttThrow err, d, ev)
      end
    end in
  (att, d, EvAttempt (email account) :: ev).

(** The outer [catch (error)]: [None] is [continue], [Some err] is
    [throw error]. *)
Definition attemptCatch {World Body Resp} {E : Environment World Body Resp}
    (request : AnthropicRequest) (err : Error) (d : DState World)
    : option Error * DState World * list Event :=
  if isRateLimitError err then (None, d, [])
  else if isAuthError err then (None, d, [])
  else if includes "API error 5" err || includes "500" err || includes "503" err
  then
    let '(_, m) := AccountManager.pickNext (Some (model request)) (clock d) (mgr d) in
    (None, withMgr d m, [])
  else if isNetworkError err then
    let d := sleep 1000 d in
    let '(_, m) := AccountManager.pickNext (Some (model request)) (clock d) (mgr d) in
    (None, withMgr d m, [EvSleep 1000])
  else (Some err, d, []).

(** The retry loop, [for (let attempt = 0; attempt < maxAttempts; attempt++)],
    with [attempts] iterations left.  [recurse] is the handler itself, as
    called for the fallback model. *)
Fixpoint retryLoop {K : Constants} {R World Body Resp}
    {E : Environment World Body Resp}
    (body : AnthropicRequest -> Account -> string -> string -> string ->
            LastError -> DState World ->
            EndpointStep R * DState World * list Event)
    (recurse : AnthropicRequest -> bool -> DState World ->
               Result R * DState World * list Event)
    (request : AnthropicRequest) (fallbackEnabled : bool)
    (attempts : nat) (d : DState World)
    : Result R * DState World * list Event :=
  match attempts with
  | O => (Done (Throws "Max retries exceeded"), d, [])
  | S attempts =>
    let '(sel, d, ev1) := selectAccount (model request) fallbackEnabled d in
    match sel with
    | SelThrow err => (Done (Throws err), d, ev1)
    | SelFallback fallbackModel =>
      (* Retry with fallback model; fallback disabled for the recursive call *)
      let fallbackRequest :=
        {| model := fallbackModel; payload := payload request |} in
      let '(r, d, ev2) := recurse fallbackRequest false d in
      (r, d, ev1 ++ ev2)
    | SelAccount account =>
      let '(att, d, ev2) := tryAccount (body request account) request account d in
      match att with
      | AttReturn r => (Done (Returns r), d, ev1 ++ ev2)
      | AttFallThrough =>
        let '(r, d, ev3) :=
          retryLoop body recurse request fallbackEnabled attempts d in
        (r, d, ev1 ++ ev2 ++ ev3)
      | AttThrow err =>
        let '(thrown, d, ev3) := attemptCatch request err d in
        match thrown with
        | Some err => (Done (Throws err), d, ev1 ++ ev2 ++ ev3)
        | None =>
          let '(r, d, ev4) :=
            retryLoop body recurse request fallbackEnabled attempts d in
          (r, d, ev1 ++ ev2 ++ ev3 ++ ev4)
        end
      end
    end
  end.

Definition maxAttempts {K : Constants} {World} (d : DState World) : nat :=
  Nat.max MAX_RETRIES (AccountManager.getAccountCount (mgr d) + 1).

(** [sendMessage(anthropicRequest, accountManager, fallbackEnabled)].  The
    function calls itself for the fallback model; [fuel] bounds the depth
    of these calls. *)
Fixpoint sendMessage {K : Constants} {World Body Resp}
    {E : Environment World Body Resp} (fuel : nat)
    (anthropicRequest : AnthropicRequest) (fallbackEnabled : bool)
    (d : DState World) : Result Resp * DState World * list Event :=
  match fuel with
  | O => (OutOfFuel, d, [])
  | S fuel =>
    let isThinking := isThinkingModel (model anthropicRequest) in
    let '(r, d, ev) :=
      retryLoop
        (fun request account tok project =>
           messageEndpoint request account tok project isThinking)
        (sendMessage fuel)
        anthropicRequest fallbackEnabled (maxAttempts d) d in
    (r, d, EvCall (model anthropicRequest) fallbackEnabled :: ev)
  end.

(** [sendMessageStream(anthropicRequest, accountManager, fallbackEnabled)]:
    the events it yields are the [EvYield] entries of the trace. *)
Fixpoint sendMessageStream {K : Constants} {Rt : SSE.Runtime}
    {World Body Resp} {E : Environment World Body Resp} (fuel : nat)
    (anthropicRequest : AnthropicRequest) (fallbackEnabled : bool)
    (d : DState World) : Result unit * DState World * list Event :=
  match fuel with
  | O => (OutOfFuel, d, [])
  | S fuel =>
    let '(r, d, ev) :=
      retryLoop
        (fun request account tok project =>
           streamEndpoint request account tok project)
        (sendMessageStream fuel)
        anthropicRequest fallbackEnabled (maxAttempts d) d in
    (r, d, EvCall (model anthropicRequest) fallbackEnabled :: ev)
  end.

End Dispatcher.

(** ** Account storage ([account-manager/storage.ts]) *)
Module Storage.

(** JSON values.  An object is a finite map from keys to values: a key
    that is absent reads as [undefined], and [JSON.stringify] leaves out the
    keys whose value is [undefined]. *)
#[warnings="-register-all"]
Inductive JSON :=
  | JNull
  | JBool (b : bool)
  | JNum (z : Z)
  | JStr (s : string)
  | JArr (l : list JSON)
  | JObj (o : gmap string JSON).

(** A file holds JSON text, or something [JSON.parse] rejects; [stringify]
    followed by [parse] gives back the value written. *)
Inductive FileContent :=
  | Parsed (j : JSON)
  | Unparsable.

(** [v ?? d]: [null] and [undefined] give [d]. *)
Definition nullish (v : option JSON) (d : JSON) : JSON :=
  match v with
  | None | Some JNull => d
  | Some x => x
  end.

(** A property of an object literal: left out when its value is
    [undefined]. *)
Definition setField (k : string) (v : option JSON)
    (o : gmap string JSON) : gmap string JSON :=
  match v with
  | Some x => <[ k := x ]> o
  | None => o
  end.

Record LoadAccountsResult := {
  accounts : list (gmap string JSON);
  settings : JSON;
  activeIndex : Z
}.

(** What the [catch] of [loadAccounts] returns. *)
Definition emptyResult : LoadAccountsResult :=
  {| accounts := []; settings := JObj ∅; activeIndex := 0 |}.

(** The body of the [map] in [loadAccounts]. *)
Definition loadAccount (acc : gmap string JSON) : gmap string JSON :=
  <[ "modelRateLimits" := nullish (acc !! "modelRateLimits") (JObj ∅) ]>
  (<[ "invalidReason" := JNull ]>
  (<[ "isInvalid" := JBool false ]>
  (<[ "lastUsed" := nullish (acc !! "lastUsed") JNull ]> acc))).

(** The values of a list under their indices, as an array or a string
    holds them. *)
Definition indexed (l : list JSON) : gmap string JSON :=
  list_to_map (imap (fun (i : nat) x => (pretty i, x)) l).

(** What [...acc] copies from an element of [config.accounts]: the
    properties of an object, the elements of an array and the characters
    of a string under their indices, nothing from a number or a boolean.
    [None] for [null], which spreads to nothing but on which
    [acc.lastUsed] throws. *)
Definition spread (acc : JSON) : option (gmap string JSON) :=
  match acc with
  | JNull => None
  | JObj o => Some o
  | JArr l => Some (indexed l)
  | JStr s =>
    Some (indexed ((fun c => JStr (String c "")) <$>
                   String.list_ascii_of_string s))
  | JBool _ | JNum _ => Some ∅
  end.

(** The elements of [config.accounts] as the [map] reads them, [None] when
    it throws on one of them. *)
Fixpoint asObjects (l : list JSON) : option (list (gmap string JSON)) :=
  match l with
  | [] => Some []
  | acc :: rest =>
    match spread acc with
    | Some o => (fun os => o :: os) <$> asObjects rest
    | None => None
    end
  end.

Definition loadAccounts (configPath : string)
    (disk : gmap string FileContent) : LoadAccountsResult :=
  match disk !! configPath with
  | Some (Parsed (JObj config)) =>
    let loaded :=
      match nullish (config !! "accounts") (JArr []) with
      | JArr l => asObjects l
      | _ => None
      end in
    let index :=
      match nullish (config !! "activeIndex") (JNum 0) with
      | JNum z => Some z
      | _ => None
      end in
    match loaded, index with
    | Some accs, Some activeIndex =>
      let accs := loadAccount <$> accs in
      {| accounts := accs;
         settings := nullish (config !! "settings") (JObj ∅);
         (* Clamp activeIndex to valid range *)
         activeIndex := if Z.of_nat (length accs) <=? activeIndex
                        then 0 else activeIndex |}
    | _, _ => emptyResult
    end
  | _ => emptyResult
  end.

Definition hasSource (acc : gmap string JSON) (src : string) : bool :=
  match acc !! "source" with
  | Some (JStr s) => String.eqb s src
  | _ => false
  end.

(** The body of the [map] in [saveAccounts]. *)
Definition saveAccount (acc : gmap string JSON) : gmap string JSON :=
  setField "email" (acc !! "email")
  (setField "source" (acc !! "source")
  (setField "dbPath" (Some (nullish (acc !! "dbPath") JNull))
  (setField "refreshToken"
     (if hasSource acc "oauth" then acc !! "refreshToken" else None)
  (setField "apiKey"
     (if hasSource acc "manual" then acc !! "apiKey" else None)
  (setField "projectId" (acc !! "projectId")
  (setField "addedAt" (acc !! "addedAt")
  (setField "isInvalid" (Some (nullish (acc !! "isInvalid") (JBool false)))
  (setField "invalidReason" (Some (nullish (acc !! "invalidReason") JNull))
  (setField "modelRateLimits"
     (Some (nullish (acc !! "modelRateLimits") (JObj ∅)))
  (setField "lastUsed" (acc !! "lastUsed") ∅)))))))))).

(** The config object that [saveAccounts] writes. *)
Definition savedConfig (accs : list (gmap string JSON)) (sett : JSON)
    (index : Z) : JSON :=
  JObj (<[ "accounts" := JArr ((fun acc => JObj (saveAccount acc)) <$> accs) ]>
       (<[ "settings" := sett ]>
       (<[ "activeIndex" := JNum index ]> ∅))).

(** [saveAccounts]; the write succeeds. *)
Definition saveAccounts (configPath : string) (accs : list (gmap string JSON))
    (sett : JSON) (index : Z) (disk : gmap string FileContent)
    : gmap string FileContent :=
  <[ configPath := Parsed (savedConfig accs sett index) ]> disk.

End Storage.

(** ** Sample data

    Concrete constants and accounts on which the definitions are run.  The
    values of the constants are samples; no theorem depends on them. *)
Module Sample.

Definition constants : Constants := {|
  MAX_WAIT_BEFORE_ERROR_MS := 120000;
  DEFAULT_COOLDOWN_MS := 60000;
  MAX_RETRIES := 5;
  MIN_SIGNATURE_LENGTH := 50;
  TOKEN_REFRESH_INTERVAL_MS := 300000;
  ANTIGRAVITY_DB_PATH := "state.vscdb";
  ANTIGRAVITY_ENDPOINT_FALLBACKS := ["https://daily.example"; "https://prod.example"]
|}.

Definition account (e : string) (invalid : bool)
    (limits : gmap string ModelRateLimit) : Account :=
  {| email := e; source := "oauth"; dbPath := None;
     refreshToken := Some "refresh-token"; apiKey := None; projectId := None;
     isInvalid := invalid; invalidReason := None; invalidAt := None;
     modelRateLimits := limits; lastUsed := None |}.

Definition limitedUntil (m : string) (t : Z) : gmap string ModelRateLimit :=
  {[ m := {| isRateLimited := true; resetTime := Some t |} ]}.

(** Two accounts at time 0: the first is rate-limited for model ["m"] for
    the next 1000 seconds, the second is invalid. *)
Definition exhaustedPool : list Account :=
  [ account "a@example.com" false (limitedUntil "m" 1000000);
    account "b@example.com" true ∅ ].

(** Two valid accounts at time 0, both rate-limited for ["m"]: the sticky
    one for 100 seconds, the other for 10 seconds. *)
Definition waitingPool : list Account :=
  [ account "a@example.com" false (limitedUntil "m" 100000);
    account "b@example.com" false (limitedUntil "m" 10000) ].

(** A pool with nobody left: its only account is invalid. *)
Definition invalidPool : list Account :=
  [ account "a@example.com" true ∅ ].

Definition manager (pool : list Account) : AccountManager.State :=
  {| AccountManager.accounts := pool;
     AccountManager.currentIndex := 0;
     AccountManager.settings := {| cooldownDurationMs := None |};
     AccountManager.tokenCache := ∅;
     AccountManager.projectCache := ∅;
     AccountManager.saves := 0 |}.

(** Sample payloads, and a stand-in for [JSON.parse] that knows them by
    name. *)
Definition signature60 : string :=
  "0123456789012345678901234567890123456789012345678901234567890".

Definition payloadOf (usage : option SSE.GoogleUsageMetadata)
    (ps : option (list SSE.GooglePart)) (finish : option string)
    : SSE.GoogleResponse :=
  {| SSE.response := None;
     SSE.top := {| SSE.usageMetadata := usage;
                   SSE.candidates :=
                     Some [ {| SSE.parts :=
                                 match ps with
                                 | Some l => Some (Some <$> l)
                                 | None => None
                                 end;
                               SSE.finishReason := finish |} ] |} |}.

Definition thoughtPart : SSE.GooglePart :=
  {| SSE.thought := Some true; SSE.text := SSE.Value "Let me see";
     SSE.thoughtSignature := Some signature60;
     SSE.functionCall := SSE.Absent |}.

Definition textPart (t : string) : SSE.GooglePart :=
  {| SSE.thought := None; SSE.text := SSE.Value t;
     SSE.thoughtSignature := None; SSE.functionCall := SSE.Absent |}.

Definition toolPart : SSE.GooglePart :=
  {| SSE.thought := None; SSE.text := SSE.Absent;
     SSE.thoughtSignature := None;
     SSE.functionCall :=
       SSE.Value {| SSE.fc_id := None; SSE.fc_name := "lookup";
                    SSE.fc_args := None |} |}.

(** [{ "functionCall": null }] *)
Definition nullCallPart : SSE.GooglePart :=
  {| SSE.thought := None; SSE.text := SSE.Absent;
     SSE.thoughtSignature := None; SSE.functionCall := SSE.Null |}.

Definition usage (p c o : Z) : SSE.GoogleUsageMetadata :=
  {| SSE.promptTokenCount := Some p; SSE.candidatesTokenCount := Some o;
     SSE.cachedContentTokenCount := Some c |}.

Definition parse (s : string) : option SSE.GoogleResponse :=
  if String.eqb s "think" then
    Some (payloadOf (Some (usage 100 30 0)) (Some [thoughtPart]) None)
  else if String.eqb s "text" then
    Some (payloadOf None (Some [textPart "Hello"; textPart " world"]) None)
  else if String.eqb s "tool" then
    Some (payloadOf None (Some [toolPart]) None)
  else if String.eqb s "usage" then
    Some (payloadOf (Some (usage 100 30 0)) None None)
  else if String.eqb s "done" then
    Some (payloadOf (Some (usage 100 30 7)) (Some [textPart ""]) (Some "MAX_TOKENS"))
  else if String.eqb s "nullcall" then
    Some (payloadOf None (Some [textPart "hi"; nullCallPart]) (Some "STOP"))
  else None.

(** A line of an SSE body: the text and its newline. *)
Definition line (s : string) : string := s +:+ String SSE.newline "".

(** [String.prototype.trim] on UTF-8 text: the white space and the line
    terminators of ECMAScript, each by the bytes of its encoding (U+0009 to
    U+000D, U+0020, U+00A0, U+1680, U+2000 to U+200A, U+2028, U+2029,
    U+202F, U+205F, U+3000, U+FEFF). *)
Definition whiteSpace : list (list nat) :=
  [ [9]; [10]; [11]; [12]; [13]; [32]; [194; 160]; [225; 154; 128];
    [226; 128; 128]; [226; 128; 129]; [226; 128; 130]; [226; 128; 131];
    [226; 128; 132]; [226; 128; 133]; [226; 128; 134]; [226; 128; 135];
    [226; 128; 136]; [226; 128; 137]; [226; 128; 138];
    [226; 128; 168]; [226; 128; 169]; [226; 128; 175]; [226; 129; 159];
    [227; 128; 128]; [239; 187; 191] ]%nat.

Fixpoint dropPrefix (p s : list nat) : option (list nat) :=
  match p, s with
  | [], _ => Some s
  | a :: p, b :: s => if (a =? b)%nat then dropPrefix p s else None
  | _ :: _, [] => None
  end.

(** The text after one leading white space character, if it starts with
    one. *)
Fixpoint dropWhiteSpace (ws : list (list nat)) (s : list nat)
    : option (list nat) :=
  match ws with
  | [] => None
  | p :: ws =>
    match dropPrefix p s with
    | Some rest => Some rest
    | None => dropWhiteSpace ws s
    end
  end.

Fixpoint trimStartBytes (ws : list (list nat)) (fuel : nat) (s : list nat)
    : list nat :=
  match fuel with
  | O => s
  | S fuel =>
    match dropWhiteSpace ws s with
    | Some rest => trimStartBytes ws fuel rest
    | None => s
    end
  end.

Definition bytesOf (s : string) : list nat :=
  nat_of_ascii <$> String.list_ascii_of_string s.

Definition ofBytes (l : list nat) : string :=
  String.string_of_list_ascii (ascii_of_nat <$> l).

Definition trim (s : string) : string :=
  let front := trimStartBytes whiteSpace (String.length s) (bytesOf s) in
  let back := trimStartBytes (map (@rev nat) whiteSpace) (length front)
                (rev front) in
  ofBytes (rev back).

Definition runtime : SSE.Runtime := {|
  SSE.JSON_parse := parse;
  SSE.trim := trim;
  SSE.randomHex := fun n k => pretty (Z.of_nat k)
|}.

(** A quiet world: the token endpoint refuses every refresh token except
    ["refresh-token"], the upstream answers every request with an empty
    200 reply. *)
Definition environment : Environment unit (list string) string := {|
  isNetworkError := fun err => Dispatcher.includes "ECONNREFUSED" err;
  isRateLimitError := fun err => Dispatcher.includes "Rate limited" err;
  isAuthError := fun err => Dispatcher.includes "AUTH_INVALID" err;
  formatDuration := fun ms => pretty ms +:+ "ms";
  getFallbackModel := fun m =>
    if String.eqb m "claude-opus" then Some "gemini-pro" else None;
  isThinkingModel := fun _ => false;
  toISOString := fun ms => pretty ms;
  refreshAccessToken := fun rt w =>
    (if String.eqb rt "refresh-token"
     then Returns {| accessToken := "access-token"; expiresIn := 3600 |}
     else Throws "Token refresh failed: invalid_grant", w);
  getAuthStatus := fun _ w => (Returns "database-key", w);
  discoverProject := fun _ w => ("project", w);
  fetch := fun _ w => (Reply true 200 "" None (Some []), w);
  parseThinkingSSEResponse := fun _ _ => Returns "response";
  convertJsonResponse := fun _ _ => Returns "response";
  readBody := fun b => (b, None)
|}.

Definition dispatcherState (pool : list Account) : Dispatcher.DState unit :=
  {| Dispatcher.mgr := manager pool; Dispatcher.clock := 0;
     Dispatcher.world := tt |}.

Definition request (m : string) : Dispatcher.AnthropicRequest :=
  {| Dispatcher.model := m; Dispatcher.payload := "{}" |}.

(** An OAuth account whose refresh token the token endpoint refuses. *)
Definition revokedAccount : Account :=
  {| email := "a@example.com"; source := "oauth"; dbPath := None;
     refreshToken := Some "revoked"; apiKey := None; projectId := None;
     isInvalid := false; invalidReason := None; invalidAt := None;
     modelRateLimits := ∅; lastUsed := None |}.

(** An Anthropic response with a text block, a tool call and usage. *)
Definition sampleResponse : OpenAI.AnthropicResponse :=
  {| OpenAI.content :=
       Some [OpenAI.BText (Some "Hello"); OpenAI.BToolUse None "lookup" None];
     OpenAI.stop_reason := Some "end_turn";
     OpenAI.usage :=
       Some {| OpenAI.input_tokens := Some 70; OpenAI.output_tokens := Some 7;
               OpenAI.cache_read_input_tokens := Some 30 |} |}.

(** A config file with a field of its own at the top level ([theme]) and
    one in its account ([nickname]). *)
Definition configFile : Storage.JSON :=
  Storage.JObj
    (<[ "accounts" :=
          Storage.JArr
            [ Storage.JObj
                (<[ "email" := Storage.JStr "a@example.com" ]>
                (<[ "source" := Storage.JStr "oauth" ]>
                (<[ "refreshToken" := Storage.JStr "refresh-token" ]>
                (<[ "nickname" := Storage.JStr "work" ]> ∅)))) ] ]>
    (<[ "settings" := Storage.JObj ∅ ]>
    (<[ "activeIndex" := Storage.JNum 0 ]>
    (<[ "theme" := Storage.JStr "dark" ]> ∅)))).

End Sample.

(** ** Vocabulary of the specification

    Predicates that phrase the specification's sentences, to be compared
    with what the code computes. *)
Module Spec.

Import RateLimits.

(** The specification's reading of "the account cannot serve model [m] at
    time [now]": it is invalid, or it has a rate limit for [m] that is set and
    whose reset time lies in the future. *)
Definition unavailableFor (m : string) (now : Z) (acc : Account) : Prop :=
  isInvalid acc = true \/
  exists limit t,
    modelRateLimits acc !! m = Some limit /\
    isRateLimited limit = true /\
    resetTime limit = Some t /\ now < t.

Definition unavailableForb (m : string) (now : Z) (acc : Account) : bool :=
  if isInvalid acc then true
  else match modelRateLimits acc !! m with
       | Some limit => limitActive now limit
       | None => false
       end.

(** *** The shape of a translated stream

    The grammar of the Anthropic event sequence: a [message_start], then
    content blocks numbered from 0 with consecutive indices, each one a
    [content_block_start], its deltas and a [content_block_stop], all on
    the block's index, then [message_delta] and [message_stop]. *)
Definition isMessageStart (e : SSE.AnthropicSSEEvent) : Prop :=
  match e with SSE.MessageStart _ _ _ _ _ _ => True | _ => False end.

Definition isMessageDelta (e : SSE.AnthropicSSEEvent) : Prop :=
  match e with SSE.MessageDelta _ _ _ _ => True | _ => False end.

Definition blockTypeOf (b : SSE.ContentBlock) : SSE.BlockType :=
  match b with
  | SSE.ThinkingBlock _ => SSE.Thinking
  | SSE.TextBlock _ => SSE.Text
  | SSE.ToolUseBlock _ _ _ _ => SSE.ToolUse
  end.

(** The deltas of a block that is still open: thinking deltas in a
    thinking block, text deltas in a text block, the one JSON delta of a
    tool-use block. *)
Definition openDeltas (ty : SSE.BlockType) (ds : list SSE.Delta) : Prop :=
  match ty with
  | SSE.Thinking => exists ts, ds = SSE.ThinkingDelta <$> ts
  | SSE.Text => exists ts, ds = SSE.TextDelta <$> ts
  | SSE.ToolUse => exists j, ds = [SSE.InputJsonDelta j]
  end.

(** The deltas of a complete block: those of an open block, followed in a
    thinking block by at most one signature delta. *)
Definition blockDeltas (ty : SSE.BlockType) (ds : list SSE.Delta) : Prop :=
  exists ds0 sig,
    ds = ds0 ++ sig /\ openDeltas ty ds0 /\
    (sig = [] \/ (ty = SSE.Thinking /\ exists s, sig = [SSE.SignatureDelta s])).

Definition isBlock (i : nat) (evs : list SSE.AnthropicSSEEvent) : Prop :=
  exists b ds,
    evs = SSE.ContentBlockStart i b ::
          (SSE.ContentBlockDelta i <$> ds) ++ [SSE.ContentBlockStop i] /\
    blockDeltas (blockTypeOf b) ds.

(** [blocks i j evs]: [evs] is the blocks numbered [i], [i+1], ..., [j-1],
    one after the other. *)
Inductive blocks : nat -> nat -> list SSE.AnthropicSSEEvent -> Prop :=
  | blocks_nil i : blocks i i []
  | blocks_cons i j b rest :
      isBlock i b -> blocks (S i) j rest -> blocks i j (b ++ rest).

Definition WellFormed (evs : list SSE.AnthropicSSEEvent) : Prop :=
  exists ms body md n,
    evs = ms :: body ++ [md; SSE.MessageStop] /\
    isMessageStart ms /\ isMessageDelta md /\ blocks 0 n body.

(** *** The payloads of a stream

    The complete lines of a chunk sequence, in order (what follows the last
    newline is never processed), and the payloads they carry. *)
Fixpoint chunkLines (buffer : string) (chunks : list string) : list string :=
  match chunks with
  | [] => []
  | chunk :: rest =>
    let lines := SSE.splitNewline (buffer +:+ chunk) in
    removelast lines ++ chunkLines (List.last lines "") rest
  end.

Definition payloads {R : SSE.Runtime} (chunks : list string)
    : list SSE.GoogleResponse :=
  omap SSE.dataOfLine (chunkLines "" chunks).

Definition noParts (data : SSE.GoogleResponse) : Prop := SSE.partsOf data = [].

(** The translator run on payloads rather than on lines. *)
Fixpoint processPayloads {K : Constants} {R : SSE.Runtime}
    (messageId originalModel : string) (st : SSE.State)
    (ds : list SSE.GoogleResponse) : SSE.State * list SSE.AnthropicSSEEvent :=
  match ds with
  | [] => (st, [])
  | data :: rest =>
    let '(st, evs) := SSE.processData messageId originalModel st data in
    let '(st, evs') := processPayloads messageId originalModel st rest in
    (st, evs ++ evs')
  end.

(** The text a client assembles for block [i]: its text deltas, in order. *)
Fixpoint textOfBlock (i : nat) (evs : list SSE.AnthropicSSEEvent) : string :=
  match evs with
  | [] => ""
  | SSE.ContentBlockDelta j (SSE.TextDelta t) :: rest =>
    if (i =? j)%nat then t +:+ textOfBlock i rest else textOfBlock i rest
  | _ :: rest => textOfBlock i rest
  end.

(** The indices of the blocks opened, and of the blocks closed, in the
    order of the events. *)
Fixpoint startIndices (evs : list SSE.AnthropicSSEEvent) : list nat :=
  match evs with
  | [] => []
  | SSE.ContentBlockStart i _ :: rest => i :: startIndices rest
  | _ :: rest => startIndices rest
  end.

Fixpoint stopIndices (evs : list SSE.AnthropicSSEEvent) : list nat :=
  match evs with
  | [] => []
  | SSE.ContentBlockStop i :: rest => i :: stopIndices rest
  | _ :: rest => stopIndices rest
  end.

(** Every signature delta is the last event of its block: the next event
    is the stop with the same index. *)
Fixpoint signaturesBeforeStop (evs : list SSE.AnthropicSSEEvent) : bool :=
  match evs with
  | [] => true
  | SSE.ContentBlockDelta i (SSE.SignatureDelta _) :: rest =>
    match rest with
    | SSE.ContentBlockStop j :: _ => (i =? j)%nat && signaturesBeforeStop rest
    | _ => false
    end
  | _ :: rest => signaturesBeforeStop rest
  end.

Definition isMessageStartb (e : SSE.AnthropicSSEEvent) : bool :=
  match e with SSE.MessageStart _ _ _ _ _ _ => true | _ => false end.

(** *** The usage observed when [message_start] is minted

    The payloads up to and including the first one with parts (all of them
    when none has parts), and the latest value of a usage counter among
    them, 0 when none carries it. *)
Fixpoint uptoFirstParts (ds : list SSE.GoogleResponse)
    : list SSE.GoogleResponse :=
  match ds with
  | [] => []
  | d :: rest =>
    match SSE.partsOf d with
    | [] => d :: uptoFirstParts rest
    | _ => [d]
    end
  end.

Definition latestFrom (f : SSE.GoogleUsageMetadata -> option Z) (start : Z)
    (ds : list SSE.GoogleResponse) : Z :=
  fold_left
    (fun acc d =>
       match SSE.usageMetadata (SSE.innerResponse d) with
       | Some u => SSE.orElse (f u) acc
       | None => acc
       end)
    ds start.

(** *** The translator's invariant

    What has been yielded so far, in terms of the running block index [i]
    and the current block type [ty]. *)
Definition OpenBlock (i : nat) (ty : option SSE.BlockType)
    (evs : list SSE.AnthropicSSEEvent) : Prop :=
  match ty with
  | None => evs = [] /\ i = 0%nat
  | Some t =>
    exists b ds,
      evs = SSE.ContentBlockStart i b :: (SSE.ContentBlockDelta i <$> ds) /\
      blockTypeOf b = t /\ openDeltas t ds
  end.

Definition Started (i : nat) (ty : option SSE.BlockType)
    (evs : list SSE.AnthropicSSEEvent) : Prop :=
  exists ms body open,
    evs = ms :: body ++ open /\
    isMessageStart ms /\ blocks 0 i body /\ OpenBlock i ty open.

Definition Closed (i : nat) (evs : list SSE.AnthropicSSEEvent) : Prop :=
  exists ms body,
    evs = ms :: body /\ isMessageStart ms /\ blocks 0 i body.

Definition StreamInvariant (st : SSE.State)
    (evs : list SSE.AnthropicSSEEvent) : Prop :=
  if SSE.hasEmittedStart st
  then Started (SSE.blockIndex st) (SSE.currentBlockType st) evs
  else evs = [] /\ SSE.currentBlockType st = None /\ SSE.blockIndex st = 0%nat.

(** *** The dispatcher's trace *)

(** The entries into the handler recorded in a trace, in order. *)
Fixpoint calls (evs : list Dispatcher.Event) : list (string * bool) :=
  match evs with
  | [] => []
  | Dispatcher.EvCall m fe :: rest => (m, fe) :: calls rest
  | _ :: rest => calls rest
  end.

(** An endpoint body that records no entry into the handler. *)
Definition quietBody {R World}
    (body : string -> Dispatcher.LastError -> Dispatcher.DState World ->
            Dispatcher.EndpointStep R * Dispatcher.DState World *
            list Dispatcher.Event) : Prop :=
  forall endpoint lastError d, calls (body endpoint lastError d).2 = [].

(** The shape of the entries of one client request: the request itself,
    then at most one more entry, for the fallback model and with fallback
    disabled. *)
Definition fallbackAtMostOnce {World Body Resp}
    {E : Environment World Body Resp}
    (request : Dispatcher.AnthropicRequest)
    (fallbackEnabled : bool) (entries : list (string * bool)) : Prop :=
  entries = [(Dispatcher.model request, fallbackEnabled)] \/
  (fallbackEnabled = true /\
   exists fm,
     JS.truthy (getFallbackModel (Dispatcher.model request)) = Some fm /\
     entries = [(Dispatcher.model request, true); (fm, false)]).




(** The token cache has no fresh entry for the account. *)
Definition cacheMiss {K : Constants}
    (tokenCache : gmap string Credentials.TokenCacheEntry)
    (account : Account) (now : Z) : Prop :=
  match tokenCache !! email account with
  | Some cached =>
    TOKEN_REFRESH_INTERVAL_MS <= now - Credentials.extractedAt cached
  | None => True
  end.

(** *** Reading a JSON value *)
Definition fieldOf (k : string) (j : Storage.JSON) : option Storage.JSON :=
  match j with Storage.JObj o => o !! k | _ => None end.

Definition elementOf (i : nat) (j : Storage.JSON) : option Storage.JSON :=
  match j with Storage.JArr l => l !! i | _ => None end.

(** Field [k] of the first account of a config. *)
Definition firstAccountField (k : string) (file : Storage.JSON)
    : option Storage.JSON :=
  match fieldOf "accounts" file with
  | Some arr =>
    match elementOf 0 arr with
    | Some acc => fieldOf k acc
    | None => None
    end
  | None => None
  end.

(** The content of the file after the config in it has been loaded and
    saved again. *)
Definition loadThenSave (configPath : string) (file : Storage.JSON)
    : option Storage.FileContent :=
  let disk : gmap string Storage.FileContent := {[ configPath := Storage.Parsed file ]} in
  let r := Storage.loadAccounts configPath disk in
  Storage.saveAccounts configPath (Storage.accounts r) (Storage.settings r)
    (Storage.activeIndex r) disk !! configPath.

(** *** What a save followed by a load keeps of an account

    Field by field: the value of key [k] in the account as reloaded, from
    the account [acc] that was saved. *)
Definition persistedField (acc : gmap string Storage.JSON) (k : string)
    : option Storage.JSON :=
  if String.eqb k "modelRateLimits" then
    Some (Storage.nullish (acc !! "modelRateLimits") (Storage.JObj ∅))
  else if String.eqb k "invalidReason" then Some Storage.JNull
  else if String.eqb k "isInvalid" then Some (Storage.JBool false)
  else if String.eqb k "lastUsed" then
    Some (Storage.nullish (acc !! "lastUsed") Storage.JNull)
  else if String.eqb k "dbPath" then
    Some (Storage.nullish (acc !! "dbPath") Storage.JNull)
  else if String.eqb k "refreshToken" then
    if Storage.hasSource acc "oauth" then acc !! "refreshToken" else None
  else if String.eqb k "apiKey" then
    if Storage.hasSource acc "manual" then acc !! "apiKey" else None
  else if String.eqb k "email" || String.eqb k "source" ||
          String.eqb k "projectId" || String.eqb k "addedAt" then acc !! k
  else None.

End Spec.
Import Spec.


(** ** Observations on the pool

    Readings of the account pool in which the behaviour of the rate-limit
    and selection functions is stated. *)
Module Pool.

Import RateLimits.

(** Line 120 of [markRateLimited]:
    [resetMs ?? settings.cooldownDurationMs ?? DEFAULT_COOLDOWN_MS]. *)
Definition cooldownOf {K : Constants} (resetMs : option Z)
    (settings : AccountSettings) : Z :=
  match resetMs with
  | Some r => r
  | None => match cooldownDurationMs settings with
            | Some c => c
            | None => DEFAULT_COOLDOWN_MS
            end
  end.

(** The rate limit that account number [j] of the pool holds for model
    [m]. *)
Definition limitOf (accounts : list Account) (j : nat) (m : string)
    : option ModelRateLimit :=
  match accounts !! j with
  | Some a => modelRateLimits a !! m
  | None => None
  end.

(** Everything of an account but its rate limits. *)
Definition sameButLimits (a b : Account) : Prop :=
  set_modelRateLimits a (modelRateLimits b) = b.

(** Everything of an account but its invalid flag, reason and time. *)
Definition sameButInvalid (a b : Account) : Prop :=
  set_invalid a (isInvalid b) (invalidReason b) (invalidAt b) = b.

End Pool.

(** ** Observations on a run of the dispatcher *)
Module Trace.

Import Dispatcher.

(** The emails of the pool, in order. *)
Definition emailsOf {World} (d : DState World) : list string :=
  email <$> AccountManager.accounts (mgr d).

(** The number of attempts (entries into the [try] block) in a trace. *)
Fixpoint attempts (evs : list Event) : nat :=
  match evs with
  | [] => 0
  | EvAttempt _ :: rest => S (attempts rest)
  | _ :: rest => attempts rest
  end.

(** A sleep that is the one-second pause, or no longer than the wait
    threshold. *)
Definition sleepWithin {K : Constants} (ev : Event) : Prop :=
  match ev with
  | EvSleep ms => ms <= MAX_WAIT_BEFORE_ERROR_MS \/ ms = 1000
  | _ => True
  end.

(** What every step of a run keeps: the emails of the pool, and sleeps
    within bounds; [n] is the number of attempts the step may make. *)
Definition bounded {K : Constants} {World} (n : nat)
    (d d' : DState World) (ev : list Event) : Prop :=
  emailsOf d' = emailsOf d /\
  Forall sleepWithin ev /\
  (attempts ev <= n)%nat.

End Trace.

(** An endpoint body that keeps the pool, sleeps within bounds and makes no
    attempt of its own. *)
Module Steady.

Import Dispatcher Trace.

Definition steadyBody {K : Constants} {R World}
    (body : string -> LastError -> DState World ->
            EndpointStep R * DState World * list Event) : Prop :=
  forall endpoint lastError d,
    bounded 0 d (body endpoint lastError d).1.2 (body endpoint lastError d).2.

End Steady.

(** ** Observations on a translated stream *)
Module Stream.

Import SSE.

(** The text of a body: its chunks, one after the other. *)
Definition bodyText (chunks : list string) : string :=
  foldr String.append "" chunks.

(** The elements of the [parts] arrays of the payloads, in order. *)
Definition rawParts (ds : list GoogleResponse) : list (option GooglePart) :=
  concat ((partsOf : GoogleResponse -> list (option GooglePart)) <$> ds).

(** A part on which the loop body throws: one that is not an object, or
    one without a [text] key whose [functionCall] key holds [null]. *)
Definition throws (p : option GooglePart) : bool :=
  match p with
  | None => true
  | Some part =>
    match text part, functionCall part with
    | Absent, Null => true
    | _, _ => false
    end
  end.

(** The parts of one payload that the loop enters: the objects among them,
    up to and including the first on which the body throws. *)
Fixpoint reached (ps : list (option GooglePart)) : list GooglePart :=
  match ps with
  | [] => []
  | None :: _ => []
  | Some part :: rest =>
    if throws (Some part) then [part] else part :: reached rest
  end.

(** The parts that the translator enters, over all payloads, in order. *)
Definition allParts (ds : list GoogleResponse) : list GooglePart :=
  concat ((fun d => reached (partsOf d)) <$> ds).

(** The content that a part contributes, as the delta that carries it: the
    thinking of a thought part that has a [text] key (the empty string when
    the key holds [null]); the text of a part that is not a thought and
    whose text is not blank; the arguments of the function call of a part
    that has no [text] key.  Nothing otherwise: a text that is [null],
    empty or blank is skipped together with whatever else the part holds,
    and so is a function call that is [null]. *)
Definition deltaOf {R : Runtime} (part : GooglePart) : option Delta :=
  match isThought part, text part with
  | true, Value txt => Some (ThinkingDelta txt)
  | true, Null => Some (ThinkingDelta "")
  | false, Null => None
  | false, Value txt =>
    if isEmpty txt || (String.length (trim txt) =? 0)%nat then None
    else Some (TextDelta txt)
  | _, Absent =>
    match functionCall part with
    | Value fc =>
      Some (InputJsonDelta
              (match fc_args fc with Some a => a | None => "{}" end))
    | _ => None
    end
  end.

(** The deltas of an event sequence other than signature deltas, in
    order. *)
Fixpoint contentDeltas (evs : list AnthropicSSEEvent) : list Delta :=
  match evs with
  | [] => []
  | ContentBlockDelta _ (SignatureDelta _) :: rest => contentDeltas rest
  | ContentBlockDelta _ d :: rest => d :: contentDeltas rest
  | _ :: rest => contentDeltas rest
  end.

(** The thought signature an event carries: that of a signature delta, or
    the one stored in a tool-use block. *)
Definition signatureOfEvent (e : AnthropicSSEEvent) : option string :=
  match e with
  | ContentBlockDelta _ (SignatureDelta s) => Some s
  | ContentBlockStart _ (ToolUseBlock _ _ _ (Some s)) => Some s
  | _ => None
  end.

(** An event whose signature, if it carries one, has the minimum length. *)
Definition signatureOk {K : Constants} (e : AnthropicSSEEvent) : Prop :=
  forall s, signatureOfEvent e = Some s ->
            (MIN_SIGNATURE_LENGTH <= String.length s)%nat.

(** The translator holds no signature, or one of the minimum length. *)
Definition heldSignatureOk {K : Constants} (st : State) : Prop :=
  currentThinkingSignature st = "" \/
  longEnough (currentThinkingSignature st) = true.




(** The three stop reasons of the translator. *)
Definition knownStopReason (r : string) : Prop :=
  r = "end_turn" \/ r = "max_tokens" \/ r = "tool_use".

(** Some part that the translator enters takes the tool-use branch: it
    has no [text] key and it has the [functionCall] key, with a function
    call or with [null]. *)
Definition hasFunctionCall (ds : list GoogleResponse) : Prop :=
  exists part,
    part ∈ allParts ds /\ text part = Absent /\ functionCall part <> Absent.

End Stream.

(** ** Observations on an Anthropic response *)
Module Blocks.

Import OpenAI.

(** The text of the text blocks, one after the other. *)
Fixpoint textOf (blocks : list AnthropicBlock) : string :=
  match blocks with
  | [] => ""
  | BText t :: rest =>
    match JS.truthy t with Some x => x | None => "" end +:+ textOf rest
  | _ :: rest => textOf rest
  end.

(** The name and the arguments of the tool-use blocks, in order. *)
Fixpoint toolUses (blocks : list AnthropicBlock) : list (string * string) :=
  match blocks with
  | [] => []
  | BToolUse _ name input :: rest =>
    (name, match input with Some a => a | None => "{}" end) :: toolUses rest
  | _ :: rest => toolUses rest
  end.

(** The ids that the tool-use blocks bring along, in order. *)
Fixpoint toolIds (blocks : list AnthropicBlock) : list (option string) :=
  match blocks with
  | [] => []
  | BToolUse i _ _ :: rest => JS.truthy i :: toolIds rest
  | _ :: rest => toolIds rest
  end.

Definition blocksOf (r : AnthropicResponse) : list AnthropicBlock :=
  match content r with Some c => c | None => [] end.

Definition callsOf (r : ChatCompletion) : list ToolCall :=
  match cc_tool_calls r with Some l => l | None => [] end.

End Blocks.

(** ** The OpenAI streaming converter
       ([format/openai-response-converter.js], [streamToOpenAIFormat]) *)
Module OpenAIStream.

Import SSE.

(** The [delta] object of a streaming chunk, one constructor for each
    object literal the generator builds:
    [{ role: 'assistant' }], [{ content }],
    [{ tool_calls: [{ index, id, type: 'function',
                      function: { name, arguments: '' } }] }],
    [{ tool_calls: [{ index, function: { arguments } }] }] and [{}]. *)
Inductive ChunkDelta :=
  | RoleDelta
  | ContentDelta (content : string)
  | ToolCallStart (index : nat) (id name : string)
  | ToolCallArguments (index : nat) (arguments : string)
  | EmptyDelta.

(** The object [createStreamChunk] returns; [object], the choice's [index]
    and the shape of [choices] are fixed. *)
Record StreamChunk := {
  sc_id : string;
  sc_created : Z;
  sc_model : string;
  sc_delta : ChunkDelta;
  sc_finish_reason : option string
}.

(** [createStreamChunk(id, model, delta, finishReason = null)], called at
    time [now]. *)
Definition createStreamChunk (id model : string) (delta : ChunkDelta)
    (finishReason : option string) (now : Z) : StreamChunk :=
  {| sc_id := id; sc_created := now / 1000; sc_model := model;
     sc_delta := delta; sc_finish_reason := finishReason |}.

(** What the generator yields: the line
    ["data: " + JSON.stringify(chunk) + "\n\n"] for a chunk, or the line
    ["data: [DONE]\n\n"]. *)
Inductive Line :=
  | Data (chunk : StreamChunk)
  | DoneLine.

(** [currentToolCall], of which the generator reads [index] again. *)
Record ToolCallInProgress := {
  call_index : nat;
  call_id : string;
  call_name : string
}.

(** The generator's local variables, and the random draws made. *)
Record State := {
  isFirstChunk : bool;
  currentToolCall : option ToolCallInProgress;
  toolCallIndex : nat;
  draws : nat
}.

Definition initialState : State :=
  {| isFirstChunk := true; currentToolCall := None; toolCallIndex := 0;
     draws := 1 |}.

(** The finish reason of a [message_delta]. *)
Definition finishReasonOf (stop_reason : string) : string :=
  if String.eqb stop_reason "max_tokens" then "length"
  else if String.eqb stop_reason "tool_use" then "tool_calls"
  else "stop".

(** The body of [for await (const event of anthropicEvents)], for an event
    handled at time [now]. *)
Definition step {R : Runtime} (id model : string) (now : Z) (st : State)
    (event : AnthropicSSEEvent) : State * list Line :=
  match isFirstChunk st, event with
  | true, MessageStart _ _ _ _ _ _ =>
    (* First chunk sends the role *)
    ({| isFirstChunk := false; currentToolCall := currentToolCall st;
        toolCallIndex := toolCallIndex st; draws := draws st |},
     [Data (createStreamChunk id model RoleDelta None now)])
  | _, ContentBlockStart _ (ToolUseBlock blockId name _ _) =>
    (* Start of a tool call *)
    let '(callId, n) :=
      match JS.truthy (Some blockId) with
      | Some x => (x, draws st)
      | None => ("call_" +:+ randomHex 8 (draws st), S (draws st))
      end in
    ({| isFirstChunk := isFirstChunk st;
        currentToolCall :=
          Some {| call_index := toolCallIndex st; call_id := callId;
                  call_name := name |};
        toolCallIndex := toolCallIndex st; draws := n |},
     [Data (createStreamChunk id model
              (ToolCallStart (toolCallIndex st) callId name) None now)])
  | _, ContentBlockStart _ _ => (st, [])
  | _, ContentBlockDelta _ (TextDelta t) =>
    if isEmpty t then (st, [])
    else (st, [Data (createStreamChunk id model (ContentDelta t) None now)])
  | _, ContentBlockDelta _ (InputJsonDelta partial_json) =>
    if isEmpty partial_json then (st, [])
    else
      (* Accumulate tool arguments *)
      match currentToolCall st with
      | Some call =>
        (st, [Data (createStreamChunk id model
                      (ToolCallArguments (call_index call) partial_json)
                      None now)])
      | None => (st, [])
      end
  | _, ContentBlockDelta _ _ => (st, [])
  | _, ContentBlockStop _ =>
    match currentToolCall st with
    | Some _ =>
      ({| isFirstChunk := isFirstChunk st; currentToolCall := None;
          toolCallIndex := S (toolCallIndex st); draws := draws st |}, [])
    | None => (st, [])
    end
  | _, MessageDelta stop_reason _ _ _ =>
    (st, [Data (createStreamChunk id model EmptyDelta
                  (Some (finishReasonOf stop_reason)) now)])
  | _, MessageStop => (st, [DoneLine])
  | false, MessageStart _ _ _ _ _ _ => (st, [])
  end.



(** *** Readings of the lines *)






End OpenAIStream.
(* ===================================================================== *)
(** * Part II.  Properties                                                *)
(* ===================================================================== *)

(** ** Rate limits *)
Section RateLimitFacts.

Import RateLimits.

Lemma limitActive_spec now limit :
  limitActive now limit = true <->
  isRateLimited limit = true /\ exists t, resetTime limit = Some t /\ now < t.
Proof.
  unfold limitActive. destruct (isRateLimited limit); simpl.
  - destruct (resetTime limit) as [t|].
    + rewrite Z.ltb_lt. split.
      * intros H. split; [done|]. by exists t.
      * intros [_ [t' [[= <-] H]]]. done.
    + split; [done|]. by intros [_ [t' [? _]]].
  - split; [done|]. by intros [? _].
Qed.

Lemma unavailableForb_spec m now acc :
  unavailableForb m now acc = true <-> unavailableFor m now acc.
Proof.
  unfold unavailableForb, unavailableFor.
  destruct (isInvalid acc) eqn:Hinv.
  - split; [by left | done].
  - destruct (modelRateLimits acc !! m) as [limit|] eqn:Hl.
    + rewrite limitActive_spec. split.
      * intros [Hr [t [Ht Hlt]]]. right. by exists limit, t.
      * intros [? | [limit' [t [[= <-] [Hr [Ht Hlt]]]]]]; [done|].
        split; [done|]. by exists t.
    + split; [done|].
      intros [? | [limit' [t [? _]]]]; done.
Qed.

Lemma isAllRateLimited_truthy accounts modelId m now :
  JS.truthy modelId = Some m ->
  isAllRateLimited accounts modelId now = forallb (unavailableForb m now) accounts.
Proof.
  intros Hm. unfold isAllRateLimited. rewrite Hm.
  by destruct accounts.
Qed.

Lemma isAllRateLimited_falsy accounts modelId now :
  JS.truthy modelId = None ->
  isAllRateLimited accounts modelId now =
  match accounts with [] => true | _ => false end.
Proof.
  intros Hm. unfold isAllRateLimited. rewrite Hm. by destruct accounts.
Qed.

(** C5, as the code has it.  For a model id that is supplied and not the
    empty string, [isAllRateLimited] is true exactly when every account is
    invalid or has an active, unexpired rate limit for it (so it is true of
    the empty pool).  When no model is supplied (null, or the empty string)
    it is true exactly when the pool is empty, and false otherwise. *)
Theorem isAllRateLimited_characterisation
    (accounts : list Account) (modelId : option string) (now : Z) :
  match JS.truthy modelId with
  | Some m =>
    isAllRateLimited accounts modelId now = true <->
    Forall (unavailableFor m now) accounts
  | None =>
    isAllRateLimited accounts modelId now = true <-> accounts = []
  end.
Proof.
  destruct (JS.truthy modelId) as [m|] eqn:Hm.
  - rewrite (isAllRateLimited_truthy _ _ _ _ Hm).
    rewrite forallb_forall, Forall_forall.
    split; intros H acc Hin.
    + apply unavailableForb_spec, H. by apply list_elem_of_In.
    + apply unavailableForb_spec, H. by apply list_elem_of_In.
  - rewrite (isAllRateLimited_falsy _ _ _ Hm).
    destruct accounts; split; done.
Qed.

(** C5 as stated fails in both halves.  For the empty pool the function
    answers [true] even with no model supplied, because the emptiness test
    comes first; and for the empty string as the model it answers [false]
    although the one account of the pool is invalid. *)
Lemma isAllRateLimited_null_model_empty_pool :
  isAllRateLimited [] None 0 = true /\
  (isAllRateLimited Sample.invalidPool (Some "") 0 = false /\
   forallb isInvalid Sample.invalidPool = true).
Proof. repeat split. Qed.

End RateLimitFacts.

(** ** Sweeping expired limits does not change who is usable *)
Section SweepFacts.

Import RateLimits Selection.

Lemma limitActive_clearLimit now limit :
  limitActive now (clearLimit now limit) = limitActive now limit.
Proof.
  unfold clearLimit, limitExpired, limitActive.
  destruct (isRateLimited limit) eqn:Hr; simpl; [|by rewrite Hr].
  destruct (resetTime limit) as [t|] eqn:Ht; simpl; [|by rewrite Hr, Ht].
  destruct (t <=? now) eqn:Hle; simpl.
  - symmetry. apply Z.ltb_ge. by apply Z.leb_le.
  - by rewrite Hr, Ht.
Qed.

Lemma clearLimit_idem now limit :
  clearLimit now (clearLimit now limit) = clearLimit now limit.
Proof.
  unfold clearLimit. destruct (limitExpired now limit) eqn:He; [done|].
  by rewrite He.
Qed.

Lemma sweepAccount_lookup now acc m :
  modelRateLimits (sweepAccount now acc) !! m =
  clearLimit now <$> modelRateLimits acc !! m.
Proof. unfold sweepAccount; simpl. apply lookup_fmap. Qed.

Lemma sweepAccount_isInvalid now acc :
  isInvalid (sweepAccount now acc) = isInvalid acc.
Proof. reflexivity. Qed.

Lemma sweepAccount_idem now acc :
  sweepAccount now (sweepAccount now acc) = sweepAccount now acc.
Proof.
  unfold sweepAccount, set_modelRateLimits; simpl. f_equal.
  rewrite <- map_fmap_compose. apply map_fmap_ext.
  intros i x _. simpl. apply clearLimit_idem.
Qed.

Lemma isAvailable_sweep modelId now acc :
  isAvailable modelId now (sweepAccount now acc) = isAvailable modelId now acc.
Proof.
  unfold isAvailable. rewrite sweepAccount_isInvalid.
  destruct (isInvalid acc); [done|].
  destruct (JS.truthy modelId) as [m|]; [|done].
  rewrite sweepAccount_lookup.
  destruct (modelRateLimits acc !! m) as [limit|]; simpl; [|done].
  by rewrite limitActive_clearLimit.
Qed.

Lemma isAccountUsable_isAvailable modelId now acc :
  isAccountUsable (Some acc) modelId now = isAvailable modelId now acc.
Proof. reflexivity. Qed.

Lemma clearExpiredLimits_fst accounts now :
  (clearExpiredLimits accounts now).1 = sweepAccount now <$> accounts.
Proof. reflexivity. Qed.

Lemma clearExpiredLimits_idem accounts now :
  (clearExpiredLimits (clearExpiredLimits accounts now).1 now).1 =
  (clearExpiredLimits accounts now).1.
Proof.
  rewrite !clearExpiredLimits_fst, <- list_fmap_compose.
  apply list_fmap_ext. intros i x _. simpl. apply sweepAccount_idem.
Qed.

Lemma filter_nil_iff {A} (f : A -> bool) (l : list A) :
  List.filter f l = [] <-> forall x, x ∈ l -> f x = false.
Proof.
  induction l as [|a l IH]; simpl.
  - split; [|done]. intros _ x Hx. by apply elem_of_nil in Hx.
  - destruct (f a) eqn:Hfa.
    + split; [done|]. intros H. specialize (H a (list_elem_of_here _ _)). congruence.
    + rewrite IH. split.
      * intros H x Hx. apply elem_of_cons in Hx as [-> | Hx]; auto.
      * intros H x Hx. apply H. by apply list_elem_of_further.
Qed.

Lemma getAvailableAccounts_sweep_nil accounts modelId now :
  getAvailableAccounts (sweepAccount now <$> accounts) modelId now = [] <->
  getAvailableAccounts accounts modelId now = [].
Proof.
  unfold getAvailableAccounts. rewrite !filter_nil_iff. split.
  - intros H x Hx. rewrite <- isAvailable_sweep. apply H.
    by apply list_elem_of_fmap_2.
  - intros H y Hy. apply list_elem_of_fmap in Hy as [x [-> Hx]].
    rewrite isAvailable_sweep. by apply H.
Qed.

End SweepFacts.

(** ** Sticky selection when nobody is usable *)
Section StickyFacts.

Import RateLimits Selection.
Context {K : Constants}.

Lemma clampIndex_fmap {f : Account -> Account} accounts i :
  clampIndex (f <$> accounts) i = clampIndex accounts i.
Proof. unfold clampIndex. by rewrite length_fmap. Qed.

Lemma accountAt_fmap (f : Account -> Account) accounts i :
  accountAt (f <$> accounts) i = f <$> accountAt accounts i.
Proof.
  unfold accountAt. destruct (i <? 0); [done|]. apply list_lookup_fmap.
Qed.

Lemma accountAt_elem_of accounts i a :
  accountAt accounts i = Some a -> a ∈ accounts.
Proof.
  unfold accountAt. destruct (i <? 0); [done|].
  apply list_elem_of_lookup_2.
Qed.

(** An index at which [accountAt] finds an account is the position of that
    account in the list. *)
Lemma accountAt_Some accounts i a :
  accountAt accounts i = Some a ->
  0 <= i /\ accounts !! Z.to_nat i = Some a.
Proof.
  unfold accountAt. destruct (i <? 0) eqn:Hi; [done|].
  apply Z.ltb_ge in Hi. done.
Qed.

Lemma currentWaitMs_sweep_pos account modelId now :
  0 < currentWaitMs account modelId now ->
  currentWaitMs (sweepAccount now account) modelId now =
  currentWaitMs account modelId now.
Proof.
  unfold currentWaitMs. destruct (JS.truthy modelId) as [m|]; [|done].
  rewrite sweepAccount_lookup.
  destruct (modelRateLimits account !! m) as [limit|]; [|done].
  cbn [fmap option_fmap option_map].
  unfold clearLimit, limitExpired.
  destruct limit as [[] [t|]]; simpl; try done.
  intros Hpos. destruct (t <=? now) eqn:Hle; simpl; [|done].
  apply Z.leb_le in Hle. lia.
Qed.

Lemma currentWaitMs_sweep_nonpos account modelId now :
  currentWaitMs account modelId now <= 0 ->
  currentWaitMs (sweepAccount now account) modelId now <= 0.
Proof.
  unfold currentWaitMs. destruct (JS.truthy modelId) as [m|]; [|done].
  rewrite sweepAccount_lookup.
  destruct (modelRateLimits account !! m) as [limit|]; [|done].
  cbn [fmap option_fmap option_map].
  unfold clearLimit, limitExpired.
  destruct limit as [[] [t|]]; simpl; try done.
  intros Hle. by destruct (t <=? now) eqn:Hc; simpl.
Qed.

Lemma shouldWait_sweep accounts currentIndex modelId now :
  shouldWait (shouldWaitForCurrentAccount (sweepAccount now <$> accounts)
                currentIndex modelId now) =
  shouldWait (shouldWaitForCurrentAccount accounts currentIndex modelId now)
  /\
  sw_waitMs (shouldWaitForCurrentAccount (sweepAccount now <$> accounts)
                currentIndex modelId now) =
  sw_waitMs (shouldWaitForCurrentAccount accounts currentIndex modelId now).
Proof.
  unfold shouldWaitForCurrentAccount.
  destruct accounts as [|a0 rest]; [done|].
  rewrite clampIndex_fmap, accountAt_fmap.
  rewrite fmap_cons.
  destruct (accountAt (a0 :: rest) (clampIndex (a0 :: rest) currentIndex))
    as [account|] eqn:Hacc; [|done].
  cbn [fmap option_fmap option_map].
  rewrite sweepAccount_isInvalid.
  destruct (isInvalid account); [done|].
  cbv zeta.
  destruct (Z_lt_le_dec 0 (currentWaitMs account modelId now)) as [Hpos|Hnp].
  - rewrite (currentWaitMs_sweep_pos _ _ _ Hpos).
    destruct ((0 <? currentWaitMs account modelId now) &&
              (currentWaitMs account modelId now <=? MAX_WAIT_BEFORE_ERROR_MS)); done.
  - pose proof (currentWaitMs_sweep_nonpos _ _ _ Hnp) as Hnp'.
    apply Z.ltb_ge in Hnp, Hnp'. rewrite Hnp, Hnp'. done.
Qed.

Lemma getCurrentStickyAccount_none_available accounts currentIndex onSave modelId now :
  getAvailableAccounts accounts modelId now = [] ->
  getCurrentStickyAccount accounts currentIndex onSave modelId now =
  {| sel_accounts := sweepAccount now <$> accounts;
     sel_account := None;
     sel_newIndex :=
       match accounts with [] => currentIndex | _ => clampIndex accounts currentIndex end;
     sel_saves := 0 |}.
Proof.
  intros Hnone. unfold getCurrentStickyAccount.
  rewrite clearExpiredLimits_fst.
  destruct accounts as [|a0 rest]; [done|].
  apply getAvailableAccounts_sweep_nil in Hnone.
  unfold getAvailableAccounts in Hnone.
  rewrite filter_nil_iff in Hnone.
  rewrite clampIndex_fmap.
  set (accs := sweepAccount now <$> a0 :: rest) in *.
  assert (Hne : forall X Y : AccountSelectionResult,
    match accs with [] => X | _ :: _ => Y end = Y) by done.
  rewrite Hne.
  destruct (accountAt accs (clampIndex (a0 :: rest) currentIndex))
    as [account|] eqn:Hacc; [|done].
  rewrite isAccountUsable_isAvailable.
  rewrite (Hnone account); [done|].
  by eapply accountAt_elem_of.
Qed.

Lemma pickNext_none_available accounts currentIndex onSave modelId now :
  getAvailableAccounts accounts modelId now = [] ->
  pickNext accounts currentIndex onSave modelId now =
  {| sel_accounts := sweepAccount now <$> accounts;
     sel_account := None;
     sel_newIndex := currentIndex;
     sel_saves := 0 |}.
Proof.
  intros Hnone. unfold pickNext. rewrite clearExpiredLimits_fst.
  apply getAvailableAccounts_sweep_nil in Hnone. by rewrite Hnone.
Qed.

(** C1, as the code has it.  When no account of the pool is usable for the
    model (so the sticky account is not, and nobody else is either) and the
    sticky account's limit is not due within the wait threshold,
    [pickStickyAccount] returns no account, asks for no wait, leaves the
    active index where it was and requests no save; its only effect is the
    sweep of expired limits. *)
Theorem pickStickyAccount_nobody_usable
    (accounts : list Account) (currentIndex : Z) (onSave : bool)
    (modelId : option string) (now : Z) :
  getAvailableAccounts accounts modelId now = [] ->
  shouldWait (shouldWaitForCurrentAccount accounts currentIndex modelId now) = false ->
  pickStickyAccount accounts currentIndex onSave modelId now =
  {| st_accounts := (clearExpiredLimits accounts now).1;
     st_account := None;
     st_waitMs := 0;
     st_newIndex := currentIndex;
     st_saves := 0 |}.
Proof.
  intros Hnone Hwait. unfold pickStickyAccount.
  rewrite (getCurrentStickyAccount_none_available _ _ _ _ _ Hnone).
  cbn [sel_accounts sel_account sel_newIndex sel_saves].
  rewrite (proj2 (getAvailableAccounts_sweep_nil accounts modelId now) Hnone).
  unfold waitOrAdvance.
  destruct (shouldWait_sweep accounts currentIndex modelId now) as [Hsw _].
  rewrite Hsw, Hwait.
  rewrite pickNext_none_available
    by (by apply getAvailableAccounts_sweep_nil).
  cbn [sel_accounts sel_account sel_newIndex sel_saves].
  rewrite clearExpiredLimits_fst, <- list_fmap_compose.
  f_equal. apply list_fmap_ext. intros i x _. apply sweepAccount_idem.
Qed.

End StickyFacts.

Section StickyExamples.

Import RateLimits Selection.

(** C1 as stated fails: in a pool whose sticky account is rate-limited far
    beyond the threshold and whose other account is invalid, the call does
    not advance to the other account and does not return it. *)
Lemma pickStickyAccount_returns_no_account :
  let r := pickStickyAccount (K := Sample.constants)
             Sample.exhaustedPool 0 true (Some "m") 0 in
  sel_account (getCurrentStickyAccount Sample.exhaustedPool 0 true (Some "m") 0)
    = None /\
  getAvailableAccounts Sample.exhaustedPool (Some "m") 0 = [] /\
  shouldWait (shouldWaitForCurrentAccount (K := Sample.constants)
                Sample.exhaustedPool 0 (Some "m") 0) = false /\
  st_account r = None /\
  st_waitMs r = 0 /\
  st_newIndex r = 0.
Proof. vm_compute. repeat split. Qed.

(** C1, as the code has it, on the sample pool. *)
Lemma pickStickyAccount_nobody_usable_witness :
  pickStickyAccount (K := Sample.constants)
    Sample.exhaustedPool 0 true (Some "m") 0 =
  {| st_accounts := (clearExpiredLimits Sample.exhaustedPool 0).1;
     st_account := None;
     st_waitMs := 0;
     st_newIndex := 0;
     st_saves := 0 |}.
Proof.
  apply (pickStickyAccount_nobody_usable (K := Sample.constants)
           Sample.exhaustedPool 0 true (Some "m") 0);
    vm_compute; reflexivity.
Defined.

End StickyExamples.

(** ** The account manager *)
Section ManagerFacts.

Context {K : Constants}.

(** C10.  [markRateLimited] without a model id (null, which is also the
    default of the parameter) changes nothing: the accounts, the active
    index, the caches and the count of saves are those of the state before
    the call. *)
Theorem markRateLimited_null_model_noop
    (e : string) (resetMs : option Z) (now : Z) (st : AccountManager.State) :
  AccountManager.markRateLimited e resetMs None now st = st.
Proof. reflexivity. Qed.

(** The empty string is falsy too, so it is treated like null. *)
Lemma markRateLimited_empty_model_noop
    (e : string) (resetMs : option Z) (now : Z) (st : AccountManager.State) :
  AccountManager.markRateLimited e resetMs (Some "") now st = st.
Proof. reflexivity. Qed.

(** With a model id the call does schedule a save. *)
Lemma markRateLimited_model_saves
    (e : string) (resetMs : option Z) (m : string) (now : Z)
    (st : AccountManager.State) :
  JS.truthy (Some m) = Some m ->
  AccountManager.saves (AccountManager.markRateLimited e resetMs (Some m) now st)
  = S (AccountManager.saves st).
Proof.
  intros Hm. unfold AccountManager.markRateLimited. rewrite Hm.
  destruct (RateLimits.markRateLimited _ _ _ _ _ _) as [accs b].
  simpl. lia.
Qed.

End ManagerFacts.

(** ** The dispatcher: entries into the handler *)
Section DispatcherCalls.

Import Dispatcher.
Context {K : Constants} {Rt : SSE.Runtime} {World Body Resp : Type}
        {E : Environment World Body Resp}.

Lemma calls_app evs1 evs2 : calls (evs1 ++ evs2) = calls evs1 ++ calls evs2.
Proof.
  induction evs1 as [|e evs1 IH]; [done|].
  destruct e; simpl; by rewrite ?IH.
Qed.

Lemma calls_yield (ys : list SSE.AnthropicSSEEvent) : calls (EvYield <$> ys) = [].
Proof. induction ys; simpl; auto. Qed.

Lemma selectAccount_calls model fallbackEnabled (d : DState World) :
  calls (selectAccount model fallbackEnabled d).2 = [].
Proof.
  unfold selectAccount.
  repeat (case_match; simplify_eq; simpl; try done).
Qed.

Lemma selectAccount_fallback model fallbackEnabled (d d' : DState World) fm ev :
  selectAccount model fallbackEnabled d = (SelFallback fm, d', ev) ->
  fallbackEnabled = true /\ JS.truthy (getFallbackModel model) = Some fm.
Proof.
  unfold selectAccount. intros H.
  repeat (case_match; simplify_eq; try done).
Qed.

Lemma messageEndpoint_calls request account tok project isThinking endpoint
    lastError (d : DState World) :
  calls (messageEndpoint request account tok project isThinking endpoint
           lastError d).2 = [].
Proof.
  unfold messageEndpoint, authOrRateLimit.
  repeat (case_match; simplify_eq; simpl; try done).
Qed.

Lemma streamEndpoint_calls request account tok project endpoint lastError
    (d : DState World) :
  calls (streamEndpoint request account tok project endpoint lastError d).2 = [].
Proof.
  unfold streamEndpoint, authOrRateLimit.
  repeat (case_match; simplify_eq; simpl; try done); apply calls_yield.
Qed.

Lemma endpointLoop_calls {R} body endpoints lastError (d : DState World) :
  quietBody (R := R) body ->
  calls (endpointLoop body endpoints lastError d).2 = [].
Proof.
  intros Hq. revert lastError d.
  induction endpoints as [|endpoint rest IH]; intros lastError d; [done|].
  simpl. specialize (Hq endpoint lastError d).
  destruct (body endpoint lastError d) as [[step d1] ev].
  destruct step as [lastError'| |]; simpl in *; [|done..].
  specialize (IH lastError' d1).
  destruct (endpointLoop body rest lastError' d1) as [[step' d2] ev'].
  simpl in *. by rewrite calls_app, Hq, IH.
Qed.

Lemma tryAccount_calls {R} body request account (d : DState World) :
  (forall tok project, quietBody (R := R) (body tok project)) ->
  calls (tryAccount body request account d).2 = [].
Proof.
  intros Hq. unfold tryAccount.
  destruct (AccountManager.getTokenForAccount _ _ _ _) as [[tokenOutcome m] w].
  destruct tokenOutcome as [tok|err]; [|done].
  destruct (AccountManager.getProjectForAccount _ _ _ _) as [[project m'] w'].
  pose proof (endpointLoop_calls (body tok project)
                ANTIGRAVITY_ENDPOINT_FALLBACKS NoError
                (withWorld (withMgr (withWorld (withMgr d m) w) m') w')
                (Hq tok project)) as Hloop.
  destruct (endpointLoop _ _ _ _) as [[step d1] ev]. simpl in Hloop.
  destruct step as [[| |]| |]; done.
Qed.


Lemma attemptCatch_calls request err (d : DState World) :
  calls (attemptCatch request err d).2 = [].
Proof.
  unfold attemptCatch.
  repeat (case_match; simplify_eq; simpl; try done).
Qed.

(** What a run of the retry loop can be: it finishes by itself without
    entering the handler again, or it hands over to exactly one recursive
    call, made for the configured fallback model with fallback disabled,
    which happens only when fallback was enabled. *)
Lemma retryLoop_calls {R} body recurse request fallbackEnabled attempts
    (d : DState World) :
  (forall request account tok project,
      quietBody (R := R) (body request account tok project)) ->
  let run := retryLoop body recurse request fallbackEnabled attempts d in
  (exists out, run.1.1 = Done out /\ calls run.2 = []) \/
  (fallbackEnabled = true /\
   exists fm d0,
     JS.truthy (getFallbackModel (model request)) = Some fm /\
     let sub := recurse {| model := fm; payload := payload request |} false d0 in
     run.1.1 = sub.1.1 /\ calls run.2 = calls sub.2).
Proof.
  intros Hq. revert d.
  induction attempts as [|attempts IH]; intros d; simpl.
  { left. by eexists. }
  pose proof (selectAccount_calls (model request) fallbackEnabled d) as Hsel.
  destruct (selectAccount (model request) fallbackEnabled d)
    as [[sel d1] ev1] eqn:Esel.
  simpl in Hsel.
  destruct sel as [account|err|fm].
  - pose proof (tryAccount_calls (body request account) request account d1
                  (Hq request account)) as Htry.
    destruct (tryAccount _ _ _ _) as [[att d2] ev2]. simpl in Htry.
    destruct att as [r|err|].
    + left. eexists. split; [done|]. simpl. by rewrite calls_app, Hsel, Htry.
    + pose proof (attemptCatch_calls request err d2) as Hcatch.
      destruct (attemptCatch request err d2) as [[thrown d3] ev3].
      simpl in Hcatch. destruct thrown as [err'|].
      * left. eexists. split; [done|]. simpl.
        by rewrite !calls_app, Hsel, Htry, Hcatch.
      * specialize (IH d3).
        destruct (retryLoop body recurse request fallbackEnabled attempts d3)
          as [[r d4] ev4].
        simpl in *. rewrite !calls_app, Hsel, Htry, Hcatch. simpl. exact IH.
    + specialize (IH d2).
      destruct (retryLoop body recurse request fallbackEnabled attempts d2)
        as [[r d4] ev4].
      simpl in *. rewrite !calls_app, Hsel, Htry. simpl. exact IH.
  - left. by eexists.
  - apply selectAccount_fallback in Esel as [-> Hfm].
    right. split; [done|]. exists fm, d1. split; [done|].
    destruct (recurse _ false d1) as [[r d2] ev2]. simpl.
    by rewrite calls_app, Hsel.
Qed.

End DispatcherCalls.

Section FallbackOnce.

Import Dispatcher.
Context {K : Constants} {Rt : SSE.Runtime} {World Body Resp : Type}
        {E : Environment World Body Resp}.

Lemma sendMessage_unfold fuel request fallbackEnabled (d : DState World) :
  sendMessage (S fuel) request fallbackEnabled d =
  let '(r, d', ev) :=
    retryLoop
      (fun rq account tok project =>
         messageEndpoint rq account tok project
           (isThinkingModel (model request)))
      (sendMessage fuel) request fallbackEnabled (maxAttempts d) d in
  (r, d', EvCall (model request) fallbackEnabled :: ev).
Proof. reflexivity. Qed.

Lemma sendMessageStream_unfold fuel request fallbackEnabled (d : DState World) :
  sendMessageStream (S fuel) request fallbackEnabled d =
  let '(r, d', ev) :=
    retryLoop
      (fun request account tok project =>
         streamEndpoint request account tok project)
      (sendMessageStream fuel) request fallbackEnabled (maxAttempts d) d in
  (r, d', EvCall (model request) fallbackEnabled :: ev).
Proof. reflexivity. Qed.

Lemma sendMessage_fallback_disabled fuel request (d : DState World) :
  let run := sendMessage (S fuel) request false d in
  (exists out, run.1.1 = Done out) /\ calls run.2 = [(model request, false)].
Proof.
  rewrite sendMessage_unfold.
  pose proof (retryLoop_calls
    (fun rq account tok project =>
       messageEndpoint rq account tok project
         (isThinkingModel (model request)))
    (sendMessage fuel) request false (maxAttempts d) d) as H.
  destruct (retryLoop _ _ _ _ _ _) as [[r d'] ev]. simpl in *.
  destruct H as [[out [-> Hc]] | [? _]]; [| |done].
  - intros rq acc tok project endpoint lastError d0.
    apply messageEndpoint_calls.
  - split; [by eexists|]. by rewrite Hc.
Qed.

Lemma sendMessageStream_fallback_disabled fuel request (d : DState World) :
  let run := sendMessageStream (S fuel) request false d in
  (exists out, run.1.1 = Done out) /\ calls run.2 = [(model request, false)].
Proof.
  rewrite sendMessageStream_unfold.
  pose proof (retryLoop_calls
    (fun request account tok project =>
       streamEndpoint request account tok project)
    (sendMessageStream fuel) request false (maxAttempts d) d) as H.
  destruct (retryLoop _ _ _ _ _ _) as [[r d'] ev]. simpl in *.
  destruct H as [[out [-> Hc]] | [? _]]; [| |done].
  - intros rq acc tok project endpoint lastError d0.
    apply streamEndpoint_calls.
  - split; [by eexists|]. by rewrite Hc.
Qed.

(** C9.  With fuel for two nested calls, [sendMessage] and
    [sendMessageStream] always finish (they never need a third call), and
    the entries into the handler during one client request are the request
    itself and at most one recursive call, which is made for the configured
    fallback model with [fallbackEnabled = false]. *)
Theorem fallback_invoked_at_most_once
    (fuel : nat) (request : AnthropicRequest) (fallbackEnabled : bool)
    (d : DState World) :
  (let run := sendMessage (S (S fuel)) request fallbackEnabled d in
   (exists out, run.1.1 = Done out) /\
   fallbackAtMostOnce request fallbackEnabled (calls run.2)) /\
  (let run := sendMessageStream (S (S fuel)) request fallbackEnabled d in
   (exists out, run.1.1 = Done out) /\
   fallbackAtMostOnce request fallbackEnabled (calls run.2)).
Proof.
  split.
  - rewrite sendMessage_unfold.
    pose proof (retryLoop_calls
      (fun rq account tok project =>
         messageEndpoint rq account tok project
           (isThinkingModel (model request)))
      (sendMessage (S fuel)) request fallbackEnabled (maxAttempts d) d) as H.
    destruct (retryLoop _ _ _ _ _ _) as [[r d'] ev].
    cbv zeta in H. cbn [fst snd] in H. cbn [fst snd calls].
    destruct H as [[out [-> Hc]] | [-> [fm [d0 [Hfm [Hr Hc]]]]]].
    + intros rq acc tok project endpoint lastError d1.
      apply messageEndpoint_calls.
    + split; [by eexists|]. left. by rewrite Hc.
    + destruct (sendMessage_fallback_disabled fuel
                  {| model := fm; payload := payload request |} d0)
        as [[out Hout] Hsub].
      cbv zeta in Hout, Hsub.
      split; [exists out; by rewrite Hr|].
      right. split; [done|]. exists fm. split; [done|].
      by rewrite Hc, Hsub.
  - rewrite sendMessageStream_unfold.
    pose proof (retryLoop_calls
      (fun request account tok project =>
         streamEndpoint request account tok project)
      (sendMessageStream (S fuel)) request fallbackEnabled (maxAttempts d) d) as H.
    destruct (retryLoop _ _ _ _ _ _) as [[r d'] ev].
    cbv zeta in H. cbn [fst snd] in H. cbn [fst snd calls].
    destruct H as [[out [-> Hc]] | [-> [fm [d0 [Hfm [Hr Hc]]]]]].
    + intros rq acc tok project endpoint lastError d1.
      apply streamEndpoint_calls.
    + split; [by eexists|]. left. by rewrite Hc.
    + destruct (sendMessageStream_fallback_disabled fuel
                  {| model := fm; payload := payload request |} d0)
        as [[out Hout] Hsub].
      cbv zeta in Hout, Hsub.
      split; [exists out; by rewrite Hr|].
      right. split; [done|]. exists fm. split; [done|].
      by rewrite Hc, Hsub.
Qed.

End FallbackOnce.

(** ** When every account is rate-limited *)
Section AllRateLimited.

Import RateLimits Selection.
Context {K : Constants}.




(** [minWaitStep] in terms of the wait of the account's limit. *)
Lemma minWaitStep_currentWaitMs modelId now minWait account :
  minWaitStep modelId now minWait account =
  let wait := currentWaitMs account modelId now in
  if (0 <? wait) && match minWait with Some w => wait <? w | None => true end
  then Some wait else minWait.
Proof.
  unfold minWaitStep, currentWaitMs.
  destruct (JS.truthy modelId) as [m|]; [|done].
  destruct (modelRateLimits account !! m) as [limit|]; [|done].
  destruct (isRateLimited limit); [|done].
  by destruct (resetTime limit).
Qed.




(** The fold of [getMinWaitTimeMs] never increases a finite minimum ... *)
Lemma fold_minWait_le modelId now accounts w :
  exists w', fold_left (minWaitStep modelId now) accounts (Some w) = Some w'
             /\ w' <= w.
Proof.
  revert w. induction accounts as [|a l IH]; intros w; simpl.
  - exists w. split; [done|lia].
  - rewrite minWaitStep_currentWaitMs. cbv zeta.
    destruct ((0 <? currentWaitMs a modelId now) &&
              (currentWaitMs a modelId now <? w)) eqn:Hc.
    + apply andb_true_iff in Hc as [_ Hlt]. apply Z.ltb_lt in Hlt.
      destruct (IH (currentWaitMs a modelId now)) as [w' [Hw' Hle]].
      exists w'. split; [done|lia].
    + apply IH.
Qed.

(** ... and is below the positive wait of every account it visits. *)
Lemma fold_minWait_bound modelId now accounts minWait account :
  account ∈ accounts ->
  0 < currentWaitMs account modelId now ->
  exists w, fold_left (minWaitStep modelId now) accounts minWait = Some w
            /\ w <= currentWaitMs account modelId now.
Proof.
  revert minWait. induction accounts as [|a l IH]; intros minWait Hin Hpos.
  - by apply elem_of_nil in Hin.
  - apply elem_of_cons in Hin as [<- | Hin]; [|by apply IH].
    simpl. rewrite minWaitStep_currentWaitMs. cbv zeta.
    apply Z.ltb_lt in Hpos as Hposb. rewrite Hposb. simpl.
    destruct minWait as [w0|].
    + destruct (currentWaitMs account modelId now <? w0) eqn:Hlt.
      * destruct (fold_minWait_le modelId now l (currentWaitMs account modelId now))
          as [w' [Hw' Hle]]. by exists w'.
      * apply Z.ltb_ge in Hlt.
        destruct (fold_minWait_le modelId now l w0) as [w' [Hw' Hle]].
        exists w'. split; [done|lia].
    + destruct (fold_minWait_le modelId now l (currentWaitMs account modelId now))
        as [w' [Hw' Hle]]. by exists w'.
Qed.

Lemma isAllRateLimited_none_available accounts modelId now :
  isAllRateLimited accounts modelId now = true ->
  getAvailableAccounts accounts modelId now = [].
Proof.
  intros Hall. destruct (JS.truthy modelId) as [m|] eqn:Hm.
  - rewrite (isAllRateLimited_truthy _ _ _ _ Hm) in Hall.
    apply filter_nil_iff. intros a Ha.
    rewrite forallb_forall in Hall.
    specialize (Hall a (proj1 (list_elem_of_In _ _) Ha)).
    unfold unavailableForb in Hall. unfold isAvailable. rewrite Hm.
    destruct (isInvalid a); [done|].
    destruct (modelRateLimits a !! m); [|done]. by rewrite Hall.
  - rewrite (isAllRateLimited_falsy _ _ _ Hm) in Hall.
    by destruct accounts.
Qed.

(** In a pool that is rate-limited throughout, a valid account's own wait is
    at least the minimum wait. *)
Lemma getMinWaitTimeMs_le_valid accounts modelId now account :
  isAllRateLimited accounts modelId now = true ->
  account ∈ accounts ->
  isInvalid account = false ->
  getMinWaitTimeMs accounts modelId now <= currentWaitMs account modelId now.
Proof.
  intros Hall Hin Hvalid.
  assert (Hpos : 0 < currentWaitMs account modelId now).
  { destruct (JS.truthy modelId) as [m|] eqn:Hm.
    - rewrite (isAllRateLimited_truthy _ _ _ _ Hm) in Hall.
      rewrite forallb_forall in Hall.
      specialize (Hall account (proj1 (list_elem_of_In _ _) Hin)).
      unfold unavailableForb in Hall. rewrite Hvalid in Hall.
      unfold currentWaitMs. rewrite Hm.
      destruct (modelRateLimits account !! m) as [limit|]; [|done].
      apply limitActive_spec in Hall as [Hr [t [Ht Hlt]]].
      rewrite Hr, Ht. lia.
    - rewrite (isAllRateLimited_falsy _ _ _ Hm) in Hall.
      destruct accounts; [by apply elem_of_nil in Hin|done]. }
  unfold getMinWaitTimeMs. rewrite Hall. simpl.
  destruct (fold_minWait_bound modelId now accounts None account Hin Hpos)
    as [w [-> Hle]]. done.
Qed.

Lemma shouldWait_true accounts currentIndex modelId now :
  shouldWait (shouldWaitForCurrentAccount accounts currentIndex modelId now) = true ->
  exists account,
    accountAt accounts (clampIndex accounts currentIndex) = Some account /\
    isInvalid account = false /\
    sw_account (shouldWaitForCurrentAccount accounts currentIndex modelId now)
      = Some account /\
    sw_waitMs (shouldWaitForCurrentAccount accounts currentIndex modelId now)
      = currentWaitMs account modelId now /\
    0 < currentWaitMs account modelId now <= MAX_WAIT_BEFORE_ERROR_MS.
Proof.
  unfold shouldWaitForCurrentAccount.
  destruct accounts as [|a0 rest]; [done|].
  destruct (accountAt (a0 :: rest) (clampIndex (a0 :: rest) currentIndex))
    as [account|] eqn:Hacc; [|done].
  destruct (isInvalid account) eqn:Hinv; [done|].
  cbv zeta.
  destruct ((0 <? currentWaitMs account modelId now) &&
            (currentWaitMs account modelId now <=? MAX_WAIT_BEFORE_ERROR_MS))
    eqn:Hc; [|done].
  intros _. exists account.
  apply andb_true_iff in Hc as [H1 H2].
  apply Z.ltb_lt in H1. apply Z.leb_le in H2. done.
Qed.

Lemma currentWaitMs_pos account modelId now :
  0 < currentWaitMs account modelId now ->
  exists m limit t,
    JS.truthy modelId = Some m /\
    modelRateLimits account !! m = Some limit /\
    isRateLimited limit = true /\ resetTime limit = Some t /\
    currentWaitMs account modelId now = t - now.
Proof.
  unfold currentWaitMs.
  destruct (JS.truthy modelId) as [m|] eqn:Hm; [|lia].
  destruct (modelRateLimits account !! m) as [limit|] eqn:Hl; [|lia].
  destruct (isRateLimited limit) eqn:Hr; [|lia].
  destruct (resetTime limit) as [t|] eqn:Ht; [|lia].
  intros _. exists m, limit, t. by rewrite Hr, Ht.
Qed.




End AllRateLimited.

Section DispatcherWaits.

Import RateLimits Selection Dispatcher.
Context {K : Constants} {Rt : SSE.Runtime} {World Body Resp : Type}
        {E : Environment World Body Resp}.















End DispatcherWaits.

Section DispatcherExamples.

Import Dispatcher.



(** On that pool the run is the error and nothing else. *)
Example sendMessage_exhausted_sample :
  let run := sendMessage (K := Sample.constants) (E := Sample.environment)
               1 (Sample.request "m") false
               (Sample.dispatcherState Sample.exhaustedPool) in
  run.1.1 = Done (Throws (resourceExhausted (E := Sample.environment)
                            "m" 1000000 0)) /\
  run.2 = [EvCall "m" false].
Proof. vm_compute. split; reflexivity. Qed.

(** An exhausted pool whose soonest reset belongs to an invalid account:
    the handler sleeps for that minimum wait, finds nobody and ends in
    "No accounts available". *)
Example sendMessage_waits_for_invalid_account :
  let pool := [ Sample.account "a@example.com" true (Sample.limitedUntil "m" 10000);
                Sample.account "b@example.com" false
                  (Sample.limitedUntil "m" 200000) ] in
  let run := sendMessage (K := Sample.constants) (E := Sample.environment)
               1 (Sample.request "m") false (Sample.dispatcherState pool) in
  run.1.1 = Done (Throws "No accounts available") /\
  run.2 = [EvCall "m" false; EvSleep 10000].
Proof. vm_compute. split; reflexivity. Qed.

(** A request that falls back: the pool has no usable account, fallback is
    enabled and a fallback model is configured.  The handler is entered
    twice, the second time with fallback disabled, and the second run ends
    in "No accounts available" rather than in another fallback. *)
Example sendMessage_falls_back_once :
  let run := sendMessage (K := Sample.constants) (E := Sample.environment)
               5 (Sample.request "claude-opus") true
               (Sample.dispatcherState Sample.invalidPool) in
  run.1.1 = Done (Throws "No accounts available") /\
  calls run.2 = [("claude-opus", true); ("gemini-pro", false)].
Proof. vm_compute. split; reflexivity. Qed.

End DispatcherExamples.

(** ** The credential broker *)
Section CredentialFacts.

Import Credentials.
Context {K : Constants} {S World Body Resp : Type}
        {E : Environment World Body Resp}.

(** For an OAuth account whose token is not cached, the call is the
    refresh-token exchange and what follows it. *)
Lemma getTokenForAccount_oauth
    (account : Account) (tokenCache : gmap string TokenCacheEntry)
    (onInvalid : option (string -> string -> S -> S))
    (onSave : option (S -> S)) (now : Z) (s : S) (w : World) (rt : string) :
  cacheMiss tokenCache account now ->
  source account = "oauth" ->
  JS.truthy (refreshToken account) = Some rt ->
  getTokenForAccount account tokenCache onInvalid onSave now s w =
  match refreshAccessToken rt w with
  | (Returns tokens, w) =>
    {| tr_outcome := Returns (accessToken tokens);
       tr_account :=
         if isInvalid account
         then set_invalid account false None (invalidAt account) else account;
       tr_tokenCache :=
         <[ email account :=
              {| token := accessToken tokens; extractedAt := now |} ]> tokenCache;
       tr_state := if isInvalid account then callOnSave onSave s else s;
       tr_world := w |}
  | (Throws err, w) =>
    if isNetworkError err then
      {| tr_outcome := Throws ("AUTH_NETWORK_ERROR: " +:+ err);
         tr_account := account; tr_tokenCache := tokenCache;
         tr_state := s; tr_world := w |}
    else
      {| tr_outcome :=
           Throws ("AUTH_INVALID: " +:+ email account +:+ ": " +:+ err);
         tr_account := account; tr_tokenCache := tokenCache;
         tr_state := callOnInvalid onInvalid (email account) err s;
         tr_world := w |}
  end.
Proof.
  intros Hmiss Hsrc Hrt. unfold getTokenForAccount.
  assert (Hcache :
    match tokenCache !! email account with
    | Some cached =>
      if now - extractedAt cached <? TOKEN_REFRESH_INTERVAL_MS
      then Some (token cached) else None
    | None => None
    end = None).
  { unfold cacheMiss in Hmiss.
    destruct (tokenCache !! email account) as [cached|]; [|done].
    apply Z.ltb_ge in Hmiss. by rewrite Hmiss. }
  rewrite Hcache, Hsrc, Hrt. cbn [String.eqb Ascii.eqb Bool.eqb andb].
  destruct (refreshAccessToken rt w) as [[tokens|err] w1]; [|done].
  by destruct (isInvalid account).
Qed.

(** C3.  For an OAuth account (source "oauth", a refresh token) whose token
    is not cached, when the refresh-token exchange throws [err]:
    - if [err] is a network error, [getTokenForAccount] throws
      "AUTH_NETWORK_ERROR: ..." and the invalid callback is not called: the
      state the callbacks act on, the account and the cache are unchanged;
    - otherwise it calls the invalid callback with the account's email and
      the error message, and throws "AUTH_INVALID: ...". *)
Theorem getTokenForAccount_refresh_failure
    (account : Account) (tokenCache : gmap string TokenCacheEntry)
    (onInvalid : option (string -> string -> S -> S))
    (onSave : option (S -> S)) (now : Z) (s : S) (w w' : World)
    (rt : string) (err : Error) :
  cacheMiss tokenCache account now ->
  source account = "oauth" ->
  JS.truthy (refreshToken account) = Some rt ->
  refreshAccessToken rt w = (Throws err, w') ->
  let r := getTokenForAccount account tokenCache onInvalid onSave now s w in
  tr_account r = account /\ tr_tokenCache r = tokenCache /\ tr_world r = w' /\
  if isNetworkError err then
    tr_outcome r = Throws ("AUTH_NETWORK_ERROR: " +:+ err) /\
    tr_state r = s
  else
    tr_outcome r = Throws ("AUTH_INVALID: " +:+ email account +:+ ": " +:+ err) /\
    tr_state r = match onInvalid with
                 | Some callback => callback (email account) err s
                 | None => s
                 end.
Proof.
  intros Hmiss Hsrc Hrt Hrefresh. cbv zeta.
  rewrite (getTokenForAccount_oauth _ _ _ _ _ _ _ rt Hmiss Hsrc Hrt), Hrefresh.
  destruct (isNetworkError err); done.
Qed.

End CredentialFacts.

Section ManagerCredentialFacts.

Import Credentials.
Context {K : Constants} {World Body Resp : Type}
        {E : Environment World Body Resp}.

Lemma findIndexByEmail_lookup accounts e i :
  RateLimits.findIndexByEmail accounts e = Some i ->
  exists a, accounts !! i = Some a /\ email a = e.
Proof.
  revert i. induction accounts as [|a0 rest IH]; intros i; simpl; [done|].
  destruct (String.eqb (email a0) e) eqn:Heq.
  - intros [= <-]. exists a0. split; [done|]. by apply String.eqb_eq.
  - destruct (RateLimits.findIndexByEmail rest e) as [j|]; [|done].
    intros [= <-]. destruct (IH j eq_refl) as [a [Ha He]]. by exists a.
Qed.

(** The account manager's instance of C3: with the manager's own callbacks,
    a network failure of the refresh leaves the pool and the count of saves
    as they were, and a permanent failure marks the pool's entry for that
    email invalid, with the error as the reason, and schedules a save. *)
Lemma manager_getTokenForAccount_refresh_failure
    (account : Account) (now : Z) (st : AccountManager.State) (w w' : World)
    (rt : string) (err : Error) (i : nat) :
  cacheMiss (AccountManager.tokenCache st) account now ->
  source account = "oauth" ->
  JS.truthy (refreshToken account) = Some rt ->
  refreshAccessToken rt w = (Throws err, w') ->
  RateLimits.findIndexByEmail (AccountManager.accounts st) (email account) = Some i ->
  let run := AccountManager.getTokenForAccount account now st w in
  if isNetworkError err then
    run.1.1 = Throws ("AUTH_NETWORK_ERROR: " +:+ err) /\
    AccountManager.accounts run.1.2 = AccountManager.accounts st /\
    AccountManager.saves run.1.2 = AccountManager.saves st
  else
    run.1.1 = Throws ("AUTH_INVALID: " +:+ email account +:+ ": " +:+ err) /\
    (exists a, AccountManager.accounts run.1.2 !! i = Some a /\
               email a = email account /\
               isInvalid a = true /\ invalidReason a = Some err) /\
    AccountManager.saves run.1.2 = Datatypes.S (AccountManager.saves st).
Proof.
  intros Hmiss Hsrc Hrt Hrefresh Hfind run. subst run.
  unfold AccountManager.getTokenForAccount.
  rewrite (getTokenForAccount_oauth _ _ _ _ _ _ _ rt Hmiss Hsrc Hrt), Hrefresh.
  destruct (isNetworkError err);
    cbn [tr_outcome tr_account tr_tokenCache tr_state tr_world callOnInvalid
         fst snd]; rewrite andb_negb_r.
  - done.
  - split; [done|].
    unfold AccountManager.markInvalid, RateLimits.markInvalid.
    rewrite Hfind.
    destruct (findIndexByEmail_lookup _ _ _ Hfind) as [a [Ha He]].
    rewrite Ha. cbn. split; [|lia].
    eexists. split.
    + apply list_lookup_insert_eq. by eapply lookup_lt_Some.
    + done.
Qed.

End ManagerCredentialFacts.

Section CredentialExamples.

Import Credentials.

(** C3 on a sample: the token endpoint refuses the refresh token, which is
    not a network error, and the manager's callback marks the account. *)
Lemma getTokenForAccount_refresh_failure_witness :
  let st := Sample.manager [Sample.revokedAccount] in
  let r := getTokenForAccount (K := Sample.constants) (E := Sample.environment)
             Sample.revokedAccount ∅
             (Some (fun e reason st => AccountManager.markInvalid e reason 7 st))
             (Some AccountManager.saveToDisk) 7 st tt in
  tr_account r = Sample.revokedAccount /\ tr_tokenCache r = ∅ /\ tr_world r = tt /\
  tr_outcome r =
    Throws "AUTH_INVALID: a@example.com: Token refresh failed: invalid_grant" /\
  tr_state r =
    AccountManager.markInvalid "a@example.com"
      "Token refresh failed: invalid_grant" 7 st.
Proof.
  apply (getTokenForAccount_refresh_failure (K := Sample.constants)
           (E := Sample.environment) Sample.revokedAccount ∅
           (Some (fun e reason st => AccountManager.markInvalid e reason 7 st))
           (Some AccountManager.saveToDisk) 7
           (Sample.manager [Sample.revokedAccount]) tt tt "revoked"
           "Token refresh failed: invalid_grant");
    vm_compute; reflexivity.
Defined.

End CredentialExamples.

(** ** The SSE translator: lines, chunks and payloads *)
Section StreamBasics.

Import SSE.
Context {K : Constants} {R : Runtime}.

Lemma processLines_app messageId originalModel st lines1 lines2 :
  processLines messageId originalModel st (lines1 ++ lines2) =
  let '(st1, evs1) := processLines messageId originalModel st lines1 in
  let '(st2, evs2) := processLines messageId originalModel st1 lines2 in
  (st2, evs1 ++ evs2).
Proof.
  revert st. induction lines1 as [|line rest IH]; intros st; simpl.
  - by destruct (processLines messageId originalModel st lines2).
  - destruct (processLine messageId originalModel st line) as [st1 evs1].
    rewrite IH.
    destruct (processLines messageId originalModel st1 rest) as [st2 evs2].
    destruct (processLines messageId originalModel st2 lines2) as [st3 evs3].
    by rewrite app_assoc.
Qed.

(** The chunk loop is the line loop run on the complete lines. *)
Lemma streamLoop_chunkLines messageId originalModel st buffer chunks :
  streamLoop messageId originalModel st buffer chunks =
  processLines messageId originalModel st (chunkLines buffer chunks).
Proof.
  revert st buffer. induction chunks as [|chunk rest IH]; intros st buffer.
  - done.
  - simpl. unfold processChunk. rewrite processLines_app.
    destruct (processLines messageId originalModel st
                (removelast (splitNewline (buffer +:+ chunk)))) as [st1 evs1].
    by rewrite IH.
Qed.

(** The line loop is the payload loop run on the payloads of the lines. *)
Lemma processLines_payloads messageId originalModel st lines :
  processLines messageId originalModel st lines =
  processPayloads messageId originalModel st (omap dataOfLine lines).
Proof.
  revert st. induction lines as [|line rest IH]; intros st; [done|].
  simpl. unfold processLine.
  destruct (dataOfLine line) as [data|]; simpl.
  - destruct (processData messageId originalModel st data) as [st1 evs1].
    by rewrite IH.
  - rewrite IH. by destruct (processPayloads _ _ st _).
Qed.

Lemma streamSSEResponse_payloads chunks originalModel :
  streamSSEResponse chunks originalModel =
  let messageId := "msg_" +:+ randomHex 16 0 in
  let '(st, evs) :=
    processPayloads messageId originalModel initialState (payloads chunks) in
  evs ++ finish messageId originalModel st.
Proof.
  unfold streamSSEResponse, payloads.
  by rewrite streamLoop_chunkLines, processLines_payloads.
Qed.

Lemma processPayloads_app messageId originalModel st ds1 ds2 :
  processPayloads messageId originalModel st (ds1 ++ ds2) =
  let '(st1, evs1) := processPayloads messageId originalModel st ds1 in
  let '(st2, evs2) := processPayloads messageId originalModel st1 ds2 in
  (st2, evs1 ++ evs2).
Proof.
  revert st. induction ds1 as [|d rest IH]; intros st; simpl.
  - by destruct (processPayloads messageId originalModel st ds2).
  - destruct (processData messageId originalModel st d) as [st1 evs1].
    rewrite IH.
    destruct (processPayloads messageId originalModel st1 rest) as [st2 evs2].
    destruct (processPayloads messageId originalModel st2 ds2) as [st3 evs3].
    by rewrite app_assoc.
Qed.

Lemma extractUsage_fields st data :
  hasEmittedStart (extractUsage st data) = hasEmittedStart st /\
  blockIndex (extractUsage st data) = blockIndex st /\
  currentBlockType (extractUsage st data) = currentBlockType st.
Proof.
  unfold extractUsage. by destruct (usageMetadata (innerResponse data)).
Qed.

Lemma checkFinishReason_fields st data :
  hasEmittedStart (checkFinishReason st data) = hasEmittedStart st /\
  blockIndex (checkFinishReason st data) = blockIndex st /\
  currentBlockType (checkFinishReason st data) = currentBlockType st.
Proof.
  unfold checkFinishReason.
  repeat (case_match; try done).
Qed.

End StreamBasics.

(** ** The SSE translator: shape of the event sequence *)
Section StreamShape.

Import SSE Stream.
Context {K : Constants} {R : Runtime}.

Lemma blocks_snoc i j evs b :
  blocks i j evs -> isBlock j b -> blocks i (S j) (evs ++ b).
Proof.
  induction 1 as [i|i j b0 rest Hb0 Hrest IH]; intros Hb.
  - rewrite <- (app_nil_r b). simpl. apply blocks_cons; [done|apply blocks_nil].
  - rewrite <- app_assoc. apply blocks_cons; [done|]. by apply IH.
Qed.

Lemma started_none_closed i evs : Started i None evs -> Closed i evs.
Proof.
  intros (ms & body & open & -> & Hms & Hb & [-> ->]).
  exists ms, body. by rewrite app_nil_r.
Qed.

(** Closing the open block, after an optional signature delta that only a
    thinking block may get. *)
Lemma started_close i ty evs sig :
  Started i (Some ty) evs ->
  (sig = [] \/ (ty = Thinking /\ exists s, sig = [SignatureDelta s])) ->
  Closed (S i) (evs ++ (ContentBlockDelta i <$> sig) ++ [ContentBlockStop i]).
Proof.
  intros (ms & body & open & -> & Hms & Hb & (b & ds & -> & Hty & Hds)) Hsig.
  exists ms, (body ++ (ContentBlockStart i b ::
                (ContentBlockDelta i <$> (ds ++ sig)) ++ [ContentBlockStop i])).
  split; [|split; [done|]].
  - rewrite fmap_app. simpl. by rewrite <- !app_assoc.
  - apply blocks_snoc; [done|]. exists b, (ds ++ sig). split; [done|].
    rewrite Hty. by exists ds, sig.
Qed.

Lemma closed_open i evs b :
  Closed i evs ->
  openDeltas (blockTypeOf b) [] ->
  Started i (Some (blockTypeOf b)) (evs ++ [ContentBlockStart i b]).
Proof.
  intros (ms & body & -> & Hms & Hb) Hds.
  exists ms, body, [ContentBlockStart i b]. split; [done|].
  split; [done|]. split; [done|]. by exists b, [].
Qed.

Lemma closed_open_tool i evs b j :
  Closed i evs ->
  blockTypeOf b = ToolUse ->
  Started i (Some ToolUse)
    (evs ++ [ContentBlockStart i b; ContentBlockDelta i (InputJsonDelta j)]).
Proof.
  intros (ms & body & -> & Hms & Hb) Hty.
  exists ms, body, [ContentBlockStart i b; ContentBlockDelta i (InputJsonDelta j)].
  split; [done|]. split; [done|]. split; [done|].
  exists b, [InputJsonDelta j]. split; [done|]. split; [done|]. by exists j.
Qed.

Lemma started_thinking_delta i evs t :
  Started i (Some Thinking) evs ->
  Started i (Some Thinking) (evs ++ [ContentBlockDelta i (ThinkingDelta t)]).
Proof.
  intros (ms & body & open & -> & Hms & Hb & (b & ds & -> & Hty & [ts ->])).
  exists ms, body, (ContentBlockStart i b ::
    (ContentBlockDelta i <$> (ThinkingDelta <$> (ts ++ [t])))).
  split.
  { rewrite !fmap_app. simpl. by rewrite <- !app_assoc. }
  split; [done|]. split; [done|].
  exists b, (ThinkingDelta <$> (ts ++ [t])). split; [done|]. split; [done|].
  by eexists.
Qed.

Lemma started_text_delta i evs t :
  Started i (Some Text) evs ->
  Started i (Some Text) (evs ++ [ContentBlockDelta i (TextDelta t)]).
Proof.
  intros (ms & body & open & -> & Hms & Hb & (b & ds & -> & Hty & [ts ->])).
  exists ms, body, (ContentBlockStart i b ::
    (ContentBlockDelta i <$> (TextDelta <$> (ts ++ [t])))).
  split.
  { rewrite !fmap_app. simpl. by rewrite <- !app_assoc. }
  split; [done|]. split; [done|].
  exists b, (TextDelta <$> (ts ++ [t])). split; [done|]. split; [done|].
  by eexists.
Qed.

(** [flushSignature] followed by [closeBlock]: whatever was open is
    closed, and the index is the next free one. *)
Lemma flush_close_closed st evs :
  Started (blockIndex st) (currentBlockType st) evs ->
  let '(st1, sig) := flushSignature st in
  let '(st2, stop) := closeBlock st1 in
  Closed (blockIndex st2) (evs ++ sig ++ stop) /\
  hasEmittedStart st2 = hasEmittedStart st.
Proof.
  intros Hst. unfold flushSignature, closeBlock, isBlockType.
  destruct (currentBlockType st) as [ty|] eqn:Hty.
  - destruct (BlockType_eqb ty Thinking &&
              negb (isEmpty (currentThinkingSignature st))) eqn:Hflush;
      cbn [currentBlockType blockIndex withBlock hasEmittedStart]; rewrite ?Hty.
    + apply andb_true_iff in Hflush as [Hth _].
      split; [|done].
      apply (started_close _ ty _ [SignatureDelta (currentThinkingSignature st)]);
        [done|].
      right. split; [by destruct ty|by eexists].
    + split; [|done].
      apply (started_close _ ty _ []); [done|by left].
  - simpl. rewrite ?Hty. rewrite app_nil_r. split; [|done].
    by apply started_none_closed.
Qed.

Lemma flushSignature_not_thinking st :
  isBlockType st Thinking = false -> flushSignature st = (st, []).
Proof. intros H. unfold flushSignature. by rewrite H. Qed.

Lemma isBlockType_true st ty :
  isBlockType st ty = true -> currentBlockType st = Some ty.
Proof.
  unfold isBlockType. destruct (currentBlockType st) as [t|]; [|done].
  by destruct t, ty.
Qed.

Ltac state_fields :=
  cbn [blockIndex currentBlockType hasEmittedStart withBlock withCacheWrite
       withStopReason withDraw withStart withUsage] in *.

(** One part on which the body does not throw keeps the invariant. *)
Lemma processPart_started originalModel st part evs :
  throws (Some part) = false ->
  Started (blockIndex st) (currentBlockType st) evs ->
  let '(st', new, threw) := processPart originalModel st part in
  threw = false /\
  Started (blockIndex st') (currentBlockType st') (evs ++ new) /\
  hasEmittedStart st' = hasEmittedStart st.
Proof.
  intros Hclean Hst. unfold processPart. unfold throws in Hclean.
  destruct (isThought part) eqn:Hthought, (text part) as [| |txt] eqn:Htext.
  - (* a thought without text: only a function call counts *)
    destruct (functionCall part) as [| |fc]; [|done|].
    { rewrite app_nil_r. by repeat split. }
    pose proof (flush_close_closed st evs Hst) as Hclose.
    destruct (flushSignature st) as [st1 sig].
    destruct (closeBlock st1) as [st2 stop].
    destruct Hclose as [Hclosed Hstart].
    destruct (fc_id fc) as [i|];
      destruct (longEnough (signatureOf part)); state_fields;
      (split; [done|]); (split; [|done]);
      rewrite !app_assoc, <- (app_assoc evs);
      by apply closed_open_tool.
  - (* thinking, the text being null *)
    destruct (isBlockType st Thinking) eqn:Hth.
    + apply isBlockType_true in Hth as Hty. rewrite Hty in Hst.
      destruct (longEnough (signatureOf part)); state_fields;
        rewrite ?Hty; (split; [done|]); (split; [|done]);
        by apply started_thinking_delta.
    + pose proof (flush_close_closed st evs Hst) as Hclose.
      rewrite (flushSignature_not_thinking _ Hth) in Hclose.
      destruct (closeBlock st) as [st2 stop]. simpl in Hclose.
      destruct Hclose as [Hclosed Hstart].
      destruct (longEnough (signatureOf part)); state_fields;
        (split; [done|]); (split; [|done]); rewrite !app_assoc;
        apply started_thinking_delta;
        apply (closed_open _ _ (ThinkingBlock "")); [done|by exists []|done|by exists []].
  - (* thinking *)
    destruct (isBlockType st Thinking) eqn:Hth.
    + apply isBlockType_true in Hth as Hty. rewrite Hty in Hst.
      destruct (longEnough (signatureOf part)); state_fields;
        rewrite ?Hty; (split; [done|]); (split; [|done]);
        by apply started_thinking_delta.
    + pose proof (flush_close_closed st evs Hst) as Hclose.
      rewrite (flushSignature_not_thinking _ Hth) in Hclose.
      destruct (closeBlock st) as [st2 stop]. simpl in Hclose.
      destruct Hclose as [Hclosed Hstart].
      destruct (longEnough (signatureOf part)); state_fields;
        (split; [done|]); (split; [|done]); rewrite !app_assoc;
        apply started_thinking_delta;
        apply (closed_open _ _ (ThinkingBlock "")); [done|by exists []|done|by exists []].
  - (* neither thought nor text *)
    destruct (functionCall part) as [| |fc]; [|done|].
    { rewrite app_nil_r. by repeat split. }
    pose proof (flush_close_closed st evs Hst) as Hclose.
    destruct (flushSignature st) as [st1 sig].
    destruct (closeBlock st1) as [st2 stop].
    destruct Hclose as [Hclosed Hstart].
    destruct (fc_id fc) as [i|];
      destruct (longEnough (signatureOf part)); state_fields;
      (split; [done|]); (split; [|done]);
      rewrite !app_assoc, <- (app_assoc evs);
      by apply closed_open_tool.
  - (* a text that is null *)
    rewrite app_nil_r. by repeat split.
  - (* text *)
    destruct (isEmpty txt || (String.length (trim txt) =? 0)%nat).
    { rewrite app_nil_r. by repeat split. }
    destruct (isBlockType st Text) eqn:Htx.
    + apply isBlockType_true in Htx as Hty. rewrite Hty in Hst.
      state_fields. rewrite ?Hty. split; [done|]. split; [|done].
      by apply started_text_delta.
    + pose proof (flush_close_closed st evs Hst) as Hclose.
      destruct (flushSignature st) as [st1 sig].
      destruct (closeBlock st1) as [st2 stop].
      destruct Hclose as [Hclosed Hstart].
      state_fields. split; [done|]. split; [|done].
      rewrite !app_assoc, <- (app_assoc evs).
      apply started_text_delta.
      apply (closed_open _ _ (TextBlock "")); [done|by exists []].
Qed.

Lemma processParts_started originalModel ps st evs :
  Forall (fun part => throws (Some part) = false) (reached ps) ->
  Started (blockIndex st) (currentBlockType st) evs ->
  let '(st', new, threw) := processParts originalModel st ps in
  Started (blockIndex st') (currentBlockType st') (evs ++ new) /\
  hasEmittedStart st' = hasEmittedStart st.
Proof.
  revert st evs.
  induction ps as [|[part|] rest IH]; intros st evs Hclean Hst;
    cbn [processParts].
  - rewrite app_nil_r. by split.
  - assert (Hpart : throws (Some part) = false).
    { cbn [reached] in Hclean.
      destruct (throws (Some part)) eqn:Ht; [|done].
      apply Forall_cons in Hclean as [H _]. congruence. }
    cbn [reached] in Hclean. rewrite Hpart in Hclean.
    apply Forall_cons in Hclean as [_ Hclean].
    pose proof (processPart_started originalModel st part evs Hpart Hst) as H1.
    destruct (processPart originalModel st part) as [[st1 evs1] threw1].
    destruct H1 as (-> & Hst1 & Hs1).
    specialize (IH st1 (evs ++ evs1) Hclean Hst1).
    destruct (processParts originalModel st1 rest) as [[st2 evs2] threw2].
    destruct IH as [Hst2 Hs2]. rewrite app_assoc. split; [done|congruence].
  - rewrite app_nil_r. by split.
Qed.

Lemma StreamInvariant_fields st st' evs :
  hasEmittedStart st' = hasEmittedStart st ->
  blockIndex st' = blockIndex st ->
  currentBlockType st' = currentBlockType st ->
  StreamInvariant st evs -> StreamInvariant st' evs.
Proof. unfold StreamInvariant. by intros -> -> ->. Qed.

Lemma processData_invariant messageId originalModel st data evs :
  Forall (fun part => throws (Some part) = false) (reached (partsOf data)) ->
  StreamInvariant st evs ->
  let '(st', new) := processData messageId originalModel st data in
  StreamInvariant st' (evs ++ new).
Proof.
  intros Hclean Hinv. unfold processData.
  destruct (extractUsage_fields st data) as (Hs & Hi & Ht).
  apply (StreamInvariant_fields st (extractUsage st data)) in Hinv; [|done..].
  clear Hs Hi Ht. set (st0 := extractUsage st data) in *. clearbody st0.
  assert (Hfinish : forall (threw : bool) st1 evs1,
    StreamInvariant st1 evs1 ->
    StreamInvariant (if threw then st1 else checkFinishReason st1 data) evs1).
  { intros threw st1 evs1 H1. destruct threw; [done|].
    destruct (checkFinishReason_fields st1 data) as (Hs & Hi & Ht).
    by apply (StreamInvariant_fields st1). }
  unfold StreamInvariant in Hinv.
  destruct (hasEmittedStart st0) eqn:Hstart; cbn [negb andb].
  - pose proof (processParts_started originalModel (partsOf data) st0 evs
                  Hclean Hinv) as Hparts.
    destruct (processParts originalModel st0 (partsOf data))
      as [[st1 evs1] threw].
    destruct Hparts as [Hst1 Hs1].
    apply Hfinish. unfold StreamInvariant. by rewrite Hs1, Hstart.
  - destruct Hinv as (-> & Hty & Hidx).
    destruct (0 <? length (partsOf data))%nat eqn:Hlen.
    + assert (Hst : Started (blockIndex (withStart st0))
                      (currentBlockType (withStart st0))
                      [messageStart messageId originalModel st0]).
      { state_fields. rewrite Hty, Hidx.
        exists (messageStart messageId originalModel st0), [], [].
        split; [done|]. split; [done|]. split; [apply blocks_nil|done]. }
      pose proof (processParts_started originalModel (partsOf data)
                    (withStart st0) _ Hclean Hst) as Hparts.
      destruct (processParts originalModel (withStart st0) (partsOf data))
        as [[st1 evs1] threw].
      destruct Hparts as [Hst1 Hs1].
      apply Hfinish. unfold StreamInvariant. by rewrite Hs1.
    + destruct (partsOf data) as [|p ps]; [|done].
      cbn [processParts app]. apply (Hfinish false).
      unfold StreamInvariant. by rewrite Hstart.
Qed.

Lemma processPayloads_invariant messageId originalModel ds st evs :
  Forall (fun part => throws (Some part) = false) (allParts ds) ->
  StreamInvariant st evs ->
  let '(st', new) := processPayloads messageId originalModel st ds in
  StreamInvariant st' (evs ++ new).
Proof.
  revert st evs. induction ds as [|d rest IH]; intros st evs Hclean Hinv.
  - simpl. by rewrite app_nil_r.
  - unfold allParts in Hclean. rewrite fmap_cons in Hclean.
    cbn [concat] in Hclean. apply Forall_app in Hclean as [Hd Hrest].
    cbn [processPayloads].
    pose proof (processData_invariant messageId originalModel st d evs Hd Hinv)
      as Hdata.
    destruct (processData messageId originalModel st d) as [st1 evs1].
    specialize (IH st1 (evs ++ evs1) Hrest Hdata).
    destruct (processPayloads messageId originalModel st1 rest) as [st2 evs2].
    by rewrite app_assoc.
Qed.

Lemma finish_well_formed messageId originalModel st evs :
  StreamInvariant st evs ->
  WellFormed (evs ++ finish messageId originalModel st).
Proof.
  unfold StreamInvariant, finish.
  destruct (hasEmittedStart st); cbn [negb].
  - intros Hst.
    assert (Hclosed : exists i,
      Closed i (evs ++
        match currentBlockType st with
        | Some _ =>
          (if isBlockType st Thinking && negb (isEmpty (currentThinkingSignature st))
           then [ContentBlockDelta (blockIndex st)
                   (SignatureDelta (currentThinkingSignature st))]
           else []) ++ [ContentBlockStop (blockIndex st)]
        | None => []
        end)).
    { pose proof (flush_close_closed st evs Hst) as Hc.
      unfold flushSignature, closeBlock in Hc.
      destruct (currentBlockType st) as [ty|] eqn:Hty.
      - destruct (isBlockType st Thinking &&
                  negb (isEmpty (currentThinkingSignature st)));
          state_fields; rewrite ?Hty in Hc; destruct Hc as [Hc _]; by eexists.
      - unfold isBlockType in Hc. rewrite Hty in Hc. simpl in Hc.
        rewrite Hty in Hc. destruct Hc as [Hc _]. by eexists. }
    destruct Hclosed as [i (ms & body & Heq & Hms & Hb)].
    exists ms, body, (MessageDelta (stopReason st) (outputTokens st)
                        (cacheReadTokens st) 0), i.
    split; [|done]. rewrite app_assoc, Heq. done.
  - intros (-> & _ & _).
    exists (messageStart messageId originalModel st),
      [ContentBlockStart 0 (TextBlock "");
       ContentBlockDelta 0 (TextDelta "[No response received from API]");
       ContentBlockStop 0],
      (MessageDelta (stopReason st) (outputTokens st) (cacheReadTokens st) 0),
      1%nat.
    split; [done|]. split; [done|]. split; [done|].
    rewrite <- (app_nil_r [ContentBlockStart 0 (TextBlock ""); _; _]).
    apply blocks_cons; [|apply blocks_nil].
    exists (TextBlock ""), [TextDelta "[No response received from API]"].
    split; [done|].
    exists [TextDelta "[No response received from API]"], [].
    split; [done|]. split; [by exists ["[No response received from API]"]|by left].
Qed.

End StreamShape.

(** ** The SSE translator: streams without parts, and usage *)
Section StreamPayloads.

Import SSE.
Context {K : Constants} {R : Runtime}.

(** Payloads without parts yield nothing and leave the start pending. *)
Lemma processPayloads_noParts messageId originalModel ds st :
  Forall noParts ds ->
  hasEmittedStart st = false ->
  exists st',
    processPayloads messageId originalModel st ds = (st', []) /\
    hasEmittedStart st' = false.
Proof.
  intros Hds. revert st.
  induction Hds as [|d rest Hd Hrest IH]; intros st Hstart; simpl.
  - by exists st.
  - unfold processData. unfold noParts in Hd. rewrite Hd.
    destruct (extractUsage_fields st d) as (Hs & _ & _).
    rewrite Hs, Hstart. simpl.
    destruct (checkFinishReason_fields (extractUsage st d) d) as (Hs' & _ & _).
    destruct (IH (checkFinishReason (extractUsage st d) d)) as [st' [Hrun Hst']].
    { by rewrite Hs', Hs. }
    rewrite Hrun. by exists st'.
Qed.

(** C8, as the code has it.  When no payload of the stream has parts, the
    translator raises nothing and yields exactly six events: a
    [message_start], a text block at index 0 that is opened empty and gets
    one text delta carrying the placeholder
    "[No response received from API]", that block's stop, a
    [message_delta] and [message_stop]. *)
Theorem streamSSEResponse_no_parts
    (chunks : list string) (originalModel : string) :
  Forall noParts (payloads chunks) ->
  exists id inputTokens outputTokens cacheRead stop,
    streamSSEResponse chunks originalModel =
    [ MessageStart id originalModel inputTokens 0 cacheRead 0;
      ContentBlockStart 0 (TextBlock "");
      ContentBlockDelta 0 (TextDelta "[No response received from API]");
      ContentBlockStop 0;
      MessageDelta stop outputTokens cacheRead 0;
      MessageStop ].
Proof.
  intros Hnone. rewrite streamSSEResponse_payloads. cbv zeta.
  destruct (processPayloads_noParts ("msg_" +:+ randomHex 16 0) originalModel
              (payloads chunks) initialState Hnone eq_refl) as [st [-> Hstart]].
  unfold finish. rewrite Hstart. simpl.
  by eexists _, _, _, _, _.
Qed.

End StreamPayloads.

(** ** The usage reported by [message_start], in general *)
Section ObservedUsage.

Import SSE.
Context {K : Constants} {R : Runtime}.

Lemma latestFrom_extractUsage st d rest f g :
  (forall u, g (withUsage st
                  (orElse (promptTokenCount u) (inputTokens st))
                  (orElse (candidatesTokenCount u) (outputTokens st))
                  (orElse (cachedContentTokenCount u) (cacheReadTokens st)))
             = orElse (f u) (g st)) ->
  latestFrom f (g st) (d :: rest) = latestFrom f (g (extractUsage st d)) rest.
Proof.
  intros Hg. unfold latestFrom, extractUsage. simpl.
  destruct (usageMetadata (innerResponse d)) as [u|]; [|done].
  by rewrite Hg.
Qed.

Lemma checkFinishReason_usage st d :
  inputTokens (checkFinishReason st d) = inputTokens st /\
  cacheReadTokens (checkFinishReason st d) = cacheReadTokens st.
Proof. unfold checkFinishReason. repeat (case_match; try done). Qed.

(** From a state in which the start is pending, the first event that the
    translator yields, during the loop or at the end, is the
    [message_start] with the usage observed up to the first payload with
    parts. *)
Lemma first_event_usage messageId originalModel ds st :
  hasEmittedStart st = false ->
  let '(st', evs) := processPayloads messageId originalModel st ds in
  exists rest,
    evs ++ finish messageId originalModel st' =
    MessageStart messageId originalModel
      (latestFrom promptTokenCount (inputTokens st) (uptoFirstParts ds) -
       latestFrom cachedContentTokenCount (cacheReadTokens st) (uptoFirstParts ds))
      0
      (latestFrom cachedContentTokenCount (cacheReadTokens st) (uptoFirstParts ds))
      0 :: rest.
Proof.
  revert st. induction ds as [|d ds IH]; intros st Hstart.
  - simpl. unfold finish. rewrite Hstart. simpl. by eexists.
  - cbn [processPayloads uptoFirstParts].
    unfold processData.
    destruct (extractUsage_fields st d) as (Hs & _ & _).
    rewrite Hs, Hstart.
    destruct (partsOf d) as [|part ps] eqn:Hparts.
    + cbn [negb andb length Nat.ltb Nat.leb processParts app].
      destruct (checkFinishReason_fields (extractUsage st d) d) as (Hs' & _ & _).
      destruct (checkFinishReason_usage (extractUsage st d) d) as (Hin & Hcache).
      specialize (IH (checkFinishReason (extractUsage st d) d)).
      rewrite Hs', Hs, Hin, Hcache in IH. specialize (IH Hstart).
      destruct (processPayloads _ _ _ ds) as [st' evs].
      rewrite (latestFrom_extractUsage st d _ promptTokenCount inputTokens)
        by done.
      by rewrite (latestFrom_extractUsage st d _ cachedContentTokenCount
                    cacheReadTokens) by done.
    + cbn [negb andb length Nat.ltb Nat.leb].
      destruct (processParts originalModel (withStart (extractUsage st d))
                  (part :: ps)) as [[st1 evs1] threw].
      destruct (processPayloads _ _ _ ds) as [st' evs].
      rewrite (latestFrom_extractUsage st d [] promptTokenCount inputTokens)
        by done.
      rewrite (latestFrom_extractUsage st d [] cachedContentTokenCount
                 cacheReadTokens) by done.
      unfold messageStart, latestFrom. simpl. by eexists.
Qed.

(** For every stream, [message_start] reports [input_tokens = P - C] and
    [cache_read_input_tokens = C], where [P] and [C] are the latest
    [promptTokenCount] and [cachedContentTokenCount] among the payloads up
    to the first one with parts, 0 when there is none. *)
Lemma message_start_usage chunks originalModel :
  let seen := uptoFirstParts (payloads chunks) in
  exists id rest,
    streamSSEResponse chunks originalModel =
    MessageStart id originalModel
      (latestFrom promptTokenCount 0 seen - latestFrom cachedContentTokenCount 0 seen)
      0 (latestFrom cachedContentTokenCount 0 seen) 0 :: rest.
Proof.
  rewrite streamSSEResponse_payloads. cbv zeta.
  pose proof (first_event_usage ("msg_" +:+ randomHex 16 0) originalModel
                (payloads chunks) initialState eq_refl) as H.
  destruct (processPayloads _ _ _ _) as [st evs].
  destruct H as [rest H]. by eexists _, _.
Qed.

End ObservedUsage.

(** ** Usage arithmetic *)
Section UsageFacts.

Import SSE OpenAI.
Context {K : Constants} {R : Runtime}.

(** C6, as the code has it.  [message_start] is minted when the first
    payload with parts arrives (at the end of the stream when there is
    none), from the counters as they stand then: it reports
    [input_tokens = P - C] and [cache_read_input_tokens = C], where [P] is
    the latest [promptTokenCount] and [C] the latest
    [cachedContentTokenCount] among the payloads up to and including that
    one, 0 when none of them carries the count.  Usage metadata that
    arrives later does not reach [input_tokens].  The OpenAI conversion
    reports [total_tokens = prompt_tokens + completion_tokens], where
    [prompt_tokens] is the response's input tokens plus its cache-read
    tokens and [completion_tokens] its output tokens, a count that is
    missing being 0. *)
Theorem usage_arithmetic
    (chunks : list string) (originalModel : string)
    (anthropicResponse : AnthropicResponse) (model : string) (now : Z) :
  let seen := uptoFirstParts (payloads chunks) in
  let P := latestFrom promptTokenCount 0 seen in
  let C := latestFrom cachedContentTokenCount 0 seen in
  (exists id rest,
     streamSSEResponse chunks originalModel =
     MessageStart id originalModel (P - C) 0 C 0 :: rest) /\
  (let usage := cc_usage (convertToOpenAI anthropicResponse model now) in
   let count (field : AnthropicUsage -> option Z) :=
     match OpenAI.usage anthropicResponse with
     | Some u => match field u with Some n => n | None => 0 end
     | None => 0
     end in
   total_tokens usage = prompt_tokens usage + completion_tokens usage /\
   prompt_tokens usage = count input_tokens + count cache_read_input_tokens /\
   completion_tokens usage = count output_tokens).
Proof.
  cbv zeta. split.
  - apply message_start_usage.
  - unfold convertToOpenAI.
    destruct (collect _ _ _ _) as [[textContent toolCalls] n].
    done.
Qed.

End UsageFacts.

(** ** The persisted configuration *)
Section StorageFacts.

Import Storage.

Lemma lookup_setField_eq k v (o : gmap string JSON) :
  setField k v o !! k = match v with Some x => Some x | None => o !! k end.
Proof. destruct v; simpl; [apply lookup_insert_eq|done]. Qed.

Lemma lookup_setField_ne k k' v (o : gmap string JSON) :
  k <> k' -> setField k v o !! k' = o !! k'.
Proof. intros Hne. destruct v; simpl; [by apply lookup_insert_ne|done]. Qed.

Lemma nullish_idem v d : nullish (Some (nullish v d)) d = nullish v d.
Proof. destruct v as [[]|]; simpl; try done; by destruct d. Qed.

Lemma asObjects_objects (os : list (gmap string JSON)) :
  asObjects (JObj <$> os) = Some os.
Proof.
  induction os as [|o os IH]; [done|].
  rewrite fmap_cons. simpl. by rewrite IH.
Qed.

Ltac read_fields :=
  repeat first
    [ rewrite lookup_setField_eq
    | rewrite lookup_insert_eq
    | rewrite lookup_setField_ne by (first [done | congruence])
    | rewrite lookup_insert_ne by (first [done | congruence]) ].

(** What is read back, key by key, from an account that was saved. *)
Lemma reloaded_field (acc : gmap string JSON) (k : string) :
  loadAccount (saveAccount acc) !! k = persistedField acc k.
Proof.
  unfold persistedField.
  destruct (String.eqb_spec k "modelRateLimits") as [->|H1].
  { unfold loadAccount. rewrite lookup_insert_eq. f_equal.
    unfold saveAccount. read_fields. apply nullish_idem. }
  destruct (String.eqb_spec k "invalidReason") as [->|H2].
  { unfold loadAccount. by read_fields. }
  destruct (String.eqb_spec k "isInvalid") as [->|H3].
  { unfold loadAccount. by read_fields. }
  destruct (String.eqb_spec k "lastUsed") as [->|H4].
  { unfold loadAccount. read_fields. f_equal.
    unfold saveAccount. read_fields.
    by destruct (acc !! "lastUsed"). }
  unfold loadAccount. read_fields. unfold saveAccount.
  destruct (String.eqb_spec k "dbPath") as [->|H5].
  { by read_fields. }
  destruct (String.eqb_spec k "refreshToken") as [->|H6].
  { read_fields.
    destruct (hasSource acc "oauth"); [|by rewrite lookup_empty].
    destruct (acc !! "refreshToken"); [done|].
    read_fields. by rewrite lookup_empty. }
  destruct (String.eqb_spec k "apiKey") as [->|H7].
  { read_fields.
    destruct (hasSource acc "manual"); [|by rewrite lookup_empty].
    destruct (acc !! "apiKey"); [done|].
    read_fields. by rewrite lookup_empty. }
  destruct (String.eqb_spec k "email") as [->|H8].
  { read_fields. destruct (acc !! "email"); [done|].
    read_fields. by rewrite lookup_empty. }
  destruct (String.eqb_spec k "source") as [->|H9].
  { read_fields. destruct (acc !! "source"); [done|].
    read_fields. by rewrite lookup_empty. }
  destruct (String.eqb_spec k "projectId") as [->|H10].
  { read_fields. destruct (acc !! "projectId"); [done|].
    read_fields. by rewrite lookup_empty. }
  destruct (String.eqb_spec k "addedAt") as [->|H11].
  { read_fields. destruct (acc !! "addedAt"); [done|].
    read_fields. by rewrite lookup_empty. }
  read_fields. by rewrite lookup_empty.
Qed.

(** C7, as the code has it.  Saving a pool and loading it again gives, for
    every account, an object that holds exactly the fields the save writes:
    [email], [source], [projectId] and [addedAt] as they were; [dbPath] and
    [lastUsed] with null for an absent value; [modelRateLimits] with the
    empty record for an absent one; [refreshToken] only for an OAuth
    account and [apiKey] only for a manual one; [isInvalid] and
    [invalidReason] reset to false and null by the load.  Every other field
    of the account is gone.  The settings come back as they were and the
    active index comes back clamped. *)
Theorem save_then_load
    (configPath : string) (accs : list (gmap string JSON)) (sett : JSON)
    (index : Z) (disk : gmap string FileContent) :
  let r := loadAccounts configPath
             (saveAccounts configPath accs sett index disk) in
  accounts r = (fun acc => loadAccount (saveAccount acc)) <$> accs /\
  (forall acc k, loadAccount (saveAccount acc) !! k = persistedField acc k) /\
  settings r = nullish (Some sett) (JObj ∅) /\
  activeIndex r = if Z.of_nat (length accs) <=? index then 0 else index.
Proof.
  cbv zeta. unfold loadAccounts, saveAccounts, savedConfig.
  rewrite lookup_insert_eq. read_fields.
  cbn [nullish].
  assert (Hobjs :
    asObjects ((fun acc => JObj (saveAccount acc)) <$> accs)
    = Some (saveAccount <$> accs)).
  { rewrite <- asObjects_objects. f_equal. by rewrite <- list_fmap_compose. }
  rewrite Hobjs. cbn [accounts settings activeIndex].
  rewrite !length_fmap, <- list_fmap_compose.
  repeat split; try done.
  intros acc k. apply reloaded_field.
Qed.

End StorageFacts.

Section StorageExamples.

Import Storage.

(** C7 as stated fails: a config file with a field of its own at the top
    level and one inside its account loses both when it is loaded and
    saved again, while the fields the core knows stay. *)
Lemma unknown_fields_dropped_by_save :
  fieldOf "theme" Sample.configFile = Some (JStr "dark") /\
  firstAccountField "nickname" Sample.configFile = Some (JStr "work") /\
  exists file',
    loadThenSave "accounts.json" Sample.configFile = Some (Parsed file') /\
    fieldOf "theme" file' = None /\
    firstAccountField "nickname" file' = None /\
    firstAccountField "email" file' = Some (JStr "a@example.com").
Proof.
  split; [reflexivity|]. split; [reflexivity|].
  eexists. split; [vm_compute; reflexivity|].
  vm_compute. repeat split.
Qed.

End StorageExamples.

Section StreamExamples.

Import SSE OpenAI.

(** C8 as stated fails: the synthesized block is opened with empty text
    but is not an empty-text block; it carries the placeholder. *)
Lemma empty_stream_carries_placeholder :
  let evs := streamSSEResponse (K := Sample.constants) (R := Sample.runtime)
               [] "m" in
  evs = [ MessageStart "msg_0" "m" 0 0 0 0;
          ContentBlockStart 0 (TextBlock "");
          ContentBlockDelta 0 (TextDelta "[No response received from API]");
          ContentBlockStop 0;
          MessageDelta "end_turn" 0 0 0;
          MessageStop ] /\
  textOfBlock 0 evs = "[No response received from API]".
Proof. vm_compute. split; reflexivity. Qed.

(** C8, as the code has it, on a stream whose only payload has usage
    metadata and no parts. *)
Lemma streamSSEResponse_no_parts_witness :
  exists id inputTokens outputTokens cacheRead stop,
    streamSSEResponse (K := Sample.constants) (R := Sample.runtime)
      [Sample.line "data: usage"; "data: te"] "m" =
    [ MessageStart id "m" inputTokens 0 cacheRead 0;
      ContentBlockStart 0 (TextBlock "");
      ContentBlockDelta 0 (TextDelta "[No response received from API]");
      ContentBlockStop 0;
      MessageDelta stop outputTokens cacheRead 0;
      MessageStop ].
Proof.
  apply (streamSSEResponse_no_parts (K := Sample.constants)
           (R := Sample.runtime) [Sample.line "data: usage"; "data: te"] "m").
  vm_compute. repeat constructor.
Defined.

(** C6 as stated fails: when the usage metadata arrives after the first
    payload with parts, [message_start] has been yielded already, from
    counters that are still 0.  The stream below carries
    [promptTokenCount = 100] and [cachedContentTokenCount = 30] in its
    second payload; the reported [input_tokens] is 0, not 70. *)
Lemma input_tokens_before_usage :
  let chunks := [Sample.line "data: text"; Sample.line "data: usage"] in
  let evs := streamSSEResponse (K := Sample.constants) (R := Sample.runtime)
               chunks "m" in
  payloads (R := Sample.runtime) chunks =
    [ Sample.payloadOf None
        (Some [Sample.textPart "Hello"; Sample.textPart " world"]) None;
      Sample.payloadOf (Some (Sample.usage 100 30 0)) None None ] /\
  promptTokenCount (Sample.usage 100 30 0) = Some 100 /\
  cachedContentTokenCount (Sample.usage 100 30 0) = Some 30 /\
  evs = [ MessageStart "msg_0" "m" 0 0 0 0;
          ContentBlockStart 0 (TextBlock "");
          ContentBlockDelta 0 (TextDelta "Hello");
          ContentBlockDelta 0 (TextDelta " world");
          ContentBlockStop 0;
          MessageDelta "end_turn" 0 30 0;
          MessageStop ] /\
  (forall id o cr cc rest,
     evs <> MessageStart id "m" (100 - 30) o cr cc :: rest).
Proof.
  cbv zeta.
  assert (Hevs :
    streamSSEResponse (K := Sample.constants) (R := Sample.runtime)
      [Sample.line "data: text"; Sample.line "data: usage"] "m" =
    [ MessageStart "msg_0" "m" 0 0 0 0;
      ContentBlockStart 0 (TextBlock "");
      ContentBlockDelta 0 (TextDelta "Hello");
      ContentBlockDelta 0 (TextDelta " world");
      ContentBlockStop 0;
      MessageDelta "end_turn" 0 30 0;
      MessageStop ]) by (vm_compute; reflexivity).
  split; [vm_compute; reflexivity|].
  split; [reflexivity|]. split; [reflexivity|]. split; [exact Hevs|].
  intros id o cr cc rest. rewrite Hevs. intros H. inversion H.
Defined.

(** C6, as the code has it, on a sample: usage arrives with a payload
    without parts, then a thought part. *)
Example usage_arithmetic_sample :
  exists rest,
    streamSSEResponse (K := Sample.constants) (R := Sample.runtime)
      [Sample.line "data: usage"; Sample.line "data: think"] "m" =
    MessageStart "msg_0" "m" (100 - 30) 0 30 0 :: rest.
Proof. eexists. vm_compute. reflexivity. Qed.

(** A stream with a thinking block, a text block split over two chunks and
    a tool call: three blocks, indices 0, 1, 2, the signature delta right
    before the stop of the thinking block.  The unfinished last line is
    never processed. *)
Example stream_sample :
  streamSSEResponse (K := Sample.constants) (R := Sample.runtime)
    [ Sample.line "data: think" +:+ "data: te";
      Sample.line "xt" +:+ Sample.line "" +:+ Sample.line "data: tool";
      Sample.line "data: done" +:+ "data: text" ] "m" =
  [ MessageStart "msg_0" "m" 70 0 30 0;
    ContentBlockStart 0 (ThinkingBlock "");
    ContentBlockDelta 0 (ThinkingDelta "Let me see");
    ContentBlockDelta 0 (SignatureDelta Sample.signature60);
    ContentBlockStop 0;
    ContentBlockStart 1 (TextBlock "");
    ContentBlockDelta 1 (TextDelta "Hello");
    ContentBlockDelta 1 (TextDelta " world");
    ContentBlockStop 1;
    ContentBlockStart 2 (ToolUseBlock "toolu_1" "lookup" "{}" None);
    ContentBlockDelta 2 (InputJsonDelta "{}");
    ContentBlockStop 2;
    MessageDelta "max_tokens" 7 30 0;
    MessageStop ].
Proof. vm_compute. reflexivity. Qed.

Example convertToOpenAI_sample :
  let r := convertToOpenAI (R := Sample.runtime) Sample.sampleResponse "gpt" 5000 in
  cc_usage r = {| prompt_tokens := 100; completion_tokens := 7;
                  total_tokens := 107 |} /\
  cc_finish_reason r = "tool_calls" /\
  cc_content r = Some "Hello".
Proof. vm_compute. repeat split. Qed.

End StreamExamples.

(** ** Consequences of the shape, in the words of the specification *)
Section ShapeConsequences.

Import SSE.

Lemma startIndices_app evs1 evs2 :
  startIndices (evs1 ++ evs2) = startIndices evs1 ++ startIndices evs2.
Proof.
  induction evs1 as [|e evs1 IH]; [done|].
  destruct e; simpl; by rewrite ?IH.
Qed.

Lemma stopIndices_app evs1 evs2 :
  stopIndices (evs1 ++ evs2) = stopIndices evs1 ++ stopIndices evs2.
Proof.
  induction evs1 as [|e evs1 IH]; [done|].
  destruct e; simpl; by rewrite ?IH.
Qed.

Lemma startIndices_deltas i ds : startIndices (ContentBlockDelta i <$> ds) = [].
Proof. induction ds; simpl; auto. Qed.

Lemma stopIndices_deltas i ds : stopIndices (ContentBlockDelta i <$> ds) = [].
Proof. induction ds; simpl; auto. Qed.

Lemma existsb_start_deltas i ds :
  existsb isMessageStartb (ContentBlockDelta i <$> ds) = false.
Proof. induction ds; simpl; auto. Qed.

Lemma isBlock_indices i b :
  isBlock i b ->
  startIndices b = [i] /\ stopIndices b = [i] /\
  existsb isMessageStartb b = false.
Proof.
  intros (blk & ds & -> & _). simpl.
  rewrite startIndices_app, stopIndices_app, startIndices_deltas,
    stopIndices_deltas, existsb_app, existsb_start_deltas.
  done.
Qed.

Lemma blocks_indices i j evs :
  blocks i j evs ->
  (i <= j)%nat /\
  startIndices evs = seq i (j - i) /\ stopIndices evs = seq i (j - i) /\
  existsb isMessageStartb evs = false.
Proof.
  induction 1 as [i|i j b rest Hb Hrest IH].
  - rewrite Nat.sub_diag. repeat split; done.
  - destruct IH as (Hle & Hs & Hp & Hm).
    destruct (isBlock_indices i b Hb) as (Hbs & Hbp & Hbm).
    rewrite startIndices_app, stopIndices_app, existsb_app, Hbs, Hbp, Hs, Hp,
      Hbm, Hm.
    replace (j - i)%nat with (S (j - S i)) by lia.
    repeat split; try done. lia.
Qed.

(** In a block, a signature delta can only be the last delta. *)
Lemma signaturesBeforeStop_deltas i ds rest :
  (forall d, d ∈ ds -> forall s, d <> SignatureDelta s) ->
  signaturesBeforeStop ((ContentBlockDelta i <$> ds) ++ rest) =
  signaturesBeforeStop rest.
Proof.
  induction ds as [|d ds IH]; intros Hno; [done|].
  rewrite fmap_cons. simpl.
  destruct d as [t|s|t|j]; try (apply IH; intros d' Hd'; apply Hno;
    by apply list_elem_of_further).
  exfalso. by apply (Hno (SignatureDelta s) (list_elem_of_here _ _) s).
Qed.

Lemma openDeltas_no_signature ty ds :
  openDeltas ty ds -> forall d, d ∈ ds -> forall s, d <> SignatureDelta s.
Proof.
  destruct ty; simpl.
  - intros [ts ->] d Hd s. apply list_elem_of_fmap in Hd as [t [-> _]]. done.
  - intros [ts ->] d Hd s. apply list_elem_of_fmap in Hd as [t [-> _]]. done.
  - intros [j ->] d Hd s. apply list_elem_of_singleton in Hd as ->. done.
Qed.

Lemma isBlock_signatures i b rest :
  isBlock i b ->
  signaturesBeforeStop (b ++ rest) = signaturesBeforeStop rest.
Proof.
  intros (blk & ds & -> & (ds0 & sig & -> & Hopen & Hsig)).
  simpl. rewrite fmap_app, <- !app_assoc.
  pose proof (openDeltas_no_signature _ _ Hopen) as Hno.
  rewrite (signaturesBeforeStop_deltas i ds0 _ Hno).
  destruct Hsig as [-> | [_ [s ->]]]; simpl; [done|].
  by rewrite Nat.eqb_refl.
Qed.

Lemma blocks_signatures i j evs rest :
  blocks i j evs ->
  signaturesBeforeStop (evs ++ rest) = signaturesBeforeStop rest.
Proof.
  induction 1 as [i|i j b more Hb Hmore IH]; [done|].
  rewrite <- app_assoc. by rewrite (isBlock_signatures i b _ Hb).
Qed.

(** What the shape says, event by event: the first event is the only
    [message_start]; the blocks opened are numbered 0, 1, ..., n-1 in this
    order and the blocks closed are the same, in the same order; every
    signature delta is immediately followed by the stop of its block; the
    last two events are [message_delta] and [message_stop]. *)
Lemma WellFormed_consequences evs :
  WellFormed evs ->
  exists ms rest md n,
    evs = ms :: rest ++ [md; MessageStop] /\
    isMessageStart ms /\ isMessageDelta md /\
    existsb isMessageStartb (rest ++ [md; MessageStop]) = false /\
    startIndices evs = seq 0 n /\
    stopIndices evs = seq 0 n /\
    signaturesBeforeStop evs = true.
Proof.
  intros (ms & body & md & n & -> & Hms & Hmd & Hblocks).
  destruct (blocks_indices 0 n body Hblocks) as (_ & Hs & Hp & Hm).
  rewrite Nat.sub_0_r in Hs, Hp.
  exists ms, body, md, n.
  destruct ms; try done. destruct md; try done.
  simpl. rewrite startIndices_app, stopIndices_app, existsb_app, Hs, Hp, Hm.
  rewrite (blocks_signatures 0 n body _ Hblocks).
  simpl. rewrite !app_nil_r. done.
Qed.

End ShapeConsequences.

(** ** A function call that is null *)
Section NullFunctionCall.

Import SSE.

(** C2 fails on the code.  For a payload whose parts are a text part and
    [{ "functionCall": null }], the translator closes the text block, moves
    on to index 1 and records a tool-use block as current, and then throws
    on [part.functionCall.id] before it has started that block; the [catch]
    swallows the error.  At the end of the stream the block recorded as
    current is closed: the events hold a [content_block_stop] with index 1
    and no [content_block_start] with that index, so the blocks are not
    bracketed. *)
Theorem streamSSEResponse_stop_without_start :
  let evs := streamSSEResponse (K := Sample.constants) (R := Sample.runtime)
               [Sample.line "data: nullcall"] "m" in
  JSON_parse (Runtime := Sample.runtime) "nullcall" =
    Some (Sample.payloadOf None
            (Some [Sample.textPart "hi"; Sample.nullCallPart]) (Some "STOP")) /\
  evs = [ MessageStart "msg_0" "m" 0 0 0 0;
          ContentBlockStart 0 (TextBlock "");
          ContentBlockDelta 0 (TextDelta "hi");
          ContentBlockStop 0;
          ContentBlockStop 1;
          MessageDelta "tool_use" 0 0 0;
          MessageStop ] /\
  startIndices evs = [0%nat] /\
  stopIndices evs = [0%nat; 1%nat] /\
  ~ WellFormed evs.
Proof.
  cbv zeta.
  assert (Hevs :
    streamSSEResponse (K := Sample.constants) (R := Sample.runtime)
      [Sample.line "data: nullcall"] "m" =
    [ MessageStart "msg_0" "m" 0 0 0 0;
      ContentBlockStart 0 (TextBlock "");
      ContentBlockDelta 0 (TextDelta "hi");
      ContentBlockStop 0;
      ContentBlockStop 1;
      MessageDelta "tool_use" 0 0 0;
      MessageStop ]) by (vm_compute; reflexivity).
  rewrite Hevs. split; [reflexivity|]. split; [reflexivity|].
  split; [reflexivity|]. split; [reflexivity|].
  intros Hwf.
  destruct (WellFormed_consequences _ Hwf)
    as (ms & rest & md & n & _ & _ & _ & _ & Hstarts & Hstops & _).
  cbn in Hstarts, Hstops.
  destruct n as [|[|n]]; cbn in Hstarts, Hstops; congruence.
Qed.

End NullFunctionCall.

(* ===================================================================== *)
(** * Part III.  Further properties of the code                           *)
(* ===================================================================== *)

(** ** The pool: availability and the sweep of expired limits *)
Section PoolAvailability.

Import RateLimits Selection Pool.
Context {K : Constants}.

Lemma truthy_Some m : m <> "" -> JS.truthy (Some m) = Some m.
Proof. intros Hm. simpl. by destruct (String.eqb_spec m ""). Qed.

Lemma isAvailable_unavailableForb m now acc :
  m <> "" ->
  isAvailable (Some m) now acc = negb (unavailableForb m now acc).
Proof.
  intros Hm. unfold isAvailable, unavailableForb.
  rewrite (truthy_Some m Hm).
  destruct (isInvalid acc); [done|].
  by destruct (modelRateLimits acc !! m).
Qed.

(** X1.  For a model id that is not the empty string, the pool is
    rate-limited throughout exactly when [getAvailableAccounts] finds nobody
    for that model. *)
Theorem isAllRateLimited_iff_none_available
    (accounts : list Account) (m : string) (now : Z) :
  m <> "" ->
  isAllRateLimited accounts (Some m) now = true <->
  getAvailableAccounts accounts (Some m) now = [].
Proof.
  intros Hm. split; [apply isAllRateLimited_none_available|].
  intros Hnone.
  rewrite (isAllRateLimited_truthy _ _ m _ (truthy_Some m Hm)).
  apply forallb_forall. intros a Ha.
  unfold getAvailableAccounts in Hnone. rewrite filter_nil_iff in Hnone.
  specialize (Hnone a (proj2 (list_elem_of_In _ _) Ha)).
  rewrite (isAvailable_unavailableForb _ _ _ Hm) in Hnone.
  by destruct (unavailableForb m now a).
Qed.

Lemma clearLimit_fixed now limit :
  clearLimit now limit = limit <-> limitExpired now limit = false.
Proof.
  unfold clearLimit. destruct (limitExpired now limit) eqn:He.
  - split; [|done]. intros Heq.
    unfold limitExpired in He. apply andb_true_iff in He as [Hr _].
    rewrite <- Heq in Hr. done.
  - done.
Qed.

Lemma countExpired_zero now (m : gmap string ModelRateLimit) :
  countExpired now m = 0%nat <->
  forall k limit, m !! k = Some limit -> limitExpired now limit = false.
Proof.
  unfold countExpired.
  apply (map_fold_weak_ind (fun n (m : gmap string ModelRateLimit) =>
    n = 0%nat <->
    forall k limit, m !! k = Some limit -> limitExpired now limit = false)).
  - split; [|done]. intros _ k limit Hk. by rewrite lookup_empty in Hk.
  - intros k limit m0 n Hfresh IH.
    destruct (limitExpired now limit) eqn:He.
    + split; [done|]. intros H.
      specialize (H k limit (lookup_insert_eq _ _ _)). congruence.
    + rewrite IH. split.
      * intros H k' limit' Hk'.
        destruct (decide (k = k')) as [<-|Hne].
        -- rewrite lookup_insert_eq in Hk'. by simplify_eq.
        -- rewrite lookup_insert_ne in Hk' by done. by eapply H.
      * intros H k' limit' Hk'. apply (H k').
        rewrite lookup_insert_ne; [done|]. intros <-. congruence.
Qed.

Lemma sweepAccount_fixed now acc :
  sweepAccount now acc = acc <-> countExpired now (modelRateLimits acc) = 0%nat.
Proof.
  rewrite countExpired_zero. split.
  - intros Heq k limit Hk.
    apply (f_equal modelRateLimits) in Heq. simpl in Heq.
    apply (f_equal (lookup k)) in Heq. rewrite lookup_fmap, Hk in Heq.
    simpl in Heq. apply clearLimit_fixed. congruence.
  - intros H. destruct acc as [e s d r a p i ir ia lim lu].
    unfold sweepAccount, set_modelRateLimits. simpl in *. f_equal.
    apply map_eq. intros k. rewrite lookup_fmap.
    destruct (lim !! k) as [limit|] eqn:Hk; simpl; [|done].
    f_equal. apply clearLimit_fixed. by eapply H.
Qed.

Lemma clearExpiredLimits_zero accounts now :
  (clearExpiredLimits accounts now).2 = 0%nat <->
  (clearExpiredLimits accounts now).1 = accounts.
Proof.
  unfold clearExpiredLimits. cbn [fst snd].
  induction accounts as [|a l IH]; [done|].
  rewrite fmap_cons. cbn [foldr]. split.
  - intros H.
    assert (countExpired now (modelRateLimits a) = 0%nat) as Ha by lia.
    f_equal; [by apply sweepAccount_fixed|]. apply IH. lia.
  - intros [= Ha Hl]. apply sweepAccount_fixed in Ha. apply IH in Hl. lia.
Qed.

(** X2.  [clearExpiredLimits] reports zero exactly when it changed no
    account, and the account manager asks for a save exactly when the sweep
    changed something: with nothing to clear the manager's state is the one
    before the call. *)
Theorem clearExpiredLimits_saves_iff_changed
    (now : Z) (st : AccountManager.State) :
  let run := AccountManager.clearExpiredLimits now st in
  (run.1 = 0%nat <->
   AccountManager.accounts run.2 = AccountManager.accounts st) /\
  (run.1 = 0%nat -> run.2 = st) /\
  (run.1 <> 0%nat ->
   AccountManager.saves run.2 = S (AccountManager.saves st)).
Proof.
  cbv zeta. unfold AccountManager.clearExpiredLimits.
  pose proof (clearExpiredLimits_zero (AccountManager.accounts st) now) as Hz.
  destruct (clearExpiredLimits (AccountManager.accounts st) now)
    as [accs cleared] eqn:Hrun.
  cbn [fst snd] in *.
  destruct cleared as [|n]; cbn [Nat.ltb Nat.leb fst snd].
  - split; [|split; [|done]].
    + split; [intros _; by apply Hz|done].
    + intros _. destruct st. unfold AccountManager.with_accounts.
      simpl in *. f_equal. by apply Hz.
  - split; [|split; [done|]].
    + split; [done|]. simpl. intros H. by apply Hz in H.
    + intros _. simpl. lia.
Qed.

(** X3.  Sweeping twice at the same time is sweeping once: the second call
    finds nothing to clear and returns the pool it was given. *)
Theorem clearExpiredLimits_idempotent (accounts : list Account) (now : Z) :
  clearExpiredLimits (clearExpiredLimits accounts now).1 now =
  ((clearExpiredLimits accounts now).1, 0%nat).
Proof.
  pose proof (clearExpiredLimits_idem accounts now) as Hidem.
  pose proof (clearExpiredLimits_zero (clearExpiredLimits accounts now).1 now) as Hz.
  destruct (clearExpiredLimits (clearExpiredLimits accounts now).1 now)
    as [accs n]. simpl in *. subst accs. f_equal. by apply Hz.
Qed.

Lemma limitActive_clearLimit_later now t limit :
  now <= t -> limitActive t (clearLimit now limit) = limitActive t limit.
Proof.
  intros Hle. unfold clearLimit, limitExpired, limitActive.
  destruct (isRateLimited limit) eqn:Hr; simpl; [|by rewrite Hr].
  destruct (resetTime limit) as [r|] eqn:Ht; simpl; [|by rewrite Hr, Ht].
  destruct (r <=? now) eqn:Hexp; simpl.
  - symmetry. apply Z.ltb_ge. apply Z.leb_le in Hexp. lia.
  - by rewrite Hr, Ht.
Qed.

Lemma isAvailable_sweep_later modelId now t acc :
  now <= t ->
  isAvailable modelId t (sweepAccount now acc) = isAvailable modelId t acc.
Proof.
  intros Hle. unfold isAvailable. rewrite sweepAccount_isInvalid.
  destruct (isInvalid acc); [done|].
  destruct (JS.truthy modelId) as [m|]; [|done].
  rewrite sweepAccount_lookup.
  destruct (modelRateLimits acc !! m) as [limit|]; simpl; [|done].
  by rewrite limitActive_clearLimit_later.
Qed.

Lemma filter_fmap {A B} (f : B -> bool) (g : A -> B) (l : list A) :
  List.filter f (g <$> l) = g <$> List.filter (fun x => f (g x)) l.
Proof.
  induction l as [|x l IH]; [done|].
  rewrite fmap_cons. simpl. destruct (f (g x)); by rewrite IH.
Qed.

Lemma filter_ext_eq {A} (f g : A -> bool) (l : list A) :
  (forall x, f x = g x) -> List.filter f l = List.filter g l.
Proof.
  intros H. induction l as [|x l IH]; [done|].
  simpl. rewrite H, IH. done.
Qed.

(** X4.  A sweep at time [now] does not change who is available at [now]
    or at any later time, for any model: the available accounts of the
    swept pool are the swept available accounts. *)
Theorem clearExpiredLimits_keeps_availability
    (accounts : list Account) (modelId : option string) (now t : Z) :
  now <= t ->
  getAvailableAccounts (clearExpiredLimits accounts now).1 modelId t =
  sweepAccount now <$> getAvailableAccounts accounts modelId t.
Proof.
  intros Hle. rewrite clearExpiredLimits_fst. unfold getAvailableAccounts.
  rewrite filter_fmap. f_equal. apply filter_ext_eq.
  intros a. by apply isAvailable_sweep_later.
Qed.

End PoolAvailability.

(** *** On the sample pools *)
Section PoolAvailabilitySamples.

Import RateLimits Selection Pool.

(** Both accounts of the waiting pool are limited for ["m"] at time 0. *)
Lemma isAllRateLimited_iff_none_available_witness :
  isAllRateLimited Sample.waitingPool (Some "m") 0 = true <->
  getAvailableAccounts Sample.waitingPool (Some "m") 0 = [].
Proof.
  apply (isAllRateLimited_iff_none_available Sample.waitingPool "m" 0).
  vm_compute. discriminate.
Defined.

(** A sweep at 20 s, availability asked at 50 s. *)
Lemma clearExpiredLimits_keeps_availability_witness :
  getAvailableAccounts (clearExpiredLimits Sample.waitingPool 20000).1
    (Some "m") 50000 =
  sweepAccount 20000 <$> getAvailableAccounts Sample.waitingPool (Some "m") 50000.
Proof.
  apply (clearExpiredLimits_keeps_availability Sample.waitingPool (Some "m")
           20000 50000).
  lia.
Defined.

End PoolAvailabilitySamples.

(** ** The pool: marking accounts *)
Section PoolMarks.

Import RateLimits Selection Pool.
Context {K : Constants}.

Lemma markRateLimited_found accounts e resetMs settings m now i a :
  findIndexByEmail accounts e = Some i ->
  accounts !! i = Some a ->
  markRateLimited accounts e resetMs settings m now =
  (<[ i := set_modelRateLimits a
             (<[ m := {| isRateLimited := true;
                         resetTime := Some (now + cooldownOf resetMs settings) |} ]>
                (modelRateLimits a)) ]> accounts, true).
Proof. intros Hfind Ha. unfold markRateLimited. by rewrite Hfind, Ha. Qed.

Lemma markRateLimited_missing accounts e resetMs settings m now :
  findIndexByEmail accounts e = None ->
  markRateLimited accounts e resetMs settings m now = (accounts, false).
Proof. intros Hfind. unfold markRateLimited. by rewrite Hfind. Qed.

(** X5.  Marking a known account rate-limited for a model makes it unusable
    for that model at every time before [now + cooldown], where the cooldown
    is the reset delay given, else the configured one, else the default;
    from that time on the account is usable for the model exactly when it is
    not invalid.  The pool keeps its length. *)
Theorem markRateLimited_blocks_until_reset
    (accounts : list Account) (e : string) (resetMs : option Z)
    (settings : AccountSettings) (m : string) (now : Z) (i : nat) :
  m <> "" ->
  findIndexByEmail accounts e = Some i ->
  let run := markRateLimited accounts e resetMs settings m now in
  let until := now + cooldownOf resetMs settings in
  run.2 = true /\
  length run.1 = length accounts /\
  (forall t, t < until -> isAccountUsable (run.1 !! i) (Some m) t = false) /\
  (forall t, until <= t ->
     isAccountUsable (run.1 !! i) (Some m) t =
     isAccountUsable (accounts !! i) None t).
Proof.
  intros Hm Hfind. cbv zeta.
  destruct (findIndexByEmail_lookup _ _ _ Hfind) as [a [Ha He]].
  rewrite (markRateLimited_found _ _ _ _ _ _ _ _ Hfind Ha). cbn [fst snd].
  assert (Hlt : (i < length accounts)%nat) by by eapply lookup_lt_Some.
  rewrite list_lookup_insert_eq by done. rewrite Ha.
  split; [done|]. split; [by rewrite length_insert|].
  unfold isAccountUsable. rewrite (truthy_Some m Hm).
  cbn [isInvalid set_modelRateLimits modelRateLimits JS.truthy].
  rewrite lookup_insert_eq. unfold limitActive. cbn [isRateLimited resetTime andb].
  split; intros t Ht; destruct (isInvalid a); try done.
  - apply Z.ltb_lt in Ht. by rewrite Ht.
  - apply Z.ltb_ge in Ht. by rewrite Ht.
Qed.

(** X6.  What [markRateLimited] leaves alone: with an unknown email it
    returns the pool as it is and answers false; otherwise every account
    other than the first one with that email is untouched, no account's
    limit for another model changes, and no field of any account other
    than its rate limits changes. *)
Theorem markRateLimited_frame
    (accounts : list Account) (e : string) (resetMs : option Z)
    (settings : AccountSettings) (m : string) (now : Z) :
  let run := markRateLimited accounts e resetMs settings m now in
  (findIndexByEmail accounts e = None -> run = (accounts, false)) /\
  (forall j, findIndexByEmail accounts e <> Some j ->
     run.1 !! j = accounts !! j) /\
  (forall j m', m' <> m -> limitOf run.1 j m' = limitOf accounts j m') /\
  (forall j a, accounts !! j = Some a ->
     exists b, run.1 !! j = Some b /\ sameButLimits a b).
Proof.
  cbv zeta. split; [apply markRateLimited_missing|].
  destruct (findIndexByEmail accounts e) as [i|] eqn:Hfind.
  2:{ rewrite (markRateLimited_missing _ _ _ _ _ _ Hfind). cbn [fst].
      repeat split; try done.
      intros j a Ha. exists a. split; [done|]. by destruct a. }
  destruct (findIndexByEmail_lookup _ _ _ Hfind) as [a [Ha He]].
  rewrite (markRateLimited_found _ _ _ _ _ _ _ _ Hfind Ha). cbn [fst].
  assert (Hlt : (i < length accounts)%nat) by by eapply lookup_lt_Some.
  split; [|split].
  - intros j Hj. apply list_lookup_insert_ne. congruence.
  - intros j m' Hm'. unfold limitOf.
    destruct (decide (i = j)) as [<-|Hne].
    + rewrite list_lookup_insert_eq by done. rewrite Ha. simpl.
      by rewrite lookup_insert_ne.
    + by rewrite list_lookup_insert_ne.
  - intros j b Hb. destruct (decide (i = j)) as [<-|Hne].
    + rewrite list_lookup_insert_eq by done. simplify_eq.
      eexists. split; [done|]. by destruct a.
    + rewrite list_lookup_insert_ne by done.
      exists b. split; [done|]. by destruct b.
Qed.

(** X7.  [markInvalid] with an unknown email changes nothing and answers
    false.  With a known one it flags the first account with that email,
    recording the reason and the time; that account is then unusable for
    every model at every time, every other account is untouched, and
    nothing but the invalid flag, reason and time of an account changes. *)
Theorem markInvalid_effect
    (accounts : list Account) (e reason : string) (now : Z) :
  let run := markInvalid accounts e reason now in
  match findIndexByEmail accounts e with
  | None => run = (accounts, false)
  | Some i =>
    run.2 = true /\
    (exists a, run.1 !! i = Some a /\ isInvalid a = true /\
               invalidReason a = Some reason /\ invalidAt a = Some now) /\
    (forall modelId t, isAccountUsable (run.1 !! i) modelId t = false) /\
    (forall j, j <> i -> run.1 !! j = accounts !! j) /\
    (forall j a, accounts !! j = Some a ->
       exists b, run.1 !! j = Some b /\ sameButInvalid a b)
  end.
Proof.
  cbv zeta. unfold markInvalid.
  destruct (findIndexByEmail accounts e) as [i|] eqn:Hfind; [|done].
  destruct (findIndexByEmail_lookup _ _ _ Hfind) as [a [Ha He]].
  rewrite Ha. cbn [fst snd].
  assert (Hlt : (i < length accounts)%nat) by by eapply lookup_lt_Some.
  rewrite list_lookup_insert_eq by done.
  split; [done|]. split; [by eexists|]. split; [done|]. split.
  - intros j Hj. by apply list_lookup_insert_ne.
  - intros j b Hb. destruct (decide (i = j)) as [<-|Hne].
    + rewrite list_lookup_insert_eq by done. simplify_eq.
      eexists. split; [done|]. by destruct a.
    + rewrite list_lookup_insert_ne by done.
      exists b. split; [done|]. by destruct b.
Qed.

(** X8.  After [resetAllRateLimits] the available accounts are, for every
    model and at every time, exactly the accounts that are not marked
    invalid: no rate limit stands in the way any more, and the invalid flags
    are untouched. *)
Theorem resetAllRateLimits_available
    (accounts : list Account) (modelId : option string) (t : Z) :
  getAvailableAccounts (resetAllRateLimits accounts) modelId t =
  resetAllRateLimits (List.filter (fun a => negb (isInvalid a)) accounts).
Proof.
  unfold getAvailableAccounts, resetAllRateLimits.
  rewrite filter_fmap. f_equal. apply filter_ext_eq. intros a.
  unfold isAvailable. cbn [isInvalid set_modelRateLimits modelRateLimits].
  destruct (isInvalid a); [done|].
  destruct (JS.truthy modelId) as [m|]; [|done].
  rewrite lookup_fmap. by destruct (modelRateLimits a !! m).
Qed.

End PoolMarks.

(** *** On the sample pools *)
Section PoolMarksSamples.

Import RateLimits Selection Pool.

(** The second account of the waiting pool, marked at 20 s for 5 s. *)
Lemma markRateLimited_blocks_until_reset_witness :
  let settings := {| cooldownDurationMs := None |} in
  let run := markRateLimited (K := Sample.constants) Sample.waitingPool
               "b@example.com" (Some 5000) settings "m" 20000 in
  let until := 20000 + cooldownOf (K := Sample.constants) (Some 5000) settings in
  run.2 = true /\
  length run.1 = length Sample.waitingPool /\
  (forall t, t < until ->
     isAccountUsable (run.1 !! 1%nat) (Some "m") t = false) /\
  (forall t, until <= t ->
     isAccountUsable (run.1 !! 1%nat) (Some "m") t =
     isAccountUsable (Sample.waitingPool !! 1%nat) None t).
Proof.
  apply (markRateLimited_blocks_until_reset (K := Sample.constants)
           Sample.waitingPool "b@example.com" (Some 5000)
           {| cooldownDurationMs := None |} "m" 20000 1).
  - vm_compute. discriminate.
  - vm_compute. reflexivity.
Defined.

End PoolMarksSamples.

(** ** The pool: the minimum wait *)
Section PoolMinWait.

Import RateLimits Selection Pool.
Context {K : Constants}.

(** The result of the fold is the initial value or the wait of an account
    it visited. *)
Lemma fold_minWait_attained modelId now accounts minWait w :
  fold_left (minWaitStep modelId now) accounts minWait = Some w ->
  minWait = Some w \/
  exists a, a ∈ accounts /\ currentWaitMs a modelId now = w /\ 0 < w.
Proof.
  revert minWait. induction accounts as [|a l IH]; intros minWait; simpl.
  - by left.
  - intros Hfold. apply IH in Hfold as [Hstep | (b & Hb & Hw & Hpos)].
    + rewrite minWaitStep_currentWaitMs in Hstep. cbv zeta in Hstep.
      destruct ((0 <? currentWaitMs a modelId now) &&
                match minWait with
                | Some w0 => currentWaitMs a modelId now <? w0
                | None => true
                end) eqn:Hc.
      * right. exists a. apply andb_true_iff in Hc as [Hpos _].
        apply Z.ltb_lt in Hpos. simplify_eq.
        split; [apply list_elem_of_here|done].
      * by left.
    + right. exists b. split; [by apply list_elem_of_further|done].
Qed.

Lemma valid_limited_wait accounts modelId now a :
  isAllRateLimited accounts modelId now = true ->
  a ∈ accounts ->
  isInvalid a = false ->
  exists m limit r,
    JS.truthy modelId = Some m /\
    modelRateLimits a !! m = Some limit /\
    isRateLimited limit = true /\ resetTime limit = Some r /\ now < r /\
    currentWaitMs a modelId now = r - now.
Proof.
  intros Hall Hin Hvalid.
  destruct (JS.truthy modelId) as [m|] eqn:Hm.
  - rewrite (isAllRateLimited_truthy _ _ _ _ Hm) in Hall.
    rewrite forallb_forall in Hall.
    specialize (Hall a (proj1 (list_elem_of_In _ _) Hin)).
    unfold unavailableForb in Hall. rewrite Hvalid in Hall.
    destruct (modelRateLimits a !! m) as [limit|] eqn:Hl; [|done].
    apply limitActive_spec in Hall as [Hr [r [Ht Hlt]]].
    exists m, limit, r. unfold currentWaitMs. by rewrite Hm, Hl, Hr, Ht.
  - rewrite (isAllRateLimited_falsy _ _ _ Hm) in Hall.
    destruct accounts; [by apply elem_of_nil in Hin|done].
Qed.

(** X9.  In a pool that is not empty, has no invalid account and is
    rate-limited throughout for a model, the minimum wait is positive and
    it is enough: once it has elapsed, some account is available for the
    model. *)
Theorem getMinWaitTimeMs_reaches_availability
    (accounts : list Account) (m : string) (now : Z) :
  accounts <> [] ->
  getInvalidAccounts accounts = [] ->
  isAllRateLimited accounts (Some m) now = true ->
  let w := getMinWaitTimeMs accounts (Some m) now in
  0 < w /\ getAvailableAccounts accounts (Some m) (now + w) <> [].
Proof.
  intros Hne Hvalid Hall. cbv zeta.
  unfold getInvalidAccounts in Hvalid. rewrite filter_nil_iff in Hvalid.
  destruct accounts as [|a0 rest]; [done|].
  assert (Hin0 : a0 ∈ a0 :: rest) by apply list_elem_of_here.
  destruct (valid_limited_wait _ _ _ a0 Hall Hin0 (Hvalid a0 Hin0))
    as (m0 & limit0 & r0 & Hm0 & _ & _ & _ & Hlt0 & Hw0).
  destruct (fold_minWait_bound (Some m) now (a0 :: rest) None a0 Hin0)
    as [w [Hfold _]]; [lia|].
  unfold getMinWaitTimeMs. rewrite Hall. cbn [negb]. rewrite Hfold.
  destruct (fold_minWait_attained _ _ _ _ _ Hfold)
    as [? | (a & Ha & Hw & Hpos)]; [done|].
  split; [done|].
  destruct (valid_limited_wait _ _ _ a Hall Ha (Hvalid a Ha))
    as (m1 & limit & r & Hm1 & Hl & Hr & Ht & Hlt & Hwa).
  intros Hnone. unfold getAvailableAccounts in Hnone.
  rewrite filter_nil_iff in Hnone. specialize (Hnone a Ha).
  unfold isAvailable in Hnone. rewrite (Hvalid a Ha), Hm1, Hl in Hnone.
  unfold limitActive in Hnone. rewrite Hr, Ht in Hnone. simpl in Hnone.
  apply negb_false_iff, Z.ltb_lt in Hnone. lia.
Qed.

(** X10.  The minimum wait is not too long either: while the pool is
    rate-limited throughout at [now], nobody is available at any time from
    [now] up to, and not including, [now] plus the minimum wait. *)
Theorem getMinWaitTimeMs_nobody_earlier
    (accounts : list Account) (modelId : option string) (now t : Z) :
  isAllRateLimited accounts modelId now = true ->
  now <= t < now + getMinWaitTimeMs accounts modelId now ->
  getAvailableAccounts accounts modelId t = [].
Proof.
  intros Hall Ht. unfold getAvailableAccounts. apply filter_nil_iff.
  intros a Ha. unfold isAvailable.
  destruct (isInvalid a) eqn:Hvalid; [done|].
  destruct (valid_limited_wait _ _ _ a Hall Ha Hvalid)
    as (m & limit & r & Hm & Hl & Hr & Hreset & Hlt & Hwa).
  pose proof (getMinWaitTimeMs_le_valid _ _ _ a Hall Ha Hvalid) as Hle.
  rewrite Hm, Hl. unfold limitActive. rewrite Hr, Hreset. simpl.
  apply negb_false_iff, Z.ltb_lt. lia.
Qed.

End PoolMinWait.

(** *** On the sample pools *)
Section PoolMinWaitSamples.

Import RateLimits Selection Pool.

(** The waiting pool at time 0: the shorter limit ends after 10 s. *)
Lemma getMinWaitTimeMs_reaches_availability_witness :
  let w := getMinWaitTimeMs (K := Sample.constants)
             Sample.waitingPool (Some "m") 0 in
  0 < w /\ getAvailableAccounts Sample.waitingPool (Some "m") (0 + w) <> [].
Proof.
  apply (getMinWaitTimeMs_reaches_availability (K := Sample.constants)
           Sample.waitingPool "m" 0).
  - vm_compute. discriminate.
  - vm_compute. reflexivity.
  - vm_compute. reflexivity.
Defined.

(** The waiting pool at time 0, asked about second 5. *)
Lemma getMinWaitTimeMs_nobody_earlier_witness :
  getAvailableAccounts Sample.waitingPool (Some "m") 5000 = [].
Proof.
  apply (getMinWaitTimeMs_nobody_earlier (K := Sample.constants)
           Sample.waitingPool (Some "m") 0 5000).
  - vm_compute. reflexivity.
  - vm_compute. split; [discriminate|reflexivity].
Defined.

End PoolMinWaitSamples.

(** ** Selection: [pickNext] *)
Section PickNext.

Import RateLimits Selection Pool.
Context {K : Constants}.

Lemma isAccountUsable_sweep_lookup (accounts : list Account) (idx : Z)
    modelId now :
  isAccountUsable (accountAt (sweepAccount now <$> accounts) idx) modelId now =
  isAccountUsable (accountAt accounts idx) modelId now.
Proof.
  rewrite accountAt_fmap. destruct (accountAt accounts idx) as [a|]; [|done].
  cbn [fmap option_fmap option_map].
  by rewrite !isAccountUsable_isAvailable, isAvailable_sweep.
Qed.

Lemma isAccountUsable_set_lastUsed a t modelId now :
  isAccountUsable (Some (set_lastUsed a t)) modelId now =
  isAccountUsable (Some a) modelId now.
Proof. reflexivity. Qed.

(** The loop returns the first iteration whose account is usable. *)
Lemma pickNextLoop_Some accounts index modelId now i remaining idx :
  pickNextLoop accounts index modelId now i remaining = Some idx ->
  exists k, i <= k < i + Z.of_nat remaining /\
    idx = Z.rem (index + k) (Z.of_nat (length accounts)) /\
    isAccountUsable (accountAt accounts idx) modelId now = true /\
    forall k', i <= k' < k ->
      isAccountUsable
        (accountAt accounts (Z.rem (index + k') (Z.of_nat (length accounts))))
        modelId now = false.
Proof.
  revert i. induction remaining as [|r IH]; intros i; [done|].
  cbn [pickNextLoop]. cbv zeta.
  destruct (isAccountUsable
              (accountAt accounts
                 (Z.rem (index + i) (Z.of_nat (length accounts)))) modelId now)
    eqn:Hu.
  - intros [= <-]. exists i. split; [lia|]. split; [done|]. split; [done|].
    intros k' Hk'. lia.
  - intros Hloop. destruct (IH (i + 1) Hloop) as (k & Hk & Hidx & Hok & Hbefore).
    exists k. split; [lia|]. split; [done|]. split; [done|].
    intros k' Hk'. destruct (decide (k' = i)) as [->|Hne]; [done|].
    apply Hbefore. lia.
Qed.



Lemma clampIndex_bounds accounts currentIndex :
  accounts <> [] -> 0 <= currentIndex ->
  0 <= clampIndex accounts currentIndex < Z.of_nat (length accounts).
Proof.
  intros Hne Hpos. unfold clampIndex.
  destruct (Z.of_nat (length accounts) <=? currentIndex) eqn:Hc.
  - destruct accounts; [done|]. simpl length. lia.
  - apply Z.leb_gt in Hc. lia.
Qed.

(** [pickNext], with the sweep and the clamp spelled out. *)
Lemma pickNext_unfold accounts currentIndex onSave modelId now :
  pickNext accounts currentIndex onSave modelId now =
  let swept := sweepAccount now <$> accounts in
  let none := {| sel_accounts := swept; sel_account := None;
                 sel_newIndex := currentIndex; sel_saves := 0 |} in
  match getAvailableAccounts accounts modelId now with
  | [] => none
  | _ =>
    match pickNextLoop swept (clampIndex accounts currentIndex) modelId now 1
            (length accounts) with
    | Some idx =>
      match accountAt swept idx with
      | Some account =>
        {| sel_accounts :=
             <[ Z.to_nat idx := set_lastUsed account (Some now) ]> swept;
           sel_account := Some (set_lastUsed account (Some now));
           sel_newIndex := idx;
           sel_saves := if onSave then 1 else 0 |}
      | None => none
      end
    | None => none
    end
  end.
Proof.
  cbv zeta. unfold pickNext. rewrite clearExpiredLimits_fst.
  rewrite clampIndex_fmap, length_fmap.
  pose proof (getAvailableAccounts_sweep_nil accounts modelId now) as Hnil.
  destruct (getAvailableAccounts (sweepAccount now <$> accounts) modelId now)
    as [|b bs] eqn:Hav.
  - by rewrite (proj1 Hnil eq_refl).
  - destruct (getAvailableAccounts accounts modelId now) as [|c cs]; [|done].
    by specialize (proj2 Hnil eq_refl).
Qed.


(** What is known of an account that [pickNext] returns. *)
Lemma pickNext_Some
    (accounts : list Account) (currentIndex : Z) (onSave : bool)
    (modelId : option string) (now : Z) (a : Account) :
  let r := pickNext accounts currentIndex onSave modelId now in
  sel_account r = Some a ->
  isAccountUsable (Some a) modelId now = true /\
  lastUsed a = Some now /\
  accountAt (sel_accounts r) (sel_newIndex r) = Some a /\
  sel_saves r = (if onSave then 1 else 0)%nat.
Proof.
  cbv zeta. rewrite pickNext_unfold. cbv zeta.
  destruct (getAvailableAccounts accounts modelId now) as [|b bs]; [done|].
  destruct (pickNextLoop _ _ _ _ _ _) as [idx|] eqn:Hloop; [|done].
  destruct (pickNextLoop_Some _ _ _ _ _ _ _ Hloop) as (k & _ & _ & Hok & _).
  destruct (accountAt (sweepAccount now <$> accounts) idx)
    as [account|] eqn:Ha; [|done].
  cbn [sel_account sel_accounts sel_newIndex sel_saves]. intros [= <-].
  split; [done|]. split; [done|]. split; [|done].
  apply accountAt_Some in Ha as [Hidx Ha].
  unfold accountAt. apply Z.ltb_ge in Hidx. rewrite Hidx.
  apply list_lookup_insert_eq. by eapply lookup_lt_Some.
Qed.


(** With no account to return, [pickNext] only sweeps. *)
Lemma pickNext_None
    (accounts : list Account) (currentIndex : Z) (onSave : bool)
    (modelId : option string) (now : Z) :
  let r := pickNext accounts currentIndex onSave modelId now in
  sel_account r = None ->
  sel_accounts r = sweepAccount now <$> accounts /\
  sel_newIndex r = currentIndex /\
  sel_saves r = 0%nat.
Proof.
  cbv zeta. rewrite pickNext_unfold. cbv zeta.
  destruct (getAvailableAccounts accounts modelId now) as [|b bs]; [done|].
  destruct (pickNextLoop _ _ _ _ _ _) as [idx|]; [|done].
  by destruct (accountAt (sweepAccount now <$> accounts) idx).
Qed.


(** X12.  [pickNext] goes round the pool starting after the current
    account: the new active index is [(index + k) % accounts.length], where
    [index] is the current index (0 when it is past the end) and [k] is the
    least number from 1 to the size of the pool whose entry is usable; the
    entry of every smaller [k] is missing or unusable.  [%] is JavaScript's
    remainder ([Z.rem]); for an index that is not negative it wraps around
    the pool, and the current account, [k] being the size of the pool, is
    tried last. *)
Theorem pickNext_round_robin
    (accounts : list Account) (currentIndex : Z) (onSave : bool)
    (modelId : option string) (now : Z) (a : Account) :
  let r := pickNext accounts currentIndex onSave modelId now in
  let index := clampIndex accounts currentIndex in
  let n := Z.of_nat (length accounts) in
  sel_account r = Some a ->
  exists k, 1 <= k <= n /\
    sel_newIndex r = Z.rem (index + k) n /\
    (0 <= currentIndex -> sel_newIndex r = (index + k) mod n) /\
    forall k', 1 <= k' < k ->
      isAccountUsable (accountAt accounts (Z.rem (index + k') n)) modelId now
      = false.
Proof.
  cbv zeta. rewrite pickNext_unfold. cbv zeta.
  destruct (getAvailableAccounts accounts modelId now) as [|b bs] eqn:Hav;
    [done|].
  destruct (pickNextLoop _ _ _ _ _ _) as [idx|] eqn:Hloop; [|done].
  destruct (pickNextLoop_Some _ _ _ _ _ _ _ Hloop) as (k & Hk & Hidx & _ & Hbefore).
  destruct (accountAt (sweepAccount now <$> accounts) idx)
    as [account|] eqn:Ha; [|done].
  cbn [sel_account sel_newIndex]. intros _.
  rewrite length_fmap in Hidx.
  exists k. split; [lia|]. split; [done|]. split.
  - intros Hpos. rewrite Hidx.
    assert (Hne : accounts <> []) by (intros ->; done).
    pose proof (clampIndex_bounds accounts currentIndex Hne Hpos).
    apply Z.rem_mod_nonneg; lia.
  - intros k' Hk'. specialize (Hbefore k' Hk').
    by rewrite length_fmap, isAccountUsable_sweep_lookup in Hbefore.
Qed.

End PickNext.

(** *** On the sample pools *)
Section PickNextSamples.

Import RateLimits Selection Pool.

(** The waiting pool at 50 s: the first account is still limited, the
    second one is free again and is the next in the round. *)
Lemma pickNext_round_robin_witness :
  let r := pickNext Sample.waitingPool 0 true (Some "m") 50000 in
  let index := clampIndex Sample.waitingPool 0 in
  let n := Z.of_nat (length Sample.waitingPool) in
  exists k, 1 <= k <= n /\
    sel_newIndex r = Z.rem (index + k) n /\
    (0 <= 0 -> sel_newIndex r = (index + k) mod n) /\
    forall k', 1 <= k' < k ->
      isAccountUsable (accountAt Sample.waitingPool (Z.rem (index + k') n))
        (Some "m") 50000 = false.
Proof.
  apply (pickNext_round_robin Sample.waitingPool 0 true (Some "m") 50000
           (set_lastUsed
              (sweepAccount 50000
                 (Sample.account "b@example.com" false
                    (Sample.limitedUntil "m" 10000)))
              (Some 50000))).
  vm_compute. reflexivity.
Defined.

(** From index -2 the loop reads the entries -1 and 0 only: the second
    account, which is free again, is missed. *)
Lemma pickNext_negative_index :
  let r := pickNext Sample.waitingPool (-2) true (Some "m") 50000 in
  getAvailableAccounts Sample.waitingPool (Some "m") 50000 <> [] /\
  sel_account r = None /\ sel_newIndex r = -2.
Proof. vm_compute. repeat split. discriminate. Qed.

End PickNextSamples.

(** ** Selection: [pickStickyAccount] *)
Section PickSticky.

Import RateLimits Selection Pool.
Context {K : Constants}.

Lemma sweep_sweep (accounts : list Account) now :
  sweepAccount now <$> (sweepAccount now <$> accounts) =
  sweepAccount now <$> accounts.
Proof.
  rewrite <- list_fmap_compose. apply list_fmap_ext.
  intros i x _. apply sweepAccount_idem.
Qed.


(** [getCurrentStickyAccount], with the sweep and the clamp spelled out. *)
Lemma getCurrentStickyAccount_unfold accounts currentIndex onSave modelId now :
  getCurrentStickyAccount accounts currentIndex onSave modelId now =
  let swept := sweepAccount now <$> accounts in
  let index := clampIndex accounts currentIndex in
  match accounts with
  | [] => {| sel_accounts := []; sel_account := None;
             sel_newIndex := currentIndex; sel_saves := 0 |}
  | _ =>
    match accountAt accounts index with
    | Some account =>
      if isAccountUsable (Some account) modelId now then
        let account := set_lastUsed (sweepAccount now account) (Some now) in
        {| sel_accounts := <[ Z.to_nat index := account ]> swept;
           sel_account := Some account;
           sel_newIndex := index;
           sel_saves := if onSave then 1 else 0 |}
      else {| sel_accounts := swept; sel_account := None;
              sel_newIndex := index; sel_saves := 0 |}
    | None => {| sel_accounts := swept; sel_account := None;
                 sel_newIndex := index; sel_saves := 0 |}
    end
  end.
Proof.
  cbv zeta. unfold getCurrentStickyAccount. rewrite clearExpiredLimits_fst.
  destruct accounts as [|a0 rest]; [done|].
  rewrite clampIndex_fmap, accountAt_fmap. rewrite fmap_cons.
  destruct (accountAt (a0 :: rest) (clampIndex (a0 :: rest) currentIndex))
    as [account|]; [|done].
  cbn [fmap option_fmap option_map].
  by rewrite !isAccountUsable_isAvailable, isAvailable_sweep.
Qed.

(** The three ways [pickStickyAccount] can go: the current account is
    usable and is kept; it is not and [pickNext] finds an account; it is not
    and [pickNext] finds nobody, which leaves the choice between waiting for
    the current account and giving up. *)
Lemma pickStickyAccount_cases accounts currentIndex onSave modelId now :
  let swept := sweepAccount now <$> accounts in
  let index := clampIndex accounts currentIndex in
  let next := pickNext swept currentIndex onSave modelId now in
  let r := pickStickyAccount accounts currentIndex onSave modelId now in
  (exists a,
     accountAt accounts index = Some a /\
     isAccountUsable (Some a) modelId now = true /\
     r = {| st_accounts :=
              <[ Z.to_nat index :=
                   set_lastUsed (sweepAccount now a) (Some now) ]> swept;
            st_account := Some (set_lastUsed (sweepAccount now a) (Some now));
            st_waitMs := 0; st_newIndex := index;
            st_saves := if onSave then 1 else 0 |}) \/
  (isAccountUsable (accountAt accounts index) modelId now = false /\
   exists a,
     sel_account next = Some a /\
     r = {| st_accounts := sel_accounts next; st_account := Some a;
            st_waitMs := 0; st_newIndex := sel_newIndex next;
            st_saves := sel_saves next |}) \/
  (isAccountUsable (accountAt accounts index) modelId now = false /\
   sel_account next = None /\
   r = waitOrAdvance swept currentIndex onSave modelId now 0).
Proof.
  cbv zeta.
  unfold pickStickyAccount. rewrite getCurrentStickyAccount_unfold. cbv zeta.
  assert (Hrest :
    isAccountUsable (accountAt accounts (clampIndex accounts currentIndex))
      modelId now = false ->
    forall swept, swept = sweepAccount now <$> accounts ->
    (exists a,
       sel_account (pickNext swept currentIndex onSave modelId now) = Some a /\
       match getAvailableAccounts swept modelId now with
       | [] => waitOrAdvance swept currentIndex onSave modelId now 0
       | _ :: _ =>
         match sel_account (pickNext swept currentIndex onSave modelId now) with
         | Some nextAccount =>
           {| st_accounts :=
                sel_accounts (pickNext swept currentIndex onSave modelId now);
              st_account := Some nextAccount;
              st_waitMs := 0;
              st_newIndex :=
                sel_newIndex (pickNext swept currentIndex onSave modelId now);
              st_saves :=
                (0 + sel_saves
                       (pickNext swept currentIndex onSave modelId now))%nat |}
         | None =>
           waitOrAdvance
             (sel_accounts (pickNext swept currentIndex onSave modelId now))
             currentIndex onSave modelId now
             (0 + sel_saves
                    (pickNext swept currentIndex onSave modelId now))%nat
         end
       end =
       {| st_accounts :=
            sel_accounts (pickNext swept currentIndex onSave modelId now);
          st_account := Some a; st_waitMs := 0;
          st_newIndex :=
            sel_newIndex (pickNext swept currentIndex onSave modelId now);
          st_saves :=
            sel_saves (pickNext swept currentIndex onSave modelId now) |}) \/
    (sel_account (pickNext swept currentIndex onSave modelId now) = None /\
     match getAvailableAccounts swept modelId now with
     | [] => waitOrAdvance swept currentIndex onSave modelId now 0
     | _ :: _ =>
       match sel_account (pickNext swept currentIndex onSave modelId now) with
       | Some nextAccount =>
         {| st_accounts :=
              sel_accounts (pickNext swept currentIndex onSave modelId now);
            st_account := Some nextAccount;
            st_waitMs := 0;
            st_newIndex :=
              sel_newIndex (pickNext swept currentIndex onSave modelId now);
            st_saves :=
              (0 + sel_saves
                     (pickNext swept currentIndex onSave modelId now))%nat |}
       | None =>
         waitOrAdvance
           (sel_accounts (pickNext swept currentIndex onSave modelId now))
           currentIndex onSave modelId now
           (0 + sel_saves
                  (pickNext swept currentIndex onSave modelId now))%nat
       end
     end = waitOrAdvance swept currentIndex onSave modelId now 0)).
  { intros _ swept ->.
    destruct (sel_account (pickNext (sweepAccount now <$> accounts) currentIndex
                             onSave modelId now)) as [a|] eqn:Hnext.
    - left. exists a. split; [done|].
      destruct (getAvailableAccounts (sweepAccount now <$> accounts) modelId now)
        as [|b bs] eqn:Hav; [|done].
      by rewrite (pickNext_none_available _ _ _ _ _ Hav) in Hnext.
    - right. split; [done|].
      destruct (getAvailableAccounts (sweepAccount now <$> accounts) modelId now)
        as [|b bs] eqn:Hav; [done|].
      destruct (pickNext_None _ _ _ _ _ Hnext) as (-> & _ & ->).
      by rewrite sweep_sweep. }
  destruct accounts as [|a0 rest].
  { right; right.
    assert (Hnil : forall i, accountAt [] i = None)
      by (intros i; unfold accountAt; by destruct (i <? 0)).
    split; [by rewrite Hnil|]. by split. }
  set (accounts := a0 :: rest) in *.
  destruct (accountAt accounts (clampIndex accounts currentIndex))
    as [account|] eqn:Hacc.
  - destruct (isAccountUsable (Some account) modelId now) eqn:Hu.
    + left. exists account. by cbn.
    + cbn [sel_accounts sel_account sel_saves].
      destruct (Hrest eq_refl _ eq_refl) as [(a & Ha & Heq) | (Hn & Heq)].
      * right; left. split; [done|]. exists a. split; [done|]. exact Heq.
      * right; right. split; [done|]. split; [done|]. exact Heq.
  - cbn [sel_accounts sel_account sel_saves].
    destruct (Hrest eq_refl _ eq_refl) as [(a & Ha & Heq) | (Hn & Heq)].
    + right; left. split; [done|]. exists a. split; [done|]. exact Heq.
    + right; right. split; [done|]. split; [done|]. exact Heq.
Qed.

Lemma isAvailable_at_reset account modelId now :
  isInvalid account = false ->
  0 < currentWaitMs account modelId now ->
  isAvailable modelId (now + currentWaitMs account modelId now) account = true.
Proof.
  intros Hvalid Hpos.
  destruct (currentWaitMs_pos _ _ _ Hpos) as (m & limit & r & Hm & Hl & Hr & Ht & Hw).
  unfold isAvailable. rewrite Hvalid, Hm, Hl.
  unfold limitActive. rewrite Hr, Ht, Hw. simpl.
  replace (now + (r - now)) with r by lia. by rewrite Z.ltb_irrefl.
Qed.

(** What [waitOrAdvance] answers on a swept pool in which [pickNext] finds
    nobody. *)
Lemma waitOrAdvance_nobody accounts currentIndex onSave modelId now :
  let swept := sweepAccount now <$> accounts in
  sel_account (pickNext swept currentIndex onSave modelId now) = None ->
  let r := waitOrAdvance swept currentIndex onSave modelId now 0 in
  st_account r = None /\ st_accounts r = swept /\
  st_newIndex r = currentIndex /\
  (st_waitMs r = 0 \/
   0 < st_waitMs r <= MAX_WAIT_BEFORE_ERROR_MS /\
   isAccountUsable (accountAt swept (clampIndex accounts currentIndex)) modelId
     (now + st_waitMs r) = true).
Proof.
  cbv zeta. intros Hnext. unfold waitOrAdvance.
  destruct (shouldWait (shouldWaitForCurrentAccount (sweepAccount now <$> accounts)
                          currentIndex modelId now)) eqn:Hsw.
  - cbn [st_account st_accounts st_newIndex st_waitMs].
    repeat split; try done. right.
    destruct (shouldWait_true _ _ _ _ Hsw)
      as (account & Hacc & Hvalid & _ & Hw & Hpos & Hmax).
    rewrite Hw. split; [done|].
    rewrite clampIndex_fmap in Hacc. rewrite Hacc.
    rewrite isAccountUsable_isAvailable. by apply isAvailable_at_reset.
  - destruct (pickNext_None _ _ _ _ _ Hnext) as (Haccs & Hidx & _).
    cbn [st_account st_accounts st_newIndex st_waitMs].
    rewrite Hnext, Haccs, Hidx, sweep_sweep. repeat split; try done. by left.
Qed.


(** X14.  [pickStickyAccount] is safe to act on.  An account it returns
    is usable for the model at the time of the call, comes with no wait and
    is the pool's entry at the new active index.  When it returns no
    account the active index is left as it was, and the wait it asks for is
    either 0, or positive and at most [MAX_WAIT_BEFORE_ERROR_MS], in which
    case the current account is usable once that wait has elapsed. *)
Theorem pickStickyAccount_safe
    (accounts : list Account) (currentIndex : Z) (onSave : bool)
    (modelId : option string) (now : Z) :
  let r := pickStickyAccount accounts currentIndex onSave modelId now in
  match st_account r with
  | Some a =>
    isAccountUsable (Some a) modelId now = true /\
    st_waitMs r = 0 /\
    accountAt (st_accounts r) (st_newIndex r) = Some a
  | None =>
    st_newIndex r = currentIndex /\
    (st_waitMs r = 0 \/
     0 < st_waitMs r <= MAX_WAIT_BEFORE_ERROR_MS /\
     isAccountUsable
       (accountAt (st_accounts r) (clampIndex accounts currentIndex))
       modelId (now + st_waitMs r) = true)
  end.
Proof.
  cbv zeta.
  destruct (pickStickyAccount_cases accounts currentIndex onSave modelId now)
    as [(a & Ha & Hu & ->) | [(_ & a & Hnext & ->) | (_ & Hnext & ->)]];
    cbn [st_account st_waitMs st_accounts st_newIndex].
  - split; [by rewrite isAccountUsable_set_lastUsed, !isAccountUsable_isAvailable,
              isAvailable_sweep in *|].
    split; [done|].
    apply accountAt_Some in Ha as [Hidx Ha].
    unfold accountAt. apply Z.ltb_ge in Hidx. rewrite Hidx.
    apply list_lookup_insert_eq. rewrite length_fmap. by eapply lookup_lt_Some.
  - destruct (pickNext_Some _ _ _ _ _ _ Hnext) as (Hu & _ & Hidx & _).
    done.
  - destruct (waitOrAdvance_nobody accounts currentIndex onSave modelId now Hnext)
      as (-> & -> & -> & Hwait).
    done.
Qed.

(** X15.  Selection is sticky: as long as the current account (the one at
    the active index, or the first one when the index is out of range) is
    usable for the model, [pickStickyAccount] returns that account, with its
    [lastUsed] set to the time of the call, and keeps the active index on
    it, whoever else is available. *)
Theorem pickStickyAccount_sticky
    (accounts : list Account) (currentIndex : Z) (onSave : bool)
    (modelId : option string) (now : Z) (a : Account) :
  accountAt accounts (clampIndex accounts currentIndex) = Some a ->
  isAccountUsable (Some a) modelId now = true ->
  let r := pickStickyAccount accounts currentIndex onSave modelId now in
  st_account r = Some (set_lastUsed (sweepAccount now a) (Some now)) /\
  st_newIndex r = clampIndex accounts currentIndex /\
  st_waitMs r = 0.
Proof.
  intros Ha Hu. cbv zeta.
  destruct (pickStickyAccount_cases accounts currentIndex onSave modelId now)
    as [(a' & Ha' & _ & ->) | [(Hun & _) | (Hun & _)]].
  - simplify_eq. done.
  - rewrite Ha in Hun. congruence.
  - rewrite Ha in Hun. congruence.
Qed.

Lemma emails_sweep (l : list Account) now :
  email <$> (sweepAccount now <$> l) = email <$> l.
Proof. rewrite <- list_fmap_compose. by apply list_fmap_ext. Qed.

Lemma emails_insert (l : list Account) i a b :
  l !! i = Some b -> email a = email b ->
  email <$> <[ i := a ]> l = email <$> l.
Proof.
  intros Hb He. rewrite list_fmap_insert, He.
  apply list_insert_id. by rewrite list_lookup_fmap, Hb.
Qed.

Lemma pickNext_emails accounts currentIndex onSave modelId now :
  email <$> sel_accounts (pickNext accounts currentIndex onSave modelId now) =
  email <$> accounts.
Proof.
  rewrite pickNext_unfold. cbv zeta.
  destruct (getAvailableAccounts accounts modelId now);
    [apply emails_sweep|].
  destruct (pickNextLoop _ _ _ _ _ _) as [idx|]; [|apply emails_sweep].
  destruct (accountAt (sweepAccount now <$> accounts) idx)
    as [account|] eqn:Hacc; [|apply emails_sweep].
  cbn [sel_accounts]. apply accountAt_Some in Hacc as [_ Hacc].
  by rewrite (emails_insert _ _ _ account), emails_sweep.
Qed.

Lemma getCurrentStickyAccount_emails accounts currentIndex onSave modelId now :
  email <$> sel_accounts
              (getCurrentStickyAccount accounts currentIndex onSave modelId now) =
  email <$> accounts.
Proof.
  rewrite getCurrentStickyAccount_unfold. cbv zeta.
  destruct accounts as [|a0 rest]; [done|].
  destruct (accountAt (a0 :: rest) (clampIndex (a0 :: rest) currentIndex))
    as [account|] eqn:Hacc; [|apply emails_sweep].
  destruct (isAccountUsable (Some account) modelId now); [|apply emails_sweep].
  cbn [sel_accounts]. apply accountAt_Some in Hacc as [_ Hacc].
  rewrite (emails_insert _ _ _ (sweepAccount now account)), emails_sweep;
    [done| |done].
  by rewrite list_lookup_fmap, Hacc.
Qed.

Lemma getCurrentStickyAccount_Some accounts currentIndex onSave modelId now a :
  let r := getCurrentStickyAccount accounts currentIndex onSave modelId now in
  sel_account r = Some a ->
  isAccountUsable (Some a) modelId now = true /\
  accountAt (sel_accounts r) (sel_newIndex r) = Some a.
Proof.
  cbv zeta. rewrite getCurrentStickyAccount_unfold. cbv zeta.
  destruct accounts as [|a0 rest]; [done|].
  destruct (accountAt (a0 :: rest) (clampIndex (a0 :: rest) currentIndex))
    as [account|] eqn:Hacc; [|done].
  destruct (isAccountUsable (Some account) modelId now) eqn:Hu; [|done].
  cbn [sel_account sel_accounts sel_newIndex]. intros [= <-].
  split.
  - by rewrite isAccountUsable_set_lastUsed, !isAccountUsable_isAvailable,
      isAvailable_sweep in *.
  - apply accountAt_Some in Hacc as [Hidx Hacc].
    unfold accountAt. apply Z.ltb_ge in Hidx. rewrite Hidx.
    apply list_lookup_insert_eq. rewrite length_fmap. by eapply lookup_lt_Some.
Qed.

(** The pool after [pickStickyAccount]: swept, with the returned account
    in the place of the entry at the new active index. *)
Lemma pickStickyAccount_accounts accounts currentIndex onSave modelId now :
  let r := pickStickyAccount accounts currentIndex onSave modelId now in
  st_accounts r =
  match st_account r with
  | Some a => <[ Z.to_nat (st_newIndex r) := a ]> (sweepAccount now <$> accounts)
  | None => sweepAccount now <$> accounts
  end.
Proof.
  cbv zeta.
  destruct (pickStickyAccount_cases accounts currentIndex onSave modelId now)
    as [(a & Ha & Hu & ->) | [(_ & a & Hnext & ->) | (_ & Hnext & ->)]];
    cbn [st_account st_waitMs st_accounts st_newIndex].
  - done.
  - cbv zeta in Hnext. revert Hnext. rewrite pickNext_unfold. cbv zeta.
    rewrite sweep_sweep.
    destruct (getAvailableAccounts (sweepAccount now <$> accounts) modelId now);
      [done|].
    rewrite length_fmap, clampIndex_fmap.
    destruct (pickNextLoop _ _ _ _ _ _) as [idx|]; [|done].
    destruct (accountAt (sweepAccount now <$> accounts) idx)
      as [account|] eqn:Hacc; [|done].
    cbn [sel_account sel_accounts sel_newIndex]. by intros [= <-].
  - by destruct (waitOrAdvance_nobody accounts currentIndex onSave modelId now Hnext)
      as (-> & -> & _).
Qed.

Lemma pickStickyAccount_Some accounts currentIndex onSave modelId now a :
  let r := pickStickyAccount accounts currentIndex onSave modelId now in
  st_account r = Some a ->
  isAccountUsable (Some a) modelId now = true /\
  accountAt (st_accounts r) (st_newIndex r) = Some a.
Proof.
  cbv zeta.
  destruct (pickStickyAccount_cases accounts currentIndex onSave modelId now)
    as [(a' & Ha & Hu & ->) | [(_ & a' & Hnext & ->) | (_ & Hnext & ->)]];
    cbn [st_account st_waitMs st_accounts st_newIndex].
  - intros [= <-]. split.
    + by rewrite isAccountUsable_set_lastUsed, !isAccountUsable_isAvailable,
        isAvailable_sweep in *.
    + apply accountAt_Some in Ha as [Hidx Ha].
      unfold accountAt. apply Z.ltb_ge in Hidx. rewrite Hidx.
      apply list_lookup_insert_eq. rewrite length_fmap. by eapply lookup_lt_Some.
  - intros [= <-].
    by destruct (pickNext_Some _ _ _ _ _ _ Hnext) as (Hu & _ & Hidx & _).
  - by destruct (waitOrAdvance_nobody accounts currentIndex onSave modelId now Hnext)
      as (-> & _).
Qed.

Lemma pickStickyAccount_emails accounts currentIndex onSave modelId now :
  email <$> st_accounts (pickStickyAccount accounts currentIndex onSave modelId now)
  = email <$> accounts.
Proof.
  destruct (pickStickyAccount_cases accounts currentIndex onSave modelId now)
    as [(a & Ha & Hu & ->) | [(_ & a & Hnext & ->) | (_ & Hnext & ->)]];
    cbn [st_accounts].
  - apply accountAt_Some in Ha as [_ Ha].
    rewrite (emails_insert _ _ _ (sweepAccount now a)), emails_sweep;
      [done| |done].
    by rewrite list_lookup_fmap, Ha.
  - by rewrite pickNext_emails, emails_sweep.
  - destruct (waitOrAdvance_nobody accounts currentIndex onSave modelId now Hnext)
      as (_ & -> & _). apply emails_sweep.
Qed.

(** X16.  All that the account manager's [pickStickyAccount] does to its
    state: expired limits are swept, the account it returns, if any,
    replaces the pool's entry at the new active index (it is that entry with
    [lastUsed] updated), and the active index moves there.  No account is
    added, removed or moved, and the settings and both caches are left
    alone. *)
Theorem pickStickyAccount_frame
    (modelId : option string) (now : Z) (st : AccountManager.State) :
  let run := AccountManager.pickStickyAccount modelId now st in
  let swept := sweepAccount now <$> AccountManager.accounts st in
  AccountManager.accounts run.2 =
  match run.1.1 with
  | Some a => <[ Z.to_nat (AccountManager.currentIndex run.2) := a ]> swept
  | None => swept
  end /\
  email <$> AccountManager.accounts run.2 = email <$> AccountManager.accounts st /\
  AccountManager.settings run.2 = AccountManager.settings st /\
  AccountManager.tokenCache run.2 = AccountManager.tokenCache st /\
  AccountManager.projectCache run.2 = AccountManager.projectCache st.
Proof.
  cbv zeta. unfold AccountManager.pickStickyAccount. cbn.
  split; [apply pickStickyAccount_accounts|].
  split; [apply pickStickyAccount_emails|done].
Qed.

End PickSticky.

(** *** On the sample pools *)
Section PickStickySamples.

Import RateLimits Selection Pool.

(** The waiting pool at 200 s, when both limits have run out: the first
    account, which is the current one, is kept. *)
Lemma pickStickyAccount_sticky_witness :
  let a := Sample.account "a@example.com" false
             (Sample.limitedUntil "m" 100000) in
  let r := pickStickyAccount (K := Sample.constants)
             Sample.waitingPool 0 true (Some "m") 200000 in
  st_account r = Some (set_lastUsed (sweepAccount 200000 a) (Some 200000)) /\
  st_newIndex r = clampIndex Sample.waitingPool 0 /\
  st_waitMs r = 0.
Proof.
  apply (pickStickyAccount_sticky (K := Sample.constants)
           Sample.waitingPool 0 true (Some "m") 200000
           (Sample.account "a@example.com" false
              (Sample.limitedUntil "m" 100000))).
  - vm_compute. reflexivity.
  - vm_compute. reflexivity.
Defined.

End PickStickySamples.

(** ** Credentials: the caches *)
Section CredentialCaches.

Import Credentials.
Context {K : Constants} {S World Body Resp : Type}
        {E : Environment World Body Resp}.

(** A call that misses the cache and returns a token has stored it, stamped
    with the time of the call, under the account's email. *)
Lemma getTokenForAccount_stores
    (account : Account) (tokenCache : gmap string TokenCacheEntry)
    (onInvalid : option (string -> string -> S -> S))
    (onSave : option (S -> S)) (now : Z) (s : S) (w : World) (t : string) :
  cacheMiss tokenCache account now ->
  let r := getTokenForAccount account tokenCache onInvalid onSave now s w in
  tr_outcome r = Returns t ->
  email (tr_account r) = email account /\
  tr_tokenCache r =
    <[ email account := {| token := t; extractedAt := now |} ]> tokenCache.
Proof.
  intros Hmiss. cbv zeta. unfold getTokenForAccount.
  assert (Hcache :
    match tokenCache !! email account with
    | Some cached =>
      if now - extractedAt cached <? TOKEN_REFRESH_INTERVAL_MS
      then Some (token cached) else None
    | None => None
    end = None).
  { unfold cacheMiss in Hmiss.
    destruct (tokenCache !! email account) as [cached|]; [|done].
    apply Z.ltb_ge in Hmiss. by rewrite Hmiss. }
  rewrite Hcache.
  repeat (case_match; simplify_eq;
          cbn [tr_outcome tr_account tr_tokenCache email set_invalid];
          try done);
    by intros [= <-].
Qed.

(** X17.  A token fetched at time [now] is served from the cache by every
    later call made less than [TOKEN_REFRESH_INTERVAL_MS] after [now]: that
    call returns the same token and touches neither the world (no refresh,
    no database read), nor the callbacks' state, nor the cache.  A call made
    at or after the end of the interval misses the cache. *)
Theorem getTokenForAccount_reuses_fresh_token
    (account : Account) (tokenCache : gmap string TokenCacheEntry)
    (onInvalid : option (string -> string -> S -> S))
    (onSave : option (S -> S)) (now : Z) (s : S) (w : World) (t : string)
    (now' : Z) (s' : S) (w' : World) :
  cacheMiss tokenCache account now ->
  let r := getTokenForAccount account tokenCache onInvalid onSave now s w in
  tr_outcome r = Returns t ->
  let r' := getTokenForAccount (tr_account r) (tr_tokenCache r)
              onInvalid onSave now' s' w' in
  if now' - now <? TOKEN_REFRESH_INTERVAL_MS then
    r' = {| tr_outcome := Returns t; tr_account := tr_account r;
            tr_tokenCache := tr_tokenCache r;
            tr_state := s'; tr_world := w' |}
  else cacheMiss (tr_tokenCache r) (tr_account r) now'.
Proof.
  intros Hmiss r Hout.
  destruct (getTokenForAccount_stores _ _ onInvalid onSave _ s w t Hmiss Hout)
    as [Hemail Hcache].
  fold r in Hemail, Hcache. clearbody r. cbv zeta.
  destruct (now' - now <? TOKEN_REFRESH_INTERVAL_MS) eqn:Hfresh.
  - unfold getTokenForAccount.
    rewrite Hemail, Hcache, lookup_insert_eq.
    cbn [extractedAt token]. by rewrite Hfresh.
  - unfold cacheMiss. rewrite Hemail, Hcache, lookup_insert_eq.
    cbn [extractedAt]. by apply Z.ltb_ge.
Qed.

(** X18.  Once [getProjectForAccount] has returned a project id that is
    not the empty string, every later call for the same account returns the
    same id from the cache: whatever token and world it is given, it makes
    no discovery request and leaves the cache as it is. *)
Theorem getProjectForAccount_cached
    (account : Account) (tok : string) (projectCache : gmap string string)
    (w : World) (p : string) (cache' : gmap string string) (w1 : World)
    (tok' : string) (w' : World) :
  getProjectForAccount account tok projectCache w = (p, cache', w1) ->
  p <> "" ->
  getProjectForAccount account tok' cache' w' = (p, cache', w').
Proof.
  intros Hrun Hp. unfold getProjectForAccount in *.
  assert (Hhit : forall c : gmap string string,
            c !! email account = Some p ->
            JS.truthy (c !! email account) = Some p).
  { intros c ->. simpl. by destruct (String.eqb_spec p ""). }
  destruct (JS.truthy (projectCache !! email account)) as [cached|] eqn:Hc.
  - simplify_eq. by rewrite Hc.
  - destruct (JS.truthy (projectId account)) as [pid|] eqn:Hpid.
    + simplify_eq. by rewrite (Hhit _ (lookup_insert_eq _ _ _)).
    + destruct (discoverProject tok w) as [project w2]. simplify_eq.
      by rewrite (Hhit _ (lookup_insert_eq _ _ _)).
Qed.

End CredentialCaches.

(** *** On the sample environment *)
Section CredentialCachesSamples.

Import Credentials.

(** A token refreshed at time 0 and asked for again one second later. *)
Lemma getTokenForAccount_reuses_fresh_token_witness :
  let account := Sample.account "a@example.com" false ∅ in
  let r := getTokenForAccount (K := Sample.constants) (E := Sample.environment)
             (S := unit) account ∅ None None 0 tt tt in
  getTokenForAccount (K := Sample.constants) (E := Sample.environment)
    (S := unit) (tr_account r) (tr_tokenCache r) None None 1000 tt tt =
  {| tr_outcome := Returns "access-token"; tr_account := tr_account r;
     tr_tokenCache := tr_tokenCache r; tr_state := tt; tr_world := tt |}.
Proof.
  apply (getTokenForAccount_reuses_fresh_token (K := Sample.constants)
           (E := Sample.environment) (S := unit)
           (Sample.account "a@example.com" false ∅) ∅ None None 0 tt tt
           "access-token" 1000 tt tt).
  - vm_compute. exact I.
  - vm_compute. reflexivity.
Defined.

(** A project discovered with one token and asked for again with
    another. *)
Lemma getProjectForAccount_cached_witness :
  let account := Sample.account "a@example.com" false ∅ in
  let cache' : gmap string string := <[ "a@example.com" := "project" ]> ∅ in
  getProjectForAccount (E := Sample.environment) account "other-token"
    cache' tt = ("project", cache', tt).
Proof.
  apply (getProjectForAccount_cached (E := Sample.environment)
           (Sample.account "a@example.com" false ∅) "access-token" ∅ tt
           "project" (<[ "a@example.com" := "project" ]> ∅) tt
           "other-token" tt).
  - vm_compute. reflexivity.
  - vm_compute. discriminate.
Defined.

End CredentialCachesSamples.

(** ** The account manager keeps the pool *)
Section ManagerPool.

Import RateLimits Selection Credentials Pool.
Context {K : Constants} {World Body Resp : Type}
        {E : Environment World Body Resp}.

Lemma manager_pickStickyAccount_facts modelId now (st : AccountManager.State) :
  let run := AccountManager.pickStickyAccount modelId now st in
  email <$> AccountManager.accounts run.2 = email <$> AccountManager.accounts st /\
  match run.1.1 with
  | Some a =>
    isAccountUsable (Some a) modelId now = true /\
    accountAt (AccountManager.accounts run.2)
      (AccountManager.currentIndex run.2) = Some a
  | None => run.1.2 = 0 \/ 0 < run.1.2 <= MAX_WAIT_BEFORE_ERROR_MS
  end.
Proof.
  cbv zeta. unfold AccountManager.pickStickyAccount. cbn.
  split; [apply pickStickyAccount_emails|].
  destruct (st_account _) as [a|] eqn:Hsel.
  - by apply pickStickyAccount_Some.
  - destruct (pickStickyAccount_cases (AccountManager.accounts st)
                (AccountManager.currentIndex st) true modelId now)
      as [(a & _ & _ & Heq) | [(_ & a & _ & Heq) | (_ & Hnone & Heq)]];
      rewrite Heq in Hsel |- *; try done.
    destruct (waitOrAdvance_nobody _ (AccountManager.currentIndex st) true
                modelId now Hnone) as (_ & _ & _ & [Hw | [Hw _]]); auto.
Qed.

Lemma manager_clearExpiredLimits_emails now (st : AccountManager.State) :
  email <$> AccountManager.accounts (AccountManager.clearExpiredLimits now st).2 =
  email <$> AccountManager.accounts st.
Proof.
  unfold AccountManager.clearExpiredLimits, clearExpiredLimits.
  destruct (0 <? _)%nat; cbn; apply emails_sweep.
Qed.

Lemma manager_getCurrentStickyAccount_facts modelId now (st : AccountManager.State) :
  let run := AccountManager.getCurrentStickyAccount modelId now st in
  email <$> AccountManager.accounts run.2 = email <$> AccountManager.accounts st /\
  match run.1 with
  | Some a =>
    isAccountUsable (Some a) modelId now = true /\
    accountAt (AccountManager.accounts run.2)
      (AccountManager.currentIndex run.2) = Some a
  | None => True
  end.
Proof.
  cbv zeta. unfold AccountManager.getCurrentStickyAccount. cbn.
  split; [apply getCurrentStickyAccount_emails|].
  destruct (sel_account _) as [a|] eqn:Hsel; [|done].
  by apply getCurrentStickyAccount_Some.
Qed.

Lemma manager_pickNext_facts modelId now (st : AccountManager.State) :
  let run := AccountManager.pickNext modelId now st in
  email <$> AccountManager.accounts run.2 = email <$> AccountManager.accounts st /\
  match run.1 with
  | Some a =>
    isAccountUsable (Some a) modelId now = true /\
    accountAt (AccountManager.accounts run.2)
      (AccountManager.currentIndex run.2) = Some a
  | None => True
  end.
Proof.
  cbv zeta. unfold AccountManager.pickNext. cbn.
  split; [apply pickNext_emails|].
  destruct (sel_account _) as [a|] eqn:Hsel; [|done].
  by destruct (pickNext_Some _ _ _ _ _ _ Hsel) as (? & _ & ? & _).
Qed.

Lemma markRateLimited_emails accounts e resetMs settings m now :
  email <$> (markRateLimited accounts e resetMs settings m now).1 =
  email <$> accounts.
Proof.
  unfold markRateLimited.
  destruct (findIndexByEmail accounts e) as [i|]; [|done].
  destruct (accounts !! i) as [a|] eqn:Ha; [|done].
  cbn [fst]. by apply (emails_insert _ _ _ a).
Qed.

Lemma markInvalid_emails accounts e reason now :
  email <$> (markInvalid accounts e reason now).1 = email <$> accounts.
Proof.
  unfold markInvalid.
  destruct (findIndexByEmail accounts e) as [i|]; [|done].
  destruct (accounts !! i) as [a|] eqn:Ha; [|done].
  cbn [fst]. by apply (emails_insert _ _ _ a).
Qed.

Lemma clearInvalidFlag_emails accounts e :
  email <$> AccountManager.clearInvalidFlag accounts e = email <$> accounts.
Proof.
  unfold AccountManager.clearInvalidFlag.
  destruct (findIndexByEmail accounts e) as [i|]; [|done].
  destruct (accounts !! i) as [a|] eqn:Ha; [|done].
  by apply (emails_insert _ _ _ a).
Qed.

Lemma manager_markRateLimited_emails e resetMs modelId now
    (st : AccountManager.State) :
  email <$> AccountManager.accounts
              (AccountManager.markRateLimited e resetMs modelId now st) =
  email <$> AccountManager.accounts st.
Proof.
  unfold AccountManager.markRateLimited.
  destruct (JS.truthy modelId) as [m|]; [|done].
  pose proof (markRateLimited_emails (AccountManager.accounts st) e resetMs
                (AccountManager.settings st) m now) as H.
  by destruct (markRateLimited _ _ _ _ _ _) as [accs b].
Qed.

Lemma manager_markInvalid_emails e reason now (st : AccountManager.State) :
  email <$> AccountManager.accounts (AccountManager.markInvalid e reason now st) =
  email <$> AccountManager.accounts st.
Proof.
  unfold AccountManager.markInvalid.
  pose proof (markInvalid_emails (AccountManager.accounts st) e reason now) as H.
  by destruct (markInvalid _ _ _ _) as [accs b].
Qed.

(** The callbacks' state after [getTokenForAccount]: untouched, or passed
    once through one of the two callbacks. *)
Lemma getTokenForAccount_state {S}
    (account : Account) (tokenCache : gmap string TokenCacheEntry)
    (onInvalid : option (string -> string -> S -> S))
    (onSave : option (S -> S)) (now : Z) (s : S) (w : World) :
  let r := getTokenForAccount account tokenCache onInvalid onSave now s w in
  tr_state r = s \/ tr_state r = callOnSave onSave s \/
  exists err, tr_state r = callOnInvalid onInvalid (email account) err s.
Proof.
  cbv zeta. unfold getTokenForAccount.
  repeat (case_match; simplify_eq; cbn [tr_state]; auto);
    try (right; right; by eexists).
Qed.

Lemma manager_getTokenForAccount_emails account now
    (st : AccountManager.State) (w : World) :
  email <$> AccountManager.accounts
              (AccountManager.getTokenForAccount account now st w).1.2 =
  email <$> AccountManager.accounts st.
Proof.
  unfold AccountManager.getTokenForAccount.
  pose proof (getTokenForAccount_state account (AccountManager.tokenCache st)
    (Some (fun e reason st => AccountManager.markInvalid e reason now st))
    (Some AccountManager.saveToDisk) now st w) as Hst.
  cbv zeta in Hst.
  destruct (getTokenForAccount _ _ _ _ _ _ _) as [out acc cache st' w'].
  cbn [tr_state tr_account tr_outcome tr_tokenCache tr_world fst snd] in *.
  assert (Hst' : email <$> AccountManager.accounts st' =
                 email <$> AccountManager.accounts st).
  { destruct Hst as [-> | [-> | [err ->]]]; [done|done|].
    apply manager_markInvalid_emails. }
  destruct (isInvalid account && negb (isInvalid acc)); cbn; [|done].
  by rewrite clearInvalidFlag_emails.
Qed.

Lemma manager_getProjectForAccount_emails account tok
    (st : AccountManager.State) (w : World) :
  email <$> AccountManager.accounts
              (AccountManager.getProjectForAccount account tok st w).1.2 =
  email <$> AccountManager.accounts st.
Proof.
  unfold AccountManager.getProjectForAccount.
  by destruct (Credentials.getProjectForAccount _ _ _ _) as [[p cache] w'].
Qed.

End ManagerPool.

(** ** The dispatcher: what every run keeps *)
Section DispatcherBounds.

Import RateLimits Selection Dispatcher Trace Steady.
Context {K : Constants} {Rt : SSE.Runtime} {World Body Resp : Type}
        {E : Environment World Body Resp}.

Lemma attempts_app evs1 evs2 :
  attempts (evs1 ++ evs2) = (attempts evs1 + attempts evs2)%nat.
Proof.
  induction evs1 as [|e evs1 IH]; [done|].
  destruct e; simpl; by rewrite ?IH.
Qed.

Lemma attempts_yield (ys : list SSE.AnthropicSSEEvent) :
  attempts (EvYield <$> ys) = 0%nat.
Proof. induction ys; simpl; auto. Qed.

Lemma sleepWithin_yield (ys : list SSE.AnthropicSSEEvent) :
  Forall sleepWithin (EvYield <$> ys).
Proof. induction ys; simpl; constructor; auto. exact I. Qed.

Lemma bounded_refl n (d : DState World) : bounded n d d [].
Proof. split; [done|]. split; [constructor|simpl; lia]. Qed.

Lemma bounded_app n1 n2 (d1 d2 d3 : DState World) ev1 ev2 :
  bounded n1 d1 d2 ev1 -> bounded n2 d2 d3 ev2 ->
  bounded (n1 + n2) d1 d3 (ev1 ++ ev2).
Proof.
  intros (He1 & Hs1 & Ha1) (He2 & Hs2 & Ha2).
  split; [congruence|]. split; [by apply Forall_app|].
  rewrite attempts_app. lia.
Qed.

Lemma bounded_weaken n m (d d' : DState World) ev :
  (n <= m)%nat -> bounded n d d' ev -> bounded m d d' ev.
Proof. intros Hle (He & Hs & Ha). repeat split; try done. lia. Qed.

Ltac manager_calls :=
  repeat match goal with
  | |- context [AccountManager.pickStickyAccount ?m ?n ?s] =>
    let H := fresh "Hsticky" in
    pose proof (manager_pickStickyAccount_facts m n s) as H; cbv zeta in H;
    destruct (AccountManager.pickStickyAccount m n s) as [[? ?] ?];
    cbn [fst snd] in H
  | |- context [AccountManager.clearExpiredLimits ?n ?s] =>
    let H := fresh "Hclear" in
    pose proof (manager_clearExpiredLimits_emails n s) as H;
    destruct (AccountManager.clearExpiredLimits n s) as [? ?];
    cbn [fst snd] in H
  | |- context [AccountManager.getCurrentStickyAccount ?m ?n ?s] =>
    let H := fresh "Hcurrent" in
    pose proof (manager_getCurrentStickyAccount_facts m n s) as H; cbv zeta in H;
    destruct (AccountManager.getCurrentStickyAccount m n s) as [? ?];
    cbn [fst snd] in H
  | |- context [AccountManager.pickNext ?m ?n ?s] =>
    let H := fresh "Hnext" in
    pose proof (manager_pickNext_facts m n s) as H; cbv zeta in H;
    destruct (AccountManager.pickNext m n s) as [? ?];
    cbn [fst snd] in H
  | |- context [if ?b then _ else _] => destruct b eqn:?
  | |- context [match ?x with Some _ => _ | None => _ end] => destruct x eqn:?
  end.

Ltac finish_bounded :=
  repeat match goal with
  | H : _ /\ _ |- _ => destruct H
  | H : (_ <? _) = true |- _ => apply Z.ltb_lt in H
  | H : (_ <? _) = false |- _ => apply Z.ltb_ge in H
  end;
  simpl in *; repeat split; try done; try congruence;
  repeat constructor; simpl; try lia; auto.

(** What the choice of an account keeps, and what is known of the account
    chosen. *)
Lemma selectAccount_facts model fallbackEnabled (d : DState World) :
  let run := selectAccount model fallbackEnabled d in
  bounded 0 d run.1.2 run.2 /\
  match run.1.1 with
  | SelAccount a =>
    isAccountUsable (Some a) (Some model) (clock run.1.2) = true /\
    accountAt (AccountManager.accounts (mgr run.1.2))
      (AccountManager.currentIndex (mgr run.1.2)) = Some a
  | _ => True
  end.
Proof.
  cbv zeta. unfold selectAccount. manager_calls.
  all: cbn [fst snd mgr clock withMgr sleep app].
  all: unfold bounded, emailsOf; cbn [mgr clock withMgr sleep attempts].
  all: finish_bounded.
Qed.

Lemma messageEndpoint_steady request account tok project isThinking :
  steadyBody (messageEndpoint request account tok project isThinking).
Proof.
  intros endpoint lastError d.
  unfold messageEndpoint, authOrRateLimit.
  destruct (fetch _ (world d)) as [reply w].
  repeat (case_match; simplify_eq; try done).
  all: cbn [fst snd]; unfold bounded, emailsOf; cbn.
  all: repeat split; try done; try lia.
  all: repeat constructor; by right.
Qed.

Lemma streamEndpoint_steady request account tok project :
  steadyBody (streamEndpoint request account tok project).
Proof.
  intros endpoint lastError d.
  unfold streamEndpoint, authOrRateLimit.
  destruct (fetch _ (world d)) as [reply w].
  repeat (case_match; simplify_eq; try done).
  all: cbn [fst snd]; unfold bounded, emailsOf; cbn.
  all: repeat split; try done; try lia;
         rewrite ?attempts_yield; try lia; try apply sleepWithin_yield.
  all: repeat constructor; by right.
Qed.

Lemma endpointLoop_bounded {R} body endpoints lastError (d : DState World) :
  steadyBody (R := R) body ->
  let run := endpointLoop body endpoints lastError d in
  bounded 0 d run.1.2 run.2.
Proof.
  intros Hbody. cbv zeta. revert lastError d.
  induction endpoints as [|endpoint rest IH]; intros lastError d;
    [apply bounded_refl|].
  simpl. specialize (Hbody endpoint lastError d).
  destruct (body endpoint lastError d) as [[step d1] ev].
  destruct step as [lastError'| |]; cbn [fst snd] in *; [|done..].
  specialize (IH lastError' d1).
  destruct (endpointLoop body rest lastError' d1) as [[step' d2] ev'].
  cbn [fst snd] in *. by apply (bounded_app 0 0 d d1 d2).
Qed.

Lemma tryAccount_bounded {R} body request account (d : DState World) :
  (forall tok project, steadyBody (R := R) (body tok project)) ->
  let run := tryAccount body request account d in
  bounded 1 d run.1.2 run.2.
Proof.
  intros Hbody. cbv zeta. unfold tryAccount.
  pose proof (manager_getTokenForAccount_emails account (clock d) (mgr d) (world d))
    as Htok.
  destruct (AccountManager.getTokenForAccount _ _ _ _) as [[tokenOutcome m] w].
  cbn [fst snd] in Htok.
  destruct tokenOutcome as [tok|err].
  2:{ cbn [fst snd]. unfold bounded, emailsOf. cbn.
      split; [done|]. split; [repeat constructor|lia]. }
  pose proof (manager_getProjectForAccount_emails account tok
                (mgr (withWorld (withMgr d m) w))
                (world (withWorld (withMgr d m) w))) as Hproj.
  destruct (AccountManager.getProjectForAccount _ _ _ _) as [[project m'] w'].
  cbn [fst snd] in Hproj.
  pose proof (endpointLoop_bounded (body tok project)
                ANTIGRAVITY_ENDPOINT_FALLBACKS NoError
                (withWorld (withMgr (withWorld (withMgr d m) w) m') w')
                (Hbody tok project)) as Hloop.
  cbv zeta in Hloop.
  destruct (endpointLoop _ _ _ _) as [[step d1] ev].
  cbn [fst snd] in Hloop. destruct Hloop as (He & Hs & Ha).
  unfold emailsOf in He. cbn [mgr withMgr withWorld] in *.
  assert (Hpool : email <$> AccountManager.accounts (mgr d1) =
                  email <$> AccountManager.accounts (mgr d)) by congruence.
  destruct step as [[| |]| |]; cbn [fst snd]; unfold bounded, emailsOf;
    cbn [mgr withMgr attempts];
    rewrite ?manager_markRateLimited_emails;
    (split; [done|]); (split; [by constructor|lia]).
Qed.

Lemma attemptCatch_bounded request err (d : DState World) :
  let run := attemptCatch request err d in
  bounded 0 d run.1.2 run.2.
Proof.
  cbv zeta. unfold attemptCatch. manager_calls.
  all: cbn [fst snd mgr clock withMgr sleep app].
  all: unfold bounded, emailsOf; cbn [mgr clock withMgr sleep attempts].
  all: repeat match goal with H : _ /\ _ |- _ => destruct H end.
  all: repeat split; try done; try lia.
  all: repeat constructor; by right.
Qed.

(** The retry loop: at most [attempts] attempts of its own, plus those of
    the recursive call, which is made only with fallback enabled. *)
Lemma retryLoop_bounded {R} body recurse request fallbackEnabled
    (bound : nat) (pool : list string) :
  (forall request account tok project,
      steadyBody (R := R) (body request account tok project)) ->
  (forall rq d0, emailsOf d0 = pool ->
     bounded bound d0 (recurse rq false d0).1.2 (recurse rq false d0).2) ->
  forall attempts (d : DState World),
    emailsOf d = pool ->
    let run := retryLoop body recurse request fallbackEnabled attempts d in
    bounded (attempts + (if fallbackEnabled then bound else 0)) d run.1.2 run.2.
Proof.
  intros Hbody Hrec attempts.
  induction attempts as [|attempts IH]; intros d Hpool; cbv zeta; simpl.
  { apply (bounded_weaken 0); [lia|apply bounded_refl]. }
  pose proof (selectAccount_facts (model request) fallbackEnabled d) as [Hsel _].
  destruct (selectAccount (model request) fallbackEnabled d)
    as [[sel d1] ev1] eqn:Esel.
  cbn [fst snd] in Hsel.
  assert (Hpool1 : emailsOf d1 = pool) by (destruct Hsel as [-> _]; done).
  destruct sel as [account|err|fm].
  - pose proof (tryAccount_bounded (body request account) request account d1
                  (Hbody request account)) as Htry.
    cbv zeta in Htry.
    destruct (tryAccount _ _ _ _) as [[att d2] ev2]. cbn [fst snd] in Htry.
    assert (Hpool2 : emailsOf d2 = pool) by (destruct Htry as [-> _]; done).
    pose proof (bounded_app 0 1 d d1 d2 ev1 ev2 Hsel Htry) as H12.
    destruct att as [r|err|].
    + cbn [fst snd]. apply (bounded_weaken (0 + 1)); [lia|done].
    + pose proof (attemptCatch_bounded request err d2) as Hcatch.
      cbv zeta in Hcatch.
      destruct (attemptCatch request err d2) as [[thrown d3] ev3].
      cbn [fst snd] in Hcatch.
      assert (Hpool3 : emailsOf d3 = pool) by (destruct Hcatch as [-> _]; done).
      pose proof (bounded_app _ 0 d d2 d3 _ ev3 H12 Hcatch) as H123.
      destruct thrown as [err'|].
      * cbn [fst snd]. rewrite app_assoc.
        apply (bounded_weaken (0 + 1 + 0)); [lia|done].
      * specialize (IH d3 Hpool3). cbv zeta in IH.
        destruct (retryLoop body recurse request fallbackEnabled attempts d3)
          as [[r d4] ev4].
        cbn [fst snd] in *.
        replace (ev1 ++ ev2 ++ ev3 ++ ev4) with ((ev1 ++ ev2) ++ ev3 ++ ev4)
          by (by rewrite <- !app_assoc).
        rewrite app_assoc.
        eapply bounded_weaken; [|exact (bounded_app _ _ _ _ _ _ _ H123 IH)].
        lia.
    + specialize (IH d2 Hpool2). cbv zeta in IH.
      destruct (retryLoop body recurse request fallbackEnabled attempts d2)
        as [[r d4] ev4].
      cbn [fst snd] in *. rewrite app_assoc.
      eapply bounded_weaken; [|exact (bounded_app _ _ _ _ _ _ _ H12 IH)].
      lia.
  - cbn [fst snd]. apply (bounded_weaken 0); [lia|done].
  - apply selectAccount_fallback in Esel as [-> _].
    specialize (Hrec {| model := fm; payload := payload request |} d1 Hpool1).
    destruct (recurse _ false d1) as [[r d2] ev2]. cbn [fst snd] in *.
    eapply bounded_weaken; [|exact (bounded_app _ _ _ _ _ _ _ Hsel Hrec)].
    lia.
Qed.

Lemma maxAttempts_pool (d d' : DState World) :
  emailsOf d' = emailsOf d -> maxAttempts d' = maxAttempts d.
Proof.
  unfold emailsOf, maxAttempts, AccountManager.getAccountCount. intros H.
  apply (f_equal length) in H. rewrite !length_fmap in H. by rewrite H.
Qed.

Lemma sendMessage_bounded fuel request fallbackEnabled (d : DState World) :
  let run := sendMessage fuel request fallbackEnabled d in
  bounded ((if fallbackEnabled then 2 else 1) * maxAttempts d) d run.1.2 run.2.
Proof.
  cbv zeta. revert request fallbackEnabled d.
  induction fuel as [|fuel IH]; intros request fallbackEnabled d.
  { simpl. apply (bounded_weaken 0); [lia|apply bounded_refl]. }
  rewrite sendMessage_unfold.
  pose proof (retryLoop_bounded
    (fun rq account tok project =>
       messageEndpoint rq account tok project (isThinkingModel (model request)))
    (sendMessage fuel) request fallbackEnabled (maxAttempts d) (emailsOf d)) as H.
  specialize (H (fun rq account tok project =>
                   messageEndpoint_steady rq account tok project _)).
  assert (Hrec : forall rq d0, emailsOf d0 = emailsOf d ->
            bounded (maxAttempts d) d0 (sendMessage fuel rq false d0).1.2
              (sendMessage fuel rq false d0).2).
  { intros rq d0 Hd0. specialize (IH rq false d0).
    rewrite (maxAttempts_pool d d0 Hd0) in IH.
    eapply bounded_weaken; [|exact IH]. lia. }
  specialize (H Hrec (maxAttempts d) d eq_refl). cbv zeta in H.
  destruct (retryLoop _ _ _ _ _ _) as [[r d'] ev]. cbn [fst snd] in *.
  destruct H as (He & Hs & Ha). split; [done|]. split; [by constructor|].
  simpl. destruct fallbackEnabled; lia.
Qed.

Lemma sendMessageStream_bounded fuel request fallbackEnabled (d : DState World) :
  let run := sendMessageStream fuel request fallbackEnabled d in
  bounded ((if fallbackEnabled then 2 else 1) * maxAttempts d) d run.1.2 run.2.
Proof.
  cbv zeta. revert request fallbackEnabled d.
  induction fuel as [|fuel IH]; intros request fallbackEnabled d.
  { simpl. apply (bounded_weaken 0); [lia|apply bounded_refl]. }
  rewrite sendMessageStream_unfold.
  pose proof (retryLoop_bounded
    (fun rq account tok project => streamEndpoint rq account tok project)
    (sendMessageStream fuel) request fallbackEnabled (maxAttempts d) (emailsOf d))
    as H.
  specialize (H (fun rq account tok project =>
                   streamEndpoint_steady rq account tok project)).
  assert (Hrec : forall rq d0, emailsOf d0 = emailsOf d ->
            bounded (maxAttempts d) d0 (sendMessageStream fuel rq false d0).1.2
              (sendMessageStream fuel rq false d0).2).
  { intros rq d0 Hd0. specialize (IH rq false d0).
    rewrite (maxAttempts_pool d d0 Hd0) in IH.
    eapply bounded_weaken; [|exact IH]. lia. }
  specialize (H Hrec (maxAttempts d) d eq_refl). cbv zeta in H.
  destruct (retryLoop _ _ _ _ _ _) as [[r d'] ev]. cbn [fst snd] in *.
  destruct H as (He & Hs & Ha). split; [done|]. split; [by constructor|].
  simpl. destruct fallbackEnabled; lia.
Qed.

(** X19.  The dispatcher only ever tries an account that can serve.
    Whenever the head of the retry loop settles on an account, straight
    away or after a sleep, that account is usable for the requested model at
    the time the attempt starts (after the sleep, if there was one): it is
    not marked invalid and has no active rate limit for the model; and it is
    the pool's entry at the active index. *)
Theorem selectAccount_picks_usable
    (model : string) (fallbackEnabled : bool) (d : DState World) :
  let run := selectAccount model fallbackEnabled d in
  match run.1.1 with
  | SelAccount a =>
    isAccountUsable (Some a) (Some model) (clock run.1.2) = true /\
    isInvalid a = false /\
    accountAt (AccountManager.accounts (mgr run.1.2))
      (AccountManager.currentIndex (mgr run.1.2)) = Some a
  | _ => True
  end.
Proof.
  cbv zeta.
  destruct (selectAccount_facts model fallbackEnabled d) as [_ Hsel].
  destruct (selectAccount model fallbackEnabled d) as [[sel d'] ev].
  cbn [fst snd] in *. destruct sel as [a| |]; [|done..].
  destruct Hsel as [Hu Hactive]. split; [done|]. split; [|done].
  unfold isAccountUsable in Hu. by destruct (isInvalid a).
Qed.

(** X20.  Neither handler ever adds, removes or reorders accounts: after
    [sendMessage] or [sendMessageStream], however the run ends, the pool
    holds the same emails in the same order as before. *)
Theorem dispatcher_keeps_pool
    (fuel : nat) (request : AnthropicRequest) (fallbackEnabled : bool)
    (d : DState World) :
  emailsOf (sendMessage fuel request fallbackEnabled d).1.2 = emailsOf d /\
  emailsOf (sendMessageStream fuel request fallbackEnabled d).1.2 = emailsOf d.
Proof.
  split.
  - by destruct (sendMessage_bounded fuel request fallbackEnabled d) as [? _].
  - by destruct (sendMessageStream_bounded fuel request fallbackEnabled d)
      as [? _].
Qed.

(** X21.  The retries are bounded.  One call of [sendMessage] or
    [sendMessageStream] makes at most [max(MAX_RETRIES, accounts + 1)]
    attempts when fallback is disabled, and at most twice that number when
    it is enabled (the attempts for the requested model and those for the
    fallback model). *)
Theorem dispatcher_attempts_bounded
    (fuel : nat) (request : AnthropicRequest) (fallbackEnabled : bool)
    (d : DState World) :
  let limit := ((if fallbackEnabled then 2 else 1) * maxAttempts d)%nat in
  (attempts (sendMessage fuel request fallbackEnabled d).2 <= limit)%nat /\
  (attempts (sendMessageStream fuel request fallbackEnabled d).2 <= limit)%nat.
Proof.
  cbv zeta. split.
  - by destruct (sendMessage_bounded fuel request fallbackEnabled d)
      as (_ & _ & ?).
  - by destruct (sendMessageStream_bounded fuel request fallbackEnabled d)
      as (_ & _ & ?).
Qed.

(** X22.  The handlers never sleep long in one go: every sleep of a run is
    the one-second pause after a server or network error, or a wait for a
    rate limit that is at most [MAX_WAIT_BEFORE_ERROR_MS]. *)
Theorem dispatcher_sleeps_bounded
    (fuel : nat) (request : AnthropicRequest) (fallbackEnabled : bool)
    (d : DState World) :
  Forall sleepWithin (sendMessage fuel request fallbackEnabled d).2 /\
  Forall sleepWithin (sendMessageStream fuel request fallbackEnabled d).2.
Proof.
  split.
  - by destruct (sendMessage_bounded fuel request fallbackEnabled d)
      as (_ & ? & _).
  - by destruct (sendMessageStream_bounded fuel request fallbackEnabled d)
      as (_ & ? & _).
Qed.

End DispatcherBounds.

(** ** The SSE translator: chunk boundaries do not matter *)
Section StreamChunks.

Import SSE Stream.
Context {K : Constants} {R : Runtime}.

Lemma append_cons c s t : String c s +:+ t = String c (s +:+ t).
Proof. reflexivity. Qed.

Lemma append_empty_l t : "" +:+ t = t.
Proof. reflexivity. Qed.

Lemma append_empty_r s : s +:+ "" = s.
Proof. induction s as [|c s IH]; [done|]. by rewrite append_cons, IH. Qed.

Lemma append_assoc s t u : (s +:+ t) +:+ u = s +:+ (t +:+ u).
Proof. induction s as [|c s IH]; [done|]. by rewrite !append_cons, IH. Qed.

Lemma splitNewline_cons s : exists p ps, splitNewline s = p :: ps.
Proof.
  induction s as [|c s (p & ps & IH)]; simpl; [by eexists _, _|].
  rewrite IH. destruct (Ascii.eqb c newline); by eexists _, _.
Qed.

Lemma removelast_cons2 {A} (x y : A) l :
  removelast (x :: y :: l) = x :: removelast (y :: l).
Proof. reflexivity. Qed.

Lemma last_cons2 {A} (x y : A) l d :
  List.last (x :: y :: l) d = List.last (y :: l) d.
Proof. reflexivity. Qed.

(** Splitting a concatenation: the complete lines of the first part, then
    the split of its unfinished line followed by the second part. *)
Lemma splitNewline_app s1 s2 :
  splitNewline (s1 +:+ s2) =
  removelast (splitNewline s1) ++
  splitNewline (List.last (splitNewline s1) "" +:+ s2).
Proof.
  induction s1 as [|c s1 IH]; [done|].
  rewrite append_cons. cbn [splitNewline]. rewrite IH.
  destruct (splitNewline_cons s1) as (p & ps & Hs1). rewrite Hs1.
  destruct (Ascii.eqb c newline) eqn:Hc.
  - by rewrite removelast_cons2, last_cons2.
  - destruct ps as [|p' ps'].
    + cbn [removelast List.last app]. rewrite append_cons. cbn [splitNewline].
      rewrite Hc. done.
    + rewrite !removelast_cons2, !last_cons2. done.
Qed.

(** A piece of a split holds no newline: it splits into itself. *)
Lemma splitNewline_piece s p :
  p ∈ splitNewline s -> splitNewline p = [p].
Proof.
  revert p. induction s as [|c s IH]; intros p; simpl.
  - intros Hp. apply list_elem_of_singleton in Hp as ->. done.
  - destruct (splitNewline_cons s) as (q & qs & Hs). rewrite Hs in *.
    destruct (Ascii.eqb c newline) eqn:Hc.
    + intros Hp. apply elem_of_cons in Hp as [-> | Hp]; [done|]. by apply IH.
    + intros Hp. apply elem_of_cons in Hp as [-> | Hp].
      * simpl. rewrite Hc, (IH q); [done|]. apply list_elem_of_here.
      * apply IH. by apply list_elem_of_further.
Qed.

Lemma last_elem_of {A} (x : A) l d : List.last (x :: l) d ∈ x :: l.
Proof.
  revert x. induction l as [|y l IH]; intros x.
  - apply list_elem_of_here.
  - rewrite last_cons2. apply list_elem_of_further, IH.
Qed.

Lemma removelast_split_last s :
  removelast (splitNewline (List.last (splitNewline s) "")) = [].
Proof.
  destruct (splitNewline_cons s) as (p & ps & Hs). rewrite Hs.
  rewrite (splitNewline_piece s); [done|].
  rewrite Hs. apply last_elem_of.
Qed.

Lemma removelast_splitNewline_app s1 s2 :
  removelast (splitNewline (s1 +:+ s2)) =
  removelast (splitNewline s1) ++
  removelast (splitNewline (List.last (splitNewline s1) "" +:+ s2)).
Proof.
  rewrite splitNewline_app.
  destruct (splitNewline_cons (List.last (splitNewline s1) "" +:+ s2))
    as (p & ps & ->).
  by apply removelast_app.
Qed.

(** The complete lines of a chunk sequence are those of its text. *)
Lemma chunkLines_bodyText chunks buffer :
  removelast (splitNewline buffer) = [] ->
  chunkLines buffer chunks =
  removelast (splitNewline (buffer +:+ bodyText chunks)).
Proof.
  revert buffer. induction chunks as [|chunk rest IH]; intros buffer Hbuf.
  - simpl. by rewrite append_empty_r, Hbuf.
  - cbn [chunkLines bodyText foldr].
    rewrite (IH _ (removelast_split_last _)).
    fold (bodyText rest).
    by rewrite <- append_assoc, (removelast_splitNewline_app (buffer +:+ chunk)).
Qed.

Lemma payloads_bodyText chunks :
  payloads chunks =
  omap dataOfLine (removelast (splitNewline (bodyText chunks))).
Proof. unfold payloads. by rewrite chunkLines_bodyText. Qed.

(** X23.  The events depend on the text of the body only, not on how the
    network cut it into chunks: two chunk sequences with the same
    concatenation are translated into the same events. *)
Theorem streamSSEResponse_chunking
    (chunks1 chunks2 : list string) (originalModel : string) :
  bodyText chunks1 = bodyText chunks2 ->
  streamSSEResponse chunks1 originalModel =
  streamSSEResponse chunks2 originalModel.
Proof.
  intros Htext. rewrite !streamSSEResponse_payloads, !payloads_bodyText.
  by rewrite Htext.
Qed.

End StreamChunks.

(** *** On a sample body *)
Section StreamChunksSamples.

Import SSE Stream.

(** One line delivered whole, and the same line cut in two. *)
Lemma streamSSEResponse_chunking_witness :
  streamSSEResponse (K := Sample.constants) (R := Sample.runtime)
    [Sample.line "data: text"] "m" =
  streamSSEResponse (K := Sample.constants) (R := Sample.runtime)
    ["data: te"; Sample.line "xt"] "m".
Proof.
  apply (streamSSEResponse_chunking (K := Sample.constants)
           (R := Sample.runtime)
           [Sample.line "data: text"] ["data: te"; Sample.line "xt"] "m").
  vm_compute. reflexivity.
Defined.

End StreamChunksSamples.

(** ** The SSE translator: what the events carry *)
Section StreamContent.

Import SSE Stream.
Context {K : Constants} {R : Runtime}.

Lemma contentDeltas_app evs1 evs2 :
  contentDeltas (evs1 ++ evs2) = contentDeltas evs1 ++ contentDeltas evs2.
Proof.
  induction evs1 as [|e evs1 IH]; [done|].
  destruct e as [| | i [] | | |]; simpl; by rewrite ?IH.
Qed.

Lemma flushSignature_content st :
  contentDeltas (flushSignature st).2 = [] /\
  hasEmittedStart (flushSignature st).1 = hasEmittedStart st.
Proof. unfold flushSignature. by case_match. Qed.

Lemma closeBlock_content st :
  contentDeltas (closeBlock st).2 = [] /\
  hasEmittedStart (closeBlock st).1 = hasEmittedStart st.
Proof. unfold closeBlock. by case_match. Qed.

(** Whatever the state, a part yields its content delta and nothing else
    that carries content; the body throws on the parts that [throws]
    tells. *)
Lemma processPart_content originalModel st part :
  let run := processPart originalModel st part in
  contentDeltas run.1.2 = option_list (deltaOf part) /\
  hasEmittedStart run.1.1 = hasEmittedStart st /\
  run.2 = throws (Some part).
Proof.
  cbv zeta. unfold processPart, deltaOf, throws.
  destruct (isThought part), (text part) as [| |txt],
    (functionCall part) as [| |fc].
  all: try (by repeat split).
  all: try (destruct (isEmpty txt || (String.length (trim txt) =? 0)%nat);
            [by repeat split|]).
  all: try destruct (isBlockType st _).
  all: pose proof (flushSignature_content st) as [Hf1 Hf2];
       destruct (flushSignature st) as [st1 sig]; cbn [fst snd] in Hf1, Hf2.
  all: pose proof (closeBlock_content st) as [Hc1 Hc2];
       pose proof (closeBlock_content st1) as [Hd1 Hd2];
       destruct (closeBlock st) as [st2 stop]; cbn [fst snd] in Hc1, Hc2;
       destruct (closeBlock st1) as [st3 stop']; cbn [fst snd] in Hd1, Hd2.
  all: repeat case_match; simplify_eq.
  all: cbn [fst snd]; rewrite ?contentDeltas_app, ?Hf1, ?Hc1, ?Hd1.
  all: cbn; repeat split; congruence.
Qed.

Lemma processParts_content originalModel ps st :
  let run := processParts originalModel st ps in
  contentDeltas run.1.2 = omap deltaOf (reached ps) /\
  hasEmittedStart run.1.1 = hasEmittedStart st.
Proof.
  cbv zeta. revert st. induction ps as [|[part|] rest IH]; intros st;
    [done| |done].
  cbn [processParts reached].
  pose proof (processPart_content originalModel st part) as (Hp1 & Hp2 & Hp3).
  destruct (processPart originalModel st part) as [[st1 evs1] threw].
  cbn [fst snd] in *. subst threw.
  destruct (throws (Some part)).
  - cbn [fst snd]. rewrite Hp1. split; [|done].
    simpl. by destruct (deltaOf part).
  - destruct (IH st1) as [Hr1 Hr2].
    destruct (processParts originalModel st1 rest) as [[st2 evs2] threw2].
    cbn [fst snd] in *. rewrite contentDeltas_app, Hp1, Hr1.
    split; [|congruence]. simpl. by destruct (deltaOf part).
Qed.

Lemma processData_content messageId originalModel st data :
  let run := processData messageId originalModel st data in
  contentDeltas run.2 = omap deltaOf (reached (partsOf data)) /\
  hasEmittedStart run.1 =
    hasEmittedStart st || (0 <? length (partsOf data))%nat.
Proof.
  cbv zeta. unfold processData.
  destruct (extractUsage_fields st data) as (Hs & _ & _).
  rewrite Hs.
  assert (Hfinish : forall (threw : bool) st1,
    hasEmittedStart (if threw then st1 else checkFinishReason st1 data) =
    hasEmittedStart st1).
  { intros [] st1; [done|].
    by destruct (checkFinishReason_fields st1 data) as (-> & _). }
  destruct (negb (hasEmittedStart st) && (0 <? length (partsOf data))%nat)
    eqn:Hstart.
  - destruct (processParts_content originalModel (partsOf data)
                (withStart (extractUsage st data))) as [Hp1 Hp2].
    destruct (processParts _ _ _) as [[st1 evs1] threw]. cbn [fst snd] in *.
    rewrite Hfinish, Hp2. split; [done|]. simpl.
    apply andb_true_iff in Hstart as [_ ->]. by rewrite orb_true_r.
  - destruct (processParts_content originalModel (partsOf data)
                (extractUsage st data)) as [Hp1 Hp2].
    destruct (processParts _ _ _) as [[st1 evs1] threw]. cbn [fst snd] in *.
    rewrite Hfinish, Hp2, Hs. split; [done|].
    destruct (hasEmittedStart st); [done|]. simpl in *. by rewrite Hstart.
Qed.

Lemma allParts_cons d ds :
  allParts (d :: ds) = reached (partsOf d) ++ allParts ds.
Proof. reflexivity. Qed.

Lemma rawParts_cons d ds : rawParts (d :: ds) = partsOf d ++ rawParts ds.
Proof. reflexivity. Qed.

Lemma processPayloads_content messageId originalModel ds st :
  let run := processPayloads messageId originalModel st ds in
  contentDeltas run.2 = omap deltaOf (allParts ds) /\
  hasEmittedStart run.1 =
    hasEmittedStart st || (0 <? length (rawParts ds))%nat.
Proof.
  cbv zeta. revert st. induction ds as [|d ds IH]; intros st.
  - simpl. by rewrite orb_false_r.
  - cbn [processPayloads].
    pose proof (processData_content messageId originalModel st d) as [Hd1 Hd2].
    destruct (processData messageId originalModel st d) as [st1 evs1].
    cbn [fst snd] in *.
    destruct (IH st1) as [Hr1 Hr2].
    destruct (processPayloads messageId originalModel st1 ds) as [st2 evs2].
    cbn [fst snd] in *.
    rewrite contentDeltas_app, Hd1, Hr1, allParts_cons, rawParts_cons, omap_app.
    split; [done|]. rewrite Hr2, Hd2, length_app.
    destruct (hasEmittedStart st); [done|]. simpl.
    destruct (partsOf d), (rawParts ds); done.
Qed.

(** X24.  No content is lost or reordered.  When the [parts] arrays of
    the payloads hold at least one element, the deltas that carry content
    (all deltas but the signature deltas) are, in this order, those of the
    parts that the translator enters: the thinking of every thought part
    with a text; the text of every other part whose text is not blank; the
    arguments of the function call of every part that has no [text] key.
    The loop over the parts of a payload ends at a part that throws (an
    element that is not an object, or a function call that is [null]), so
    the parts that follow it in the same payload contribute nothing.  When
    the arrays hold no element at all, the only delta is the placeholder
    text. *)
Theorem streamSSEResponse_content
    (chunks : list string) (originalModel : string) :
  contentDeltas (streamSSEResponse chunks originalModel) =
  match rawParts (payloads chunks) with
  | [] => [TextDelta "[No response received from API]"]
  | _ => omap deltaOf (allParts (payloads chunks))
  end.
Proof.
  rewrite streamSSEResponse_payloads. cbv zeta.
  destruct (processPayloads_content ("msg_" +:+ randomHex 16 0) originalModel
              (payloads chunks) initialState) as [Hc Hs].
  destruct (processPayloads _ _ _ _) as [st evs]. cbn [fst snd] in *.
  rewrite contentDeltas_app, Hc. unfold finish. rewrite Hs. simpl.
  destruct (rawParts (payloads chunks)) as [|p ps] eqn:Hraw.
  - assert (Hall : allParts (payloads chunks) = []).
    { clear -Hraw. induction (payloads chunks) as [|d ds IH]; [done|].
      rewrite rawParts_cons in Hraw. apply app_eq_nil in Hraw as [Hd Hds].
      rewrite allParts_cons, Hd, (IH Hds). done. }
    by rewrite Hall.
  - cbn [length Nat.ltb Nat.leb negb].
    destruct (currentBlockType st); [|by rewrite app_nil_r].
    destruct (isBlockType st Thinking && _); simpl; by rewrite app_nil_r.
Qed.

End StreamContent.

(** ** The SSE translator: the closing [message_delta] *)
Section StreamClosing.

Import SSE Stream.
Context {K : Constants} {R : Runtime}.

Lemma flushSignature_counters st :
  outputTokens (flushSignature st).1 = outputTokens st /\
  cacheReadTokens (flushSignature st).1 = cacheReadTokens st /\
  stopReason (flushSignature st).1 = stopReason st.
Proof. unfold flushSignature. by case_match. Qed.

Lemma closeBlock_counters st :
  outputTokens (closeBlock st).1 = outputTokens st /\
  cacheReadTokens (closeBlock st).1 = cacheReadTokens st /\
  stopReason (closeBlock st).1 = stopReason st.
Proof. unfold closeBlock. by case_match. Qed.

(** A part leaves the usage counters alone, and changes the stop reason
    only when it takes the tool-use branch, to "tool_use". *)
Lemma processPart_counters originalModel st part :
  let st' := (processPart originalModel st part).1.1 in
  outputTokens st' = outputTokens st /\
  cacheReadTokens st' = cacheReadTokens st /\
  (stopReason st' = stopReason st \/
   stopReason st' = "tool_use" /\
   text part = Absent /\ functionCall part <> Absent).
Proof.
  cbv zeta. unfold processPart.
  destruct (isThought part), (text part) as [| |txt],
    (functionCall part) as [| |fc].
  all: try (by repeat split; auto).
  all: try (destruct (isEmpty txt || (String.length (trim txt) =? 0)%nat);
            [by repeat split; auto|]).
  all: try destruct (isBlockType st _).
  all: pose proof (flushSignature_counters st) as (Hf1 & Hf2 & Hf3);
       destruct (flushSignature st) as [st1 sig]; cbn [fst snd] in Hf1, Hf2, Hf3.
  all: pose proof (closeBlock_counters st) as (Hc1 & Hc2 & Hc3);
       pose proof (closeBlock_counters st1) as (Hd1 & Hd2 & Hd3);
       destruct (closeBlock st) as [st2 stop]; cbn [fst snd] in Hc1, Hc2, Hc3;
       destruct (closeBlock st1) as [st3 stop']; cbn [fst snd] in Hd1, Hd2, Hd3.
  all: repeat case_match; simplify_eq.
  all: cbn; repeat split; try congruence.
  all: first [ left; congruence | right; by repeat split ].
Qed.

Lemma processParts_counters originalModel ps st :
  let st' := (processParts originalModel st ps).1.1 in
  outputTokens st' = outputTokens st /\
  cacheReadTokens st' = cacheReadTokens st /\
  (stopReason st' = stopReason st \/
   stopReason st' = "tool_use" /\
   exists part, part ∈ reached ps /\
     text part = Absent /\ functionCall part <> Absent).
Proof.
  cbv zeta. revert st. induction ps as [|[part|] rest IH]; intros st.
  { simpl. repeat split; auto. }
  2: { simpl. repeat split; auto. }
  cbn [processParts reached].
  pose proof (processPart_counters originalModel st part) as (Ho & Hc & Hs).
  pose proof (processPart_content originalModel st part) as (_ & _ & Hthrew).
  destruct (processPart originalModel st part) as [[st1 evs1] threw].
  cbn [fst snd] in *. subst threw.
  destruct (throws (Some part)).
  - cbn [fst snd]. split; [done|]. split; [done|].
    destruct Hs as [Hs | [Hs Hfc]]; [by left|].
    right. split; [done|]. exists part. split; [apply list_elem_of_here|done].
  - destruct (IH st1) as (Ho' & Hc' & Hs').
    destruct (processParts originalModel st1 rest) as [[st2 evs2] threw2].
    cbn [fst snd] in *.
    split; [congruence|]. split; [congruence|].
    destruct Hs' as [Hs' | [Hs' (p & Hp & Hfc)]].
    + destruct Hs as [Hs | [Hs Hfc]].
      * left. congruence.
      * right. split; [congruence|]. exists part.
        split; [apply list_elem_of_here|done].
    + right. split; [done|]. exists p.
      split; [by apply list_elem_of_further|done].
Qed.

Lemma checkFinishReason_counters st data :
  outputTokens (checkFinishReason st data) = outputTokens st /\
  cacheReadTokens (checkFinishReason st data) = cacheReadTokens st /\
  (stopReason (checkFinishReason st data) = stopReason st \/
   stopReason (checkFinishReason st data) = "max_tokens" \/
   stopReason (checkFinishReason st data) = "end_turn").
Proof.
  unfold checkFinishReason. repeat (case_match; try done); cbn; auto.
Qed.

Lemma latestFrom_cons f start d rest :
  latestFrom f start (d :: rest) =
  latestFrom f
    (match usageMetadata (innerResponse d) with
     | Some u => orElse (f u) start
     | None => start
     end) rest.
Proof. reflexivity. Qed.

(** One payload: the counters move to the latest values, and the stop
    reason stays, or becomes one of the three known ones, "tool_use" only
    for a part that takes the tool-use branch. *)
Lemma processData_counters messageId originalModel st data :
  let st' := (processData messageId originalModel st data).1 in
  outputTokens st' = latestFrom candidatesTokenCount (outputTokens st) [data] /\
  cacheReadTokens st' =
    latestFrom cachedContentTokenCount (cacheReadTokens st) [data] /\
  (stopReason st' = stopReason st \/
   stopReason st' = "max_tokens" \/ stopReason st' = "end_turn" \/
   stopReason st' = "tool_use" /\
   exists part, part ∈ reached (partsOf data) /\
     text part = Absent /\ functionCall part <> Absent).
Proof.
  cbv zeta. unfold processData.
  assert (Hu : outputTokens (extractUsage st data) =
                 latestFrom candidatesTokenCount (outputTokens st) [data] /\
               cacheReadTokens (extractUsage st data) =
                 latestFrom cachedContentTokenCount (cacheReadTokens st) [data] /\
               stopReason (extractUsage st data) = stopReason st).
  { unfold extractUsage, latestFrom. simpl.
    by destruct (usageMetadata (innerResponse data)). }
  destruct Hu as (Hu1 & Hu2 & Hu3).
  set (st0 := extractUsage st data) in *. clearbody st0.
  assert (Hparts : forall st1 : State,
    outputTokens st1 = outputTokens st0 ->
    cacheReadTokens st1 = cacheReadTokens st0 ->
    stopReason st1 = stopReason st0 ->
    let run := processParts originalModel st1 (partsOf data) in
    let st' := if run.2 then run.1.1 else checkFinishReason run.1.1 data in
    outputTokens st' = latestFrom candidatesTokenCount (outputTokens st) [data] /\
    cacheReadTokens st' =
      latestFrom cachedContentTokenCount (cacheReadTokens st) [data] /\
    (stopReason st' = stopReason st \/
     stopReason st' = "max_tokens" \/ stopReason st' = "end_turn" \/
     stopReason st' = "tool_use" /\
     exists part, part ∈ reached (partsOf data) /\
       text part = Absent /\ functionCall part <> Absent)).
  { intros st1 H1 H2 H3. cbv zeta.
    destruct (processParts_counters originalModel (partsOf data) st1)
      as (Ho & Hc & Hs).
    destruct (checkFinishReason_counters
                (processParts originalModel st1 (partsOf data)).1.1 data)
      as (Ho' & Hc' & Hs').
    destruct (processParts originalModel st1 (partsOf data)).2.
    - split; [congruence|]. split; [congruence|].
      destruct Hs as [Hs | [Hs Hfc]].
      + left. congruence.
      + right; right; right. by split.
    - split; [congruence|]. split; [congruence|].
      destruct Hs' as [Hs' | [Hs' | Hs']]; [|by auto|by auto].
      destruct Hs as [Hs | [Hs Hfc]].
      + left. congruence.
      + right; right; right. split; [congruence|done]. }
  destruct (negb (hasEmittedStart st0) && (0 <? length (partsOf data))%nat).
  - specialize (Hparts (withStart st0) eq_refl eq_refl eq_refl).
    by destruct (processParts originalModel (withStart st0) (partsOf data))
      as [[st1 evs1] threw].
  - specialize (Hparts st0 eq_refl eq_refl eq_refl).
    by destruct (processParts originalModel st0 (partsOf data))
      as [[st1 evs1] threw].
Qed.

Lemma processPayloads_counters messageId originalModel ds st :
  knownStopReason (stopReason st) ->
  let st' := (processPayloads messageId originalModel st ds).1 in
  outputTokens st' = latestFrom candidatesTokenCount (outputTokens st) ds /\
  cacheReadTokens st' =
    latestFrom cachedContentTokenCount (cacheReadTokens st) ds /\
  knownStopReason (stopReason st') /\
  (stopReason st' = "tool_use" ->
   stopReason st = "tool_use" \/ hasFunctionCall ds).
Proof.
  cbv zeta. revert st. induction ds as [|d ds IH]; intros st Hknown.
  { simpl. repeat split; auto. }
  cbn [processPayloads].
  pose proof (processData_counters messageId originalModel st d) as (Ho & Hc & Hs).
  destruct (processData messageId originalModel st d) as [st1 evs1].
  cbn [fst snd] in *.
  assert (Hknown1 : knownStopReason (stopReason st1)).
  { unfold knownStopReason in *.
    destruct Hs as [-> | [-> | [-> | [-> _]]]]; auto. }
  destruct (IH st1 Hknown1) as (Ho' & Hc' & Hk' & Ht').
  destruct (processPayloads messageId originalModel st1 ds) as [st2 evs2].
  cbn [fst snd] in *.
  rewrite Ho', Hc', Ho, Hc.
  split; [done|]. split; [done|]. split; [done|].
  intros Htool. destruct (Ht' Htool) as [Hst1 | (p & Hp & Hfc)].
  - destruct Hs as [Hs | [Hs | [Hs | [_ (p & Hp & Hfc)]]]];
      try congruence.
    + left. congruence.
    + right. exists p. split; [|done].
      rewrite allParts_cons. apply elem_of_app. by left.
  - right. exists p. split; [|done].
    rewrite allParts_cons. apply elem_of_app. by right.
Qed.

Lemma streamSSEResponse_closing chunks originalModel :
  exists front st,
    streamSSEResponse chunks originalModel =
    front ++ [MessageDelta (stopReason st) (outputTokens st)
                (cacheReadTokens st) 0; MessageStop] /\
    st = (processPayloads ("msg_" +:+ randomHex 16 0) originalModel
            initialState (payloads chunks)).1.
Proof.
  rewrite streamSSEResponse_payloads. cbv zeta.
  destruct (processPayloads _ _ _ _) as [st evs]. cbn [fst snd].
  unfold finish. eexists _, st. split; [|done].
  by rewrite app_assoc.
Qed.

(** X25.  The stream always ends with [message_delta] and [message_stop],
    and the [message_delta] reports the latest counts seen anywhere in the
    stream: [output_tokens] is the last [candidatesTokenCount] and
    [cache_read_input_tokens] the last [cachedContentTokenCount] among all
    payloads, 0 when no payload carries the count;
    [cache_creation_input_tokens] is 0. *)
Theorem streamSSEResponse_final_usage
    (chunks : list string) (originalModel : string) :
  exists front stop,
    streamSSEResponse chunks originalModel =
    front ++
    [ MessageDelta stop
        (latestFrom candidatesTokenCount 0 (payloads chunks))
        (latestFrom cachedContentTokenCount 0 (payloads chunks)) 0;
      MessageStop ].
Proof.
  destruct (streamSSEResponse_closing chunks originalModel)
    as (front & st & Heq & Hst).
  destruct (processPayloads_counters ("msg_" +:+ randomHex 16 0) originalModel
              (payloads chunks) initialState) as (Ho & Hc & _);
    [by left|].
  rewrite <- Hst in Ho, Hc. simpl in Ho, Hc.
  exists front, (stopReason st). by rewrite Heq, Ho, Hc.
Qed.

(** X26.  The stop reason that the closing [message_delta] reports is one
    of "end_turn", "max_tokens" and "tool_use", and it is "tool_use" only
    when some part that the translator entered took the tool-use branch: a
    part without a [text] key that has the [functionCall] key.  The key may
    hold [null]: the stop reason is set before the function call is read,
    so it can be "tool_use" in a stream that has no tool-use block. *)
Theorem streamSSEResponse_stop_reason
    (chunks : list string) (originalModel : string) :
  exists front stop outputTokens cacheRead,
    streamSSEResponse chunks originalModel =
    front ++ [MessageDelta stop outputTokens cacheRead 0; MessageStop] /\
    knownStopReason stop /\
    (stop = "tool_use" -> hasFunctionCall (payloads chunks)).
Proof.
  destruct (streamSSEResponse_closing chunks originalModel)
    as (front & st & Heq & Hst).
  destruct (processPayloads_counters ("msg_" +:+ randomHex 16 0) originalModel
              (payloads chunks) initialState) as (_ & _ & Hk & Ht);
    [by left|].
  rewrite <- Hst in Hk, Ht.
  exists front, (stopReason st), (outputTokens st), (cacheReadTokens st).
  split; [done|]. split; [done|].
  intros Htool. by destruct (Ht Htool).
Qed.

End StreamClosing.

(** ** The SSE translator: thought signatures *)
Section StreamSignatures.

Import SSE Stream.
Context {K : Constants} {R : Runtime}.

Lemma longEnough_length s :
  longEnough s = true -> (MIN_SIGNATURE_LENGTH <= String.length s)%nat.
Proof.
  unfold longEnough. intros H. apply andb_true_iff in H as [_ H].
  by apply Nat.leb_le.
Qed.

Lemma heldSignatureOk_nonempty st :
  heldSignatureOk st ->
  isEmpty (currentThinkingSignature st) = false ->
  (MIN_SIGNATURE_LENGTH <= String.length (currentThinkingSignature st))%nat.
Proof.
  intros [Hempty | Hlong] Hne.
  - by rewrite Hempty in Hne.
  - by apply longEnough_length.
Qed.

Lemma signatureOk_plain e : signatureOfEvent e = None -> signatureOk e.
Proof. intros He s Hs. congruence. Qed.

Lemma flushSignature_signatures st :
  heldSignatureOk st ->
  heldSignatureOk (flushSignature st).1 /\
  Forall signatureOk (flushSignature st).2.
Proof.
  intros Hst. unfold flushSignature.
  destruct (isBlockType st Thinking &&
            negb (isEmpty (currentThinkingSignature st))) eqn:Hflush; cbn.
  - split; [by left|]. constructor; [|constructor].
    intros s [= <-]. apply heldSignatureOk_nonempty; [done|].
    apply andb_true_iff in Hflush as [_ Hne]. by apply negb_true_iff.
  - split; [done|constructor].
Qed.

Lemma closeBlock_signatures st :
  heldSignatureOk st ->
  heldSignatureOk (closeBlock st).1 /\ Forall signatureOk (closeBlock st).2.
Proof.
  intros Hst. unfold closeBlock. destruct (currentBlockType st); cbn.
  - split; [done|]. constructor; [|constructor]. by apply signatureOk_plain.
  - split; [done|constructor].
Qed.

Lemma processPart_signatures originalModel st part :
  heldSignatureOk st ->
  heldSignatureOk (processPart originalModel st part).1.1 /\
  Forall signatureOk (processPart originalModel st part).1.2.
Proof.
  intros Hst. unfold processPart.
  destruct (isThought part), (text part) as [| |txt],
    (functionCall part) as [| |fc].
  all: try (split; [done|constructor]).
  all: try (destruct (isEmpty txt || (String.length (trim txt) =? 0)%nat);
            [split; [done|constructor]|]).
  all: try destruct (isBlockType st _).
  all: pose proof (flushSignature_signatures st Hst) as [Hf1 Hf2];
       destruct (flushSignature st) as [st1 sig]; cbn [fst snd] in Hf1, Hf2.
  all: pose proof (closeBlock_signatures st Hst) as [Hc1 Hc2];
       pose proof (closeBlock_signatures st1 Hf1) as [Hd1 Hd2];
       destruct (closeBlock st) as [st2 stop]; cbn [fst snd] in Hc1, Hc2;
       destruct (closeBlock st1) as [st3 stop']; cbn [fst snd] in Hd1, Hd2.
  all: destruct (longEnough (signatureOf part)) eqn:Hlong.
  all: repeat case_match; simplify_eq; cbn [fst snd].
  all: split;
       [ unfold heldSignatureOk in *; cbn; auto
       | repeat (apply Forall_app; split); try done;
         repeat constructor;
         try (by apply signatureOk_plain);
         try (intros ? [= <-]; by apply longEnough_length) ].
Qed.

Lemma processParts_signatures originalModel ps st :
  heldSignatureOk st ->
  heldSignatureOk (processParts originalModel st ps).1.1 /\
  Forall signatureOk (processParts originalModel st ps).1.2.
Proof.
  revert st. induction ps as [|[part|] rest IH]; intros st Hst.
  { split; [done|constructor]. }
  2: { split; [done|constructor]. }
  cbn [processParts].
  destruct (processPart_signatures originalModel st part Hst) as [H1 H2].
  destruct (processPart originalModel st part) as [[st1 evs1] threw].
  cbn [fst snd] in *.
  destruct threw; [by split|].
  destruct (IH st1 H1) as [H3 H4].
  destruct (processParts originalModel st1 rest) as [[st2 evs2] threw2].
  cbn [fst snd] in *. split; [done|]. by apply Forall_app.
Qed.

Lemma processData_signatures messageId originalModel st data :
  heldSignatureOk st ->
  heldSignatureOk (processData messageId originalModel st data).1 /\
  Forall signatureOk (processData messageId originalModel st data).2.
Proof.
  intros Hst. unfold processData.
  assert (H0 : heldSignatureOk (extractUsage st data)).
  { unfold extractUsage. by destruct (usageMetadata (innerResponse data)). }
  assert (Hfinish : forall (threw : bool) st1, heldSignatureOk st1 ->
            heldSignatureOk (if threw then st1 else checkFinishReason st1 data)).
  { intros [] st1 H1; [done|]. unfold checkFinishReason.
    repeat (case_match; try done). }
  destruct (negb (hasEmittedStart (extractUsage st data)) &&
            (0 <? length (partsOf data))%nat).
  - destruct (processParts_signatures originalModel (partsOf data)
                (withStart (extractUsage st data)) H0) as [H1 H2].
    destruct (processParts _ _ _) as [[st1 evs1] threw]. cbn [fst snd] in *.
    split; [by apply Hfinish|].
    constructor; [by apply signatureOk_plain|done].
  - destruct (processParts_signatures originalModel (partsOf data)
                (extractUsage st data) H0) as [H1 H2].
    destruct (processParts _ _ _) as [[st1 evs1] threw]. cbn [fst snd] in *.
    split; [by apply Hfinish|done].
Qed.

Lemma processPayloads_signatures messageId originalModel ds st :
  heldSignatureOk st ->
  heldSignatureOk (processPayloads messageId originalModel st ds).1 /\
  Forall signatureOk (processPayloads messageId originalModel st ds).2.
Proof.
  revert st. induction ds as [|d ds IH]; intros st Hst.
  { split; [done|constructor]. }
  simpl.
  destruct (processData_signatures messageId originalModel st d Hst) as [H1 H2].
  destruct (processData messageId originalModel st d) as [st1 evs1].
  cbn [fst snd] in *.
  destruct (IH st1 H1) as [H3 H4].
  destruct (processPayloads messageId originalModel st1 ds) as [st2 evs2].
  cbn [fst snd] in *. split; [done|]. by apply Forall_app.
Qed.

(** X27.  The translator never forwards a thought signature that is too
    short: every signature delta it yields, and every signature it stores
    in a tool-use block, is at least [MIN_SIGNATURE_LENGTH] characters
    long. *)
Theorem streamSSEResponse_signatures
    (chunks : list string) (originalModel : string) :
  Forall signatureOk (streamSSEResponse chunks originalModel).
Proof.
  rewrite streamSSEResponse_payloads. cbv zeta.
  destruct (processPayloads_signatures ("msg_" +:+ randomHex 16 0)
              originalModel (payloads chunks) initialState) as [Hst Hevs];
    [by left|].
  destruct (processPayloads _ _ _ _) as [st evs]. cbn [fst snd] in *.
  apply Forall_app. split; [done|]. unfold finish.
  apply Forall_app. split; [|repeat constructor; by apply signatureOk_plain].
  destruct (negb (hasEmittedStart st)).
  { repeat constructor; by apply signatureOk_plain. }
  destruct (currentBlockType st); [|constructor].
  apply Forall_app. split; [|repeat constructor; by apply signatureOk_plain].
  destruct (isBlockType st Thinking &&
            negb (isEmpty (currentThinkingSignature st))) eqn:Hflush;
    [|constructor].
  constructor; [|constructor].
  intros s [= <-]. apply heldSignatureOk_nonempty; [done|].
  apply andb_true_iff in Hflush as [_ Hne]. by apply negb_true_iff.
Qed.

End StreamSignatures.

(** ** The SSE translator: the grammar of the events *)
Section StreamGrammar.

Import SSE Stream.
Context {K : Constants} {R : Runtime}.

(** X30.  When the loop body throws on none of the parts it enters (no
    entered part lacks the [text] key while its [functionCall] key holds
    [null]), the events follow the grammar of an Anthropic stream: a
    [message_start], the content blocks numbered 0, 1, 2, ... one after
    the other, each a start, its deltas and a stop with the block's index,
    then [message_delta] and [message_stop].  An element of [parts] that
    is not an object is harmless: the body throws on it before it changes
    anything. *)
Theorem streamSSEResponse_grammar_without_null_call
    (chunks : list string) (originalModel : string) :
  Forall (fun part => throws (Some part) = false)
    (allParts (payloads chunks)) ->
  WellFormed (streamSSEResponse chunks originalModel).
Proof.
  intros Hclean. rewrite streamSSEResponse_payloads. cbv zeta.
  pose proof (processPayloads_invariant ("msg_" +:+ randomHex 16 0)
                originalModel (payloads chunks) initialState [] Hclean)
    as Hinv.
  destruct (processPayloads _ _ _ _) as [st evs].
  apply finish_well_formed. apply Hinv. by repeat split.
Qed.

End StreamGrammar.

(** A thinking block, a text block and a tool call. *)
Section StreamGrammarSamples.

Import SSE Stream.

Lemma streamSSEResponse_grammar_without_null_call_witness :
  Forall (fun part => throws (Some part) = false)
    (allParts (payloads (R := Sample.runtime)
       [Sample.line "data: think"; Sample.line "data: text";
        Sample.line "data: tool"])) /\
  WellFormed
    (streamSSEResponse (K := Sample.constants) (R := Sample.runtime)
       [Sample.line "data: think"; Sample.line "data: text";
        Sample.line "data: tool"] "m").
Proof.
  assert (Hclean : Forall (fun part => throws (Some part) = false)
    (allParts (payloads (R := Sample.runtime)
       [Sample.line "data: think"; Sample.line "data: text";
        Sample.line "data: tool"]))).
  { vm_compute. repeat constructor. }
  split; [exact Hclean|].
  exact (streamSSEResponse_grammar_without_null_call (K := Sample.constants)
           (R := Sample.runtime) _ "m" Hclean).
Defined.

End StreamGrammarSamples.

(** ** The OpenAI response converter *)
Section OpenAIMessage.

Import OpenAI Blocks.
Context {R : SSE.Runtime}.

(** The loop of [convertToOpenAI]: the text grows by the text of the text
    blocks, the tool calls by one call per tool-use block. *)
Lemma collect_spec blocks textContent toolCalls draws :
  exists more draws',
    collect blocks textContent toolCalls draws =
      (textContent +:+ textOf blocks, toolCalls ++ more, draws') /\
    (fun tc => (tc_name tc, tc_arguments tc)) <$> more = toolUses blocks /\
    Forall2 (fun tc i => match i with Some x => tc_id tc = x | None => True end)
      more (toolIds blocks).
Proof.
  revert textContent toolCalls draws.
  induction blocks as [|b rest IH]; intros textContent toolCalls draws.
  - exists [], draws. simpl. by rewrite app_nil_r, append_empty_r.
  - destruct b as [t|th|i name input|]; simpl.
    + destruct (IH (textContent +:+
                      match JS.truthy t with Some x => x | None => "" end)
                   toolCalls draws) as (more & draws' & -> & Hm & Hi).
      exists more, draws'. by rewrite append_assoc.
    + apply IH.
    + destruct (JS.truthy i) as [x|] eqn:Hid.
      * destruct (IH textContent
                    (toolCalls ++
                     [{| tc_id := x; tc_name := name;
                         tc_arguments :=
                           match input with Some a => a | None => "{}" end |}])
                    draws) as (more & draws' & -> & Hm & Hi).
        eexists (_ :: more), draws'. rewrite <- app_assoc. split; [done|].
        split; [by rewrite fmap_cons, Hm|]. by constructor.
      * destruct (IH textContent
                    (toolCalls ++
                     [{| tc_id := "call_" +:+ SSE.randomHex 8 draws;
                         tc_name := name;
                         tc_arguments :=
                           match input with Some a => a | None => "{}" end |}])
                    (S draws)) as (more & draws' & -> & Hm & Hi).
        eexists (_ :: more), draws'. rewrite <- app_assoc. split; [done|].
        split; [by rewrite fmap_cons, Hm|]. by constructor.
    + apply IH.
Qed.

(** X28.  What [convertToOpenAI] makes of the content blocks.  The message
    content is the text of the text blocks, one after the other, and null
    when that is empty; thinking blocks contribute nothing.  There is one
    tool call per tool-use block, in order, with the block's name and
    arguments ("{}" without input) and the block's id when it has one; the
    [tool_calls] field is left out when there is no tool-use block.  The
    finish reason is "length" when the stop reason is "max_tokens",
    otherwise "tool_calls" when the stop reason is "tool_use" or there is a
    tool call, otherwise "stop". *)
Theorem convertToOpenAI_message
    (anthropicResponse : AnthropicResponse) (model : string) (now : Z) :
  let r := convertToOpenAI anthropicResponse model now in
  let blocks := blocksOf anthropicResponse in
  cc_content r = JS.truthy (Some (textOf blocks)) /\
  (fun tc => (tc_name tc, tc_arguments tc)) <$> callsOf r = toolUses blocks /\
  Forall2 (fun tc i => match i with Some x => tc_id tc = x | None => True end)
    (callsOf r) (toolIds blocks) /\
  (cc_tool_calls r = None <-> toolUses blocks = []) /\
  cc_finish_reason r =
    (if bool_decide (stop_reason anthropicResponse = Some "max_tokens")
     then "length"
     else if bool_decide (stop_reason anthropicResponse = Some "tool_use")
             || negb (bool_decide (toolUses blocks = []))
     then "tool_calls" else "stop").
Proof.
  cbv zeta. unfold convertToOpenAI, blocksOf, callsOf.
  destruct (collect_spec
              match content anthropicResponse with Some c => c | None => [] end
              "" [] 1) as (more & draws' & -> & Hm & Hi).
  cbn [cc_content cc_tool_calls cc_finish_reason app].
  rewrite <- Hm, append_empty_l.
  destruct more as [|tc more]; cbn [length Nat.ltb Nat.leb fmap list_fmap].
  - split; [done|]. split; [done|]. split; [done|]. split; [done|].
    rewrite (bool_decide_eq_true_2 ([] = [])) by done.
    destruct (stop_reason anthropicResponse) as [r|].
    2:{ by rewrite !bool_decide_eq_false_2 by done. }
    destruct (String.eqb_spec r "max_tokens") as [->|Hmax].
    { by rewrite bool_decide_eq_true_2. }
    rewrite (bool_decide_eq_false_2 (Some r = Some "max_tokens")) by congruence.
    destruct (String.eqb_spec r "tool_use") as [->|Htool].
    { by rewrite bool_decide_eq_true_2. }
    rewrite (bool_decide_eq_false_2 (Some r = Some "tool_use")) by congruence.
    reflexivity.
  - split; [done|]. split; [done|]. split; [done|]. split; [done|].
    rewrite (bool_decide_eq_false_2 (_ :: _ = [])) by done.
    rewrite !orb_true_r.
    destruct (stop_reason anthropicResponse) as [r|].
    2:{ by rewrite !bool_decide_eq_false_2 by done. }
    destruct (String.eqb_spec r "max_tokens") as [->|Hmax].
    { by rewrite bool_decide_eq_true_2. }
    rewrite (bool_decide_eq_false_2 (Some r = Some "max_tokens")) by congruence.
    by rewrite orb_true_r.
Qed.

End OpenAIMessage.

(** ** The OpenAI streaming converter, run on a translated stream *)
Section OpenAIStreamShape.

Import SSE Stream OpenAIStream.
Context {K : Constants} {R : Runtime}.



(** *** The translator starts a block only when none is open *)











(** *** The converter on events that start a block only when none is open

    Every line carries content, and the tool calls started carry
    consecutive indices. *)





End OpenAIStreamShape.
